(** * libMesh [Parallel] namespace: a shallow embedding of parallel.h

    The header wraps a message-passing transport (MPI).  Every function of
    the header is a per-process program: it computes on local data and, at
    some points, calls a primitive of the transport.  The embedding keeps
    that shape.  A function of the header becomes a Rocq function into the
    type [Par] of per-process programs, whose nodes are the calls into the
    transport; a world of processes is run in lock step against a model of
    the collective primitives ([collective], [run]).

    Conventions.
    - [unsigned int] and [int] are 32 bits wide; their wrap-around is written
      out with [to_unsigned_int] and [to_int].
    - A scalar of an integer type [T] is its value in [Z]; [std::vector<T>]
      is [list Z], [std::vector<bool>] is [list bool], [std::string] is
      [list ascii].  Of the floating-point instances only [verify] is
      embedded (module [Floating]), of the overloads for complex numbers
      only the variable-length [gather].
    - [START_LOG] / [STOP_LOG] only feed the performance log and are dropped. *)

From Stdlib Require Import ZArith Lia List Bool Ascii.
From Stdlib Require SpecFloat.
From stdpp Require Import base list.

Local Open Scope Z_scope.

(** ** Machine integers *)

Definition to_unsigned_int (z : Z) : Z := z mod 2 ^ 32.

Definition to_int (z : Z) : Z := (z + 2 ^ 31) mod 2 ^ 32 - 2 ^ 31.

(** [sizeof(unsigned int)], in bytes. *)
Definition sizeof_unsigned_int : Z := 4.

(** [a << n] and [a >> n] on [unsigned int] operands. *)
Definition shl_unsigned_int (a n : Z) : Z := to_unsigned_int (Z.shiftl a n).
Definition shr_unsigned_int (a n : Z) : Z := Z.shiftr a n.

(** [a << n] on [int] operands. *)
Definition shl_int (a n : Z) : Z := to_int (Z.shiftl a n).

(** Conversion of an integer to [bool], and back. *)
Definition to_bool (z : Z) : bool := negb (z =? 0).
Definition of_bool (b : bool) : Z := if b then 1 else 0.

(** ** Vectors

    [v[i]] and [v[i] = x].  The index is in range wherever the header uses
    them on a well-formed call; out of range (undefined in C++) a read gives
    the default and a write does nothing. *)

Definition vec_get {A} (d : A) (v : list A) (i : Z) : A :=
  nth (Z.to_nat i) v d.

Definition vec_set {A} (v : list A) (i : Z) (x : A) : list A :=
  <[Z.to_nat i := x]> v.

(** [v.size()], before any conversion. *)
Definition vec_size {A} (v : list A) : Z := Z.of_nat (length v).

(** [v.resize(n)]: truncate, or pad with value-initialised elements. *)
Definition vec_resize {A} (d : A) (v : list A) (n : Z) : list A :=
  resize (Z.to_nat n) d v.

(** [for (unsigned int i = i0; i != i0 + n; ++i) body], as a state
    transformer. *)
Fixpoint for_loop {St} (n : nat) (i : Z) (body : Z -> St -> St) (s : St)
  : St :=
  match n with
  | O => s
  | S n' => for_loop n' (i + 1) body (body i s)
  end.

(** ** The transport *)

Inductive data_type : Type :=
| MPI_CHAR | MPI_UNSIGNED_CHAR
| MPI_SHORT | MPI_UNSIGNED_SHORT
| MPI_INT | MPI_UNSIGNED
| MPI_LONG | MPI_UNSIGNED_LONG.

Inductive MPI_Op : Type := MPI_MIN | MPI_MAX | MPI_SUM | MPI_BAND | MPI_BOR.

(** The primitives the header calls, with the arguments it passes.  The
    communicator is always [libMesh::COMM_WORLD] and the tags of
    [MPI_Sendrecv] are always 0; a buffer argument is the content of the
    vector behind the pointer. *)
Inductive MPI_call : Type :=
| MPI_Allreduce (sendbuf : list Z) (count : Z) (datatype : data_type)
                (op : MPI_Op)
| MPI_Sendrecv (sendbuf : list Z) (sendcount : Z) (sendtype : data_type)
               (dest : Z)
               (recvbuf : list Z) (recvcount : Z) (recvtype : data_type)
               (source : Z)
| MPI_Gather (sendbuf : list Z) (sendcount : Z) (sendtype : data_type)
             (recvbuf : list Z) (recvcount : Z) (recvtype : data_type)
             (root : Z)
| MPI_Gatherv (sendbuf : list Z) (sendcount : Z) (sendtype : data_type)
              (recvbuf : list Z) (recvcounts displs : list Z)
              (recvtype : data_type) (root : Z)
| MPI_Allgather (sendbuf : list Z) (sendcount : Z) (sendtype : data_type)
                (recvbuf : list Z) (recvcount : Z) (recvtype : data_type)
| MPI_Allgatherv (sendbuf : list Z) (sendcount : Z) (sendtype : data_type)
                 (recvbuf : list Z) (recvcounts displs : list Z)
                 (recvtype : data_type)
| MPI_Alltoall (sendbuf : list Z) (sendcount : Z) (sendtype : data_type)
               (recvbuf : list Z) (recvcount : Z) (recvtype : data_type)
| MPI_Bcast (buffer : list Z) (count : Z) (datatype : data_type) (root : Z).

(** What a primitive hands back: its return code and the content of its
    receive buffer after the call. *)
Record MPI_reply : Type := { ierr : Z; recvd : list Z }.

Definition MPI_SUCCESS : Z := 0.

(** ** Per-process programs *)

(** A program returns a value, or aborts the process, or calls the
    transport and goes on with its reply. *)
Inductive Par (A : Type) : Type :=
| Ret (a : A)
| Halt
| Transport (c : MPI_call) (k : MPI_reply -> Par A).

Arguments Ret {A} a.
Arguments Halt {A}.
Arguments Transport {A} c k.

Fixpoint Par_bind {A B} (f : A -> Par B) (m : Par A) : Par B :=
  match m with
  | Ret a => f a
  | Halt => Halt
  | Transport c k => Transport c (fun r => Par_bind f (k r))
  end.

#[global] Instance Par_mret : MRet Par := @Ret.
#[global] Instance Par_mbind : MBind Par := @Par_bind.

(** The process-wide state the header reads: [libMesh::n_processors()],
    [libMesh::processor_id()], and whether the build defines [NDEBUG]. *)
Record libMesh : Type :=
  { n_processors : Z; processor_id : Z; NDEBUG : bool }.

(** Modelled from the spec: [libmesh_error] and [libmesh_assert] are macros
    of libmesh_common.h, which is not part of the sources at hand.  A failed
    check aborts the process at once; assertions are checked only in debug
    builds. *)
Definition libmesh_error {A} : Par A := Halt.

Definition libmesh_assert (lm : libMesh) (asserted : bool) : Par unit :=
  if NDEBUG lm then Ret tt
  else if asserted then Ret tt else libmesh_error.

(** One call into the transport. *)
Definition transport (c : MPI_call) : Par MPI_reply := Transport c Ret.

Module Parallel.

(** ** Bit-packing of [std::vector<bool>]

    [pack_vector_bool<T>] and [unpack_vector_bool<T>] at [T = unsigned int],
    the instance [min] and [max] use. *)

Definition data_bits : Z := to_unsigned_int (8 * sizeof_unsigned_int).

Definition pack_vector_bool (in_ : list bool) : list Z :=
  let in_size := to_unsigned_int (vec_size in_) in
  let out_size :=
    to_unsigned_int
      (in_size / data_bits + (if in_size mod data_bits =? 0 then 0 else 1)) in
  let out := vec_resize 0 [] out_size in
  for_loop (Z.to_nat in_size) 0
    (fun i out =>
       let index := i / data_bits in
       let offset := i mod data_bits in
       vec_set out index
         (to_unsigned_int
            (vec_get 0 out index
             + to_unsigned_int
                 (shl_int (if vec_get false in_ i then 1 else 0) offset))))
    out.

(** The value [in[index] << (data_bits-1-offset) >> (data_bits-1)] that
    [unpack_vector_bool] stores at position [i]. *)
Definition extracted_bit (in_ : list Z) (i : Z) : Z :=
  let index := i / data_bits in
  let offset := i mod data_bits in
  shr_unsigned_int
    (shl_unsigned_int (vec_get 0 in_ index)
       (to_unsigned_int (data_bits - 1 - offset)))
    (to_unsigned_int (data_bits - 1)).

Definition unpack_vector_bool (lm : libMesh) (in_ : list Z) (out : list bool)
  : Par (list bool) :=
  let out_size := to_unsigned_int (vec_size out) in
  _ ← libmesh_assert lm
        (to_unsigned_int
           (out_size / data_bits
            + (if out_size mod data_bits =? 0 then 0 else 1))
         =? vec_size in_);
  mret (for_loop (Z.to_nat out_size) 0
          (fun i out => vec_set out i (to_bool (extracted_bit in_ i)))
          out).

(** ** Characters and buffers

    A [char] travels as its code, taken in 0..255; the header compares
    codes and copies them, nothing else. *)

Definition Z_of_char (c : ascii) : Z := Z.of_N (N_of_ascii c).
Definition char_of_Z (z : Z) : ascii := ascii_of_N (Z.to_N z).

(** Content of a variable that was declared and not initialised; no
    function below reads it before the transport has overwritten it. *)
Definition uninitialised : Z := 0.

(** [std::copy(block.begin(), block.end(), v.begin() + pos)]. *)
Definition copy_to (block : list Z) (v : list Z) (pos : Z) : list Z :=
  for_loop (length block) 0
    (fun j v => vec_set v (pos + j) (vec_get 0 block j)) v.

(** ** Reductions (HAVE_MPI) *)

Definition min (lm : libMesh) (T : data_type) (r : Z) : Par Z :=
  if n_processors lm >? 1 then
    reply ← transport (MPI_Allreduce [r] 1 T MPI_MIN);
    mret (vec_get uninitialised (recvd reply) 0)
  else mret r.

Definition min_bool (lm : libMesh) (r : bool) : Par bool :=
  if n_processors lm >? 1 then
    let tempsend := of_bool r in
    reply ← transport (MPI_Allreduce [tempsend] 1 MPI_UNSIGNED MPI_MIN);
    mret (to_bool (vec_get uninitialised (recvd reply) 0))
  else mret r.

Definition min_vector (lm : libMesh) (T : data_type) (r : list Z)
  : Par (list Z) :=
  if n_processors lm >? 1 then
    reply ← transport
              (MPI_Allreduce r (to_int (vec_size r)) T MPI_MIN);
    mret (recvd reply)
  else mret r.

Definition min_vector_bool (lm : libMesh) (r : list bool)
  : Par (list bool) :=
  if n_processors lm >? 1 then
    let rchar := pack_vector_bool r in
    reply ← transport
              (MPI_Allreduce rchar (to_int (vec_size rchar))
                 MPI_UNSIGNED MPI_BAND);
    unpack_vector_bool lm (recvd reply) r
  else mret r.

Definition max (lm : libMesh) (T : data_type) (r : Z) : Par Z :=
  if n_processors lm >? 1 then
    reply ← transport (MPI_Allreduce [r] 1 T MPI_MAX);
    mret (vec_get uninitialised (recvd reply) 0)
  else mret r.

Definition max_bool (lm : libMesh) (r : bool) : Par bool :=
  if n_processors lm >? 1 then
    let tempsend := of_bool r in
    reply ← transport (MPI_Allreduce [tempsend] 1 MPI_UNSIGNED MPI_MAX);
    mret (to_bool (vec_get uninitialised (recvd reply) 0))
  else mret r.

Definition max_vector (lm : libMesh) (T : data_type) (r : list Z)
  : Par (list Z) :=
  if n_processors lm >? 1 then
    reply ← transport
              (MPI_Allreduce r (to_int (vec_size r)) T MPI_MAX);
    mret (recvd reply)
  else mret r.

Definition max_vector_bool (lm : libMesh) (r : list bool)
  : Par (list bool) :=
  if n_processors lm >? 1 then
    let rchar := pack_vector_bool r in
    reply ← transport
              (MPI_Allreduce rchar (to_int (vec_size rchar))
                 MPI_UNSIGNED MPI_BOR);
    unpack_vector_bool lm (recvd reply) r
  else mret r.

Definition sum (lm : libMesh) (T : data_type) (r : Z) : Par Z :=
  if n_processors lm >? 1 then
    let temp := r in
    reply ← transport (MPI_Allreduce [temp] 1 T MPI_SUM);
    mret (vec_get r (recvd reply) 0)
  else mret r.

Definition sum_vector (lm : libMesh) (T : data_type) (r : list Z)
  : Par (list Z) :=
  if (n_processors lm >? 1) && negb (vec_size r =? 0) then
    let temp := r in
    reply ← transport
              (MPI_Allreduce temp (to_int (vec_size r)) T MPI_SUM);
    mret (recvd reply)
  else mret r.

(** ** verify *)

Definition verify (lm : libMesh) (T : data_type) (r : Z) : Par bool :=
  if n_processors lm >? 1 then
    tempmin ← min lm T r;
    tempmax ← max lm T r;
    let verified := (r =? tempmin) && (r =? tempmax) in
    min_bool lm verified
  else mret true.

(** [operator==] of [std::vector]. *)
Definition vec_eqb (a b : list Z) : bool :=
  (length a =? length b)%nat && forallb (fun p => fst p =? snd p) (zip a b).

(** [verify<T>] at a vector type: [min] and [max] resolve to the vector
    overloads. *)
Definition verify_vector (lm : libMesh) (T : data_type) (r : list Z)
  : Par bool :=
  if n_processors lm >? 1 then
    tempmin ← min_vector lm T r;
    tempmax ← max_vector lm T r;
    let verified := vec_eqb r tempmin && vec_eqb r tempmax in
    min_bool lm verified
  else mret true.

(** [verify<std::string>].  Its loop counter is an [unsigned int] compared
    with [r.size()]; it is embedded for strings shorter than 2^32. *)
Definition verify_string (lm : libMesh) (r : list ascii) : Par bool :=
  if n_processors lm >? 1 then
    let temp :=
      for_loop (length r) 0
        (fun i temp => temp ++ [Z_of_char (vec_get zero r i)]) [] in
    verify_vector lm MPI_SHORT temp
  else mret true.

(** ** Paired send and receive

    Each function returns the new content of [recv]. *)

Definition send_receive (lm : libMesh) (T : data_type)
    (dest_processor_id : Z) (send : Z) (source_processor_id : Z) (recv : Z)
  : Par Z :=
  if (dest_processor_id =? processor_id lm)
     && (source_processor_id =? processor_id lm)
  then mret send
  else
    reply ← transport
              (MPI_Sendrecv [send] 1 T (to_int dest_processor_id)
                 [recv] 1 T (to_int source_processor_id));
    mret (vec_get recv (recvd reply) 0).

Definition send_receive_vector (lm : libMesh) (T : data_type)
    (dest_processor_id : Z) (send : list Z)
    (source_processor_id : Z) (recv : list Z)
  : Par (list Z) :=
  if (dest_processor_id =? processor_id lm)
     && (source_processor_id =? processor_id lm)
  then mret send
  else
    (* Trade buffer sizes first *)
    let sendsize := to_unsigned_int (vec_size send) in
    reply ← transport
              (MPI_Sendrecv [sendsize] 1 MPI_UNSIGNED
                 (to_int dest_processor_id)
                 [uninitialised] 1 MPI_UNSIGNED
                 (to_int source_processor_id));
    let recvsize := vec_get uninitialised (recvd reply) 0 in
    let recv := vec_resize 0 recv recvsize in
    reply ← transport
              (MPI_Sendrecv send (to_int sendsize) T
                 (to_int dest_processor_id)
                 recv (to_int recvsize) T
                 (to_int source_processor_id));
    mret (recvd reply).

Definition send_receive_vector_vector (lm : libMesh) (T : data_type)
    (dest_processor_id : Z) (send : list (list Z))
    (source_processor_id : Z) (recv : list (list Z))
  : Par (list (list Z)) :=
  if (dest_processor_id =? processor_id lm)
     && (source_processor_id =? processor_id lm)
  then mret send
  else
    (* Trade outer buffer sizes first *)
    let sendsize := to_unsigned_int (vec_size send) in
    reply ← transport
              (MPI_Sendrecv [sendsize] 1 MPI_UNSIGNED
                 (to_int dest_processor_id)
                 [uninitialised] 1 MPI_UNSIGNED
                 (to_int source_processor_id));
    let recvsize := vec_get uninitialised (recvd reply) 0 in
    let recv := vec_resize [] recv recvsize in
    (* Trade inner buffer sizes next *)
    let sendsizes := vec_resize 0 [] sendsize in
    let recvsizes := vec_resize 0 [] recvsize in
    let '(sendsizes, sendsizesum) :=
      for_loop (Z.to_nat sendsize) 0
        (fun i '(sendsizes, sendsizesum) =>
           let sendsizes :=
             vec_set sendsizes i
               (to_unsigned_int (vec_size (vec_get [] send i))) in
           (sendsizes,
            to_unsigned_int (sendsizesum + vec_get 0 sendsizes i)))
        (sendsizes, 0) in
    reply ← transport
              (MPI_Sendrecv sendsizes (to_int sendsize) MPI_UNSIGNED
                 (to_int dest_processor_id)
                 recvsizes (to_int recvsize) MPI_UNSIGNED
                 (to_int source_processor_id));
    let recvsizes := recvd reply in
    let '(recvsizesum, recv) :=
      for_loop (Z.to_nat recvsize) 0
        (fun i '(recvsizesum, recv) =>
           (to_unsigned_int (recvsizesum + vec_get 0 recvsizes i),
            vec_set recv i
              (vec_resize 0 (vec_get [] recv i) (vec_get 0 recvsizes i))))
        (0, recv) in
    (* Build temporary buffers third *)
    let senddata := vec_resize 0 [] sendsizesum in
    let recvdata := vec_resize 0 [] recvsizesum in
    (* Fill the temporary send buffer *)
    let '(senddata, out) :=
      for_loop (Z.to_nat sendsize) 0
        (fun i '(senddata, out) =>
           (copy_to (vec_get [] send i) senddata out,
            out + vec_size (vec_get [] send i)))
        (senddata, 0) in
    _ ← libmesh_assert lm (out =? vec_size senddata);
    reply ← transport
              (MPI_Sendrecv senddata (to_int sendsizesum) T
                 (to_int dest_processor_id)
                 recvdata (to_int recvsizesum) T
                 (to_int source_processor_id));
    let recvdata := recvd reply in
    (* Empty the temporary recv buffer *)
    let '(recv, in_) :=
      for_loop (Z.to_nat recvsize) 0
        (fun i '(recv, in_) =>
           (vec_set recv i
              (copy_to
                 (take (Z.to_nat (vec_get 0 recvsizes i))
                    (drop (Z.to_nat in_) recvdata))
                 (vec_get [] recv i) 0),
            in_ + vec_get 0 recvsizes i))
        (recv, 0) in
    _ ← libmesh_assert lm (in_ =? vec_size recvdata);
    mret recv.

(** ** Gather, allgather, alltoall *)

Definition gather (lm : libMesh) (T : data_type)
    (root_id : Z) (send : Z) (recv : list Z)
  : Par (list Z) :=
  _ ← libmesh_assert lm (root_id <? n_processors lm);
  let recv :=
    if processor_id lm =? root_id
    then vec_resize 0 recv (n_processors lm) else recv in
  if n_processors lm >? 1 then
    reply ← transport
              (MPI_Gather [send] 1 T recv 1 T (to_int root_id));
    mret (recvd reply)
  else mret (vec_set recv 0 send).

Definition allgather (lm : libMesh) (T : data_type)
    (send : Z) (recv : list Z)
  : Par (list Z) :=
  let recv := vec_resize 0 recv (n_processors lm) in
  if n_processors lm >? 1 then
    reply ← transport (MPI_Allgather [send] 1 T recv 1 T);
    mret (recvd reply)
  else mret (vec_set recv 0 send).

(** The loop shared by the variable-length [gather] and [allgather]:
    displacements are the prefix sums of the lengths. *)
Definition displacements_loop (lm : libMesh) (sendlengths : list Z)
    (displacements : list Z)
  : list Z * Z :=
  for_loop (Z.to_nat (n_processors lm)) 0
    (fun i '(displacements, globalsize) =>
       (vec_set displacements i (to_int globalsize),
        to_unsigned_int (globalsize + vec_get 0 sendlengths i)))
    (displacements, 0).

Definition gather_vector (lm : libMesh) (T : data_type)
    (root_id : Z) (r : list Z)
  : Par (list Z) :=
  if n_processors lm =? 1 then
    _ ← libmesh_assert lm (processor_id lm =? root_id);
    mret r
  else
    let sendlengths := replicate (Z.to_nat (n_processors lm)) 0 in
    let displacements := replicate (Z.to_nat (n_processors lm)) 0 in
    let mysize := to_int (vec_size r) in
    sendlengths ← allgather lm MPI_INT mysize sendlengths;
    (* Find the total size of the final array and
       set up the displacement offsets for each processor. *)
    let '(displacements, globalsize) :=
      displacements_loop lm sendlengths displacements in
    (* Check for quick return *)
    if globalsize =? 0 then mret r
    else
      (* copy the input buffer *)
      let r_src := r in
      (* now resize it to hold the global data
         on the receiving processor *)
      let r :=
        if root_id =? processor_id lm
        then vec_resize 0 r globalsize else r in
      (* and get the data from the remote processors *)
      reply ← transport
                (MPI_Gatherv r_src mysize T r sendlengths displacements T
                   (to_int root_id));
      _ ← libmesh_assert lm (ierr reply =? MPI_SUCCESS);
      mret (recvd reply).

(** A [std::vector<std::complex<T> >] is a list of pairs (real part,
    imaginary part).  The transport is handed [&r[0]] with the element type
    [T]: it sees the parts of the elements in turn, two per element. *)
Definition scalars (r : list (Z * Z)) : list Z :=
  concat ((fun c => [c.1; c.2]) <$> r).

Fixpoint complexes (buf : list Z) : list (Z * Z) :=
  match buf with
  | re :: im :: buf => (re, im) :: complexes buf
  | _ => []
  end.

(** [gather(root_id, std::vector<std::complex<T> >&)]. *)
Definition gather_vector_complex (lm : libMesh) (T : data_type)
    (root_id : Z) (r : list (Z * Z))
  : Par (list (Z * Z)) :=
  if n_processors lm =? 1 then
    _ ← libmesh_assert lm (processor_id lm =? root_id);
    mret r
  else
    let sendlengths := replicate (Z.to_nat (n_processors lm)) 0 in
    let displacements := replicate (Z.to_nat (n_processors lm)) 0 in
    let mysize := to_int (vec_size r * 2) in
    sendlengths ← allgather lm MPI_INT mysize sendlengths;
    (* Find the total size of the final array and
       set up the displacement offsets for each processor. *)
    let '(displacements, globalsize) :=
      displacements_loop lm sendlengths displacements in
    (* Check for quick return *)
    if globalsize =? 0 then mret r
    else
      (* Make temporary buffers for the input/output data *)
      let r_src := r in
      (* now resize r to hold the global data
         on the receiving processor *)
      let r :=
        if root_id =? processor_id lm
        then vec_resize (0, 0) r globalsize else r in
      (* and get the data from the remote processors *)
      reply ← transport
                (MPI_Gatherv (scalars r_src) mysize T (scalars r) sendlengths
                   displacements T (to_int root_id));
      _ ← libmesh_assert lm (ierr reply =? MPI_SUCCESS);
      mret (complexes (recvd reply)).

Definition allgather_vector (lm : libMesh) (T : data_type) (r : list Z)
  : Par (list Z) :=
  if n_processors lm =? 1 then mret r
  else
    let sendlengths := replicate (Z.to_nat (n_processors lm)) 0 in
    let displacements := replicate (Z.to_nat (n_processors lm)) 0 in
    let mysize := to_int (vec_size r) in
    sendlengths ← allgather lm MPI_INT mysize sendlengths;
    let '(displacements, globalsize) :=
      displacements_loop lm sendlengths displacements in
    (* Check for quick return *)
    if globalsize =? 0 then mret r
    else
      (* copy the input buffer *)
      let r_src := r in
      (* now resize it to hold the global data *)
      let r := vec_resize 0 r globalsize in
      reply ← transport
                (MPI_Allgatherv r_src mysize T r sendlengths displacements T);
      _ ← libmesh_assert lm (ierr reply =? MPI_SUCCESS);
      mret (recvd reply).

Definition alltoall (lm : libMesh) (T : data_type) (buf : list Z)
  : Par (list Z) :=
  if n_processors lm =? 1 then mret buf
  else
    (* the per-processor size *)
    let size_per_proc := to_unsigned_int (vec_size buf / n_processors lm) in
    _ ← libmesh_assert lm (vec_size buf mod n_processors lm =? 0);
    let tmp := buf in
    reply ← transport
              (MPI_Alltoall tmp (to_int size_per_proc) T
                 buf (to_int size_per_proc) T);
    _ ← libmesh_assert lm (ierr reply =? MPI_SUCCESS);
    mret (recvd reply).

(** ** Broadcast *)

Definition broadcast (lm : libMesh) (T : data_type) (data : Z) (root_id : Z)
  : Par Z :=
  if n_processors lm =? 1 then
    _ ← libmesh_assert lm (processor_id lm =? root_id);
    mret data
  else
    (* Spread data to remote processors. *)
    reply ← transport (MPI_Bcast [data] 1 T (to_int root_id));
    _ ← libmesh_assert lm (ierr reply =? MPI_SUCCESS);
    mret (vec_get data (recvd reply) 0).

Definition broadcast_vector (lm : libMesh) (T : data_type)
    (data : list Z) (root_id : Z)
  : Par (list Z) :=
  if n_processors lm =? 1 then
    _ ← libmesh_assert lm (processor_id lm =? root_id);
    mret data
  else
    reply ← transport
              (MPI_Bcast data (to_int (vec_size data)) T (to_int root_id));
    _ ← libmesh_assert lm (ierr reply =? MPI_SUCCESS);
    mret (recvd reply).

(** [operator==] of [std::string]. *)
Definition string_eqb (a b : list ascii) : bool :=
  (length a =? length b)%nat
  && forallb (fun p => Ascii.eqb (fst p) (snd p)) (zip a b).

(** [broadcast<std::string>].  Its loops count with an [unsigned int]
    below a [size()]; they are embedded for strings shorter than 2^32. *)
Definition broadcast_string (lm : libMesh) (data : list ascii) (root_id : Z)
  : Par (list ascii) :=
  if n_processors lm =? 1 then
    _ ← libmesh_assert lm (processor_id lm =? root_id);
    mret data
  else
    let data_size := to_unsigned_int (vec_size data) in
    data_size ← broadcast lm MPI_UNSIGNED data_size root_id;
    let data_c := vec_resize 0 [] data_size in
    let orig := data in
    let data_c :=
      if processor_id lm =? root_id then
        for_loop (length data) 0
          (fun i data_c => vec_set data_c i (Z_of_char (vec_get zero data i)))
          data_c
      else data_c in
    data_c ← broadcast_vector lm MPI_CHAR data_c root_id;
    let data :=
      for_loop (length data_c) 0
        (fun i data => data ++ [char_of_Z (vec_get 0 data_c i)]) [] in
    _ ← (if processor_id lm =? root_id
         then libmesh_assert lm (string_eqb data orig) else mret tt);
    mret data.

End Parallel.

(** ** parallel_only

    The macro [parallel_only()] of a debug build and of a build with
    [NDEBUG], written in file [file] at line [line] ([__FILE__] and
    [__LINE__], an [int]). *)

Definition parallel_only (lm : libMesh) (file : list ascii) (line : Z)
  : Par unit :=
  if NDEBUG lm then mret tt
  else
    verified ← Parallel.verify_string lm file;
    _ ← libmesh_assert lm verified;
    verified ← Parallel.verify lm MPI_INT line;
    libmesh_assert lm verified.

(** ** The fallback without a transport ([#else] branch of [HAVE_MPI])

    The functions are templates over the payload; reference parameters come
    back as results. *)

Module ParallelNoMPI.

Definition request : Type := Z.

Inductive Status : Type := mkStatus.

Definition source (s : Status) : Z := 0.

Definition verify {T} (r : T) : Par bool := mret true.

Definition min {T} (r : T) : Par T := mret r.
Definition min_vector {T} (r : list T) : Par (list T) := mret r.
Definition max {T} (r : T) : Par T := mret r.
Definition max_vector {T} (r : list T) : Par (list T) := mret r.
Definition sum {T} (r : T) : Par T := mret r.
Definition sum_vector {T} (r : list T) : Par (list T) := mret r.

(* Blocking sends don't make sense on one processor *)
Definition send {T} (dest_processor_id : Z) (buf : list T) (tag : Z)
  : Par (list T) :=
  libmesh_error.

Definition isend {T} (dest_processor_id : Z) (buf : list T) (r : request)
    (tag : Z)
  : Par (list T * request) :=
  mret (buf, r).

(* Blocking receives don't make sense on one processor *)
Definition recv {T} (src_processor_id : Z) (buf : list T) (tag : Z)
  : Par (list T * Status) :=
  _ ← (libmesh_error : Par unit);
  mret (buf, mkStatus).

Definition irecv {T} (src_processor_id : Z) (buf : list T) (r : request)
    (tag : Z)
  : Par (list T * request) :=
  mret (buf, r).

Definition wait (r : request) : Par request := mret r.

Definition wait_vector (r : list request) : Par (list request) := mret r.

Definition send_receive {T} (lm : libMesh) (send_tgt : Z) (send : T)
    (recv_source : Z) (recv : T)
  : Par T :=
  _ ← libmesh_assert lm (send_tgt =? recv_source);
  mret send.

Definition gather {T} (lm : libMesh) (d : T) (root_id : Z) (send : T)
    (recv : list T)
  : Par (list T) :=
  _ ← libmesh_assert lm (root_id =? 0);
  let recv := vec_resize d recv 1 in
  mret (vec_set recv 0 send).

Definition gather_vector {T} (root_id : Z) (r : list T) : Par (list T) :=
  mret r.

Definition allgather {T} (d : T) (send : T) (recv : list T) : Par (list T) :=
  let recv := vec_resize d recv 1 in
  mret (vec_set recv 0 send).

Definition allgather_vector {T} (r : list T) : Par (list T) := mret r.

Definition alltoall {T} (r : list T) : Par (list T) := mret r.

Definition broadcast {T} (data : T) (root_id : Z) : Par T := mret data.

Definition broadcast_vector {T} (data : list T) (root_id : Z)
  : Par (list T) :=
  mret data.

End ParallelNoMPI.

(** ** One process against an arbitrary transport

    [transport_calls answer p] counts the calls [p] makes when the
    transport answers with [answer]; [outcome answer p] is what [p] returns,
    or [None] when the process aborts. *)

Fixpoint transport_calls {A} (answer : MPI_call -> MPI_reply) (p : Par A)
  : nat :=
  match p with
  | Ret _ => 0
  | Halt => 0
  | Transport c k => S (transport_calls answer (k (answer c)))
  end.

Fixpoint outcome {A} (answer : MPI_call -> MPI_reply) (p : Par A)
  : option A :=
  match p with
  | Ret a => Some a
  | Halt => None
  | Transport c k => outcome answer (k (answer c))
  end.

(** ** A world of processes

    The transport itself is outside the header.  Its collectives are
    modelled after the MPI standard: the calls of all ranks, in rank order,
    give the replies of all ranks; a set of calls the standard calls
    erroneous (mismatched primitives, counts, types or roots, a buffer too
    short for its count) has no reply. *)

#[global] Instance data_type_eq_dec : EqDecision data_type.
Proof. solve_decision. Defined.

#[global] Instance MPI_Op_eq_dec : EqDecision MPI_Op.
Proof. solve_decision. Defined.

(** Width in bits and signedness of the scalar behind a type tag (LP64). *)
Definition data_type_bits (T : data_type) : Z :=
  match T with
  | MPI_CHAR | MPI_UNSIGNED_CHAR => 8
  | MPI_SHORT | MPI_UNSIGNED_SHORT => 16
  | MPI_INT | MPI_UNSIGNED => 32
  | MPI_LONG | MPI_UNSIGNED_LONG => 64
  end.

Definition data_type_signed (T : data_type) : bool :=
  match T with
  | MPI_CHAR | MPI_SHORT | MPI_INT | MPI_LONG => true
  | _ => false
  end.

Definition wrap (T : data_type) (z : Z) : Z :=
  let m := 2 ^ data_type_bits T in
  if data_type_signed T then (z + m / 2) mod m - m / 2 else z mod m.

Definition reduce_op (T : data_type) (op : MPI_Op) (a b : Z) : Z :=
  match op with
  | MPI_MIN => Z.min a b
  | MPI_MAX => Z.max a b
  | MPI_SUM => wrap T (a + b)
  | MPI_BAND => Z.land a b
  | MPI_BOR => Z.lor a b
  end.

(** Element-wise reduction of the buffers of all ranks, in rank order. *)
Definition reduce (f : Z -> Z -> Z) (bufs : list (list Z)) : list Z :=
  match bufs with
  | [] => []
  | b :: bufs => foldl (zip_with f) b bufs
  end.

(** The first [count] elements of a buffer. *)
Definition message (buf : list Z) (count : Z) : list Z :=
  take (Z.to_nat count) buf.

(** [buf] with [block] written at offset [pos]. *)
Definition write_block (buf : list Z) (pos : Z) (block : list Z) : list Z :=
  take (Z.to_nat pos) buf ++ block
  ++ drop (Z.to_nat pos + length block) buf.

Definition ok (recvd : list Z) : MPI_reply :=
  {| ierr := MPI_SUCCESS; recvd := recvd |}.

Definition fits (count : Z) (buf : list Z) : Prop :=
  0 <= count <= vec_size buf.

#[global] Instance fits_dec count buf : Decision (fits count buf).
Proof. unfold fits. apply _. Defined.

Definition as_Allreduce (c : MPI_call)
  : option (list Z * Z * data_type * MPI_Op) :=
  match c with
  | MPI_Allreduce sendbuf count T op => Some (sendbuf, count, T, op)
  | _ => None
  end.

Definition world_Allreduce (calls : list MPI_call)
  : option (list MPI_reply) :=
  args ← mapM as_Allreduce calls;
  match args with
  | [] => None
  | (_, count, T, op) :: _ =>
      if bool_decide
           (Forall (fun '(sendbuf, count', T', op') =>
                      count' = count /\ T' = T /\ op' = op
                      /\ fits count sendbuf) args)
      then
        let result :=
          reduce (reduce_op T op)
            ((fun '(sendbuf, _, _, _) => message sendbuf count) <$> args) in
        Some ((fun _ => ok result) <$> args)
      else None
  end.

Definition as_Bcast (c : MPI_call) : option (list Z * Z * data_type * Z) :=
  match c with
  | MPI_Bcast buffer count T root => Some (buffer, count, T, root)
  | _ => None
  end.

Definition world_Bcast (calls : list MPI_call) : option (list MPI_reply) :=
  args ← mapM as_Bcast calls;
  match args with
  | [] => None
  | (_, count, T, root) :: _ =>
      '(rootbuf, _, _, _) ← args !! Z.to_nat root;
      if bool_decide
           (0 <= root
            /\ Forall (fun '(buffer, count', T', root') =>
                         count' = count /\ T' = T /\ root' = root
                         /\ fits count buffer) args)
      then
        Some ((fun '(buffer, _, _, _) =>
                 ok (message rootbuf count ++ drop (Z.to_nat count) buffer))
              <$> args)
      else None
  end.

Definition as_Gather (c : MPI_call)
  : option (list Z * Z * data_type * list Z * Z * data_type * Z) :=
  match c with
  | MPI_Gather sendbuf sendcount sendtype recvbuf recvcount recvtype root =>
      Some (sendbuf, sendcount, sendtype, recvbuf, recvcount, recvtype, root)
  | _ => None
  end.

Definition world_Gather (calls : list MPI_call) : option (list MPI_reply) :=
  args ← mapM as_Gather calls;
  match args with
  | [] => None
  | (_, _, T, _, _, _, root) :: _ =>
      '(_, _, _, rootbuf, count, recvtype, _) ← args !! Z.to_nat root;
      if bool_decide
           (0 <= root /\ recvtype = T
            /\ fits (count * Z.of_nat (length args)) rootbuf
            /\ Forall (fun '(sendbuf, sendcount, T', _, _, _, root') =>
                         sendcount = count /\ T' = T /\ root' = root
                         /\ fits count sendbuf) args)
      then
        let gathered :=
          concat ((fun '(sendbuf, _, _, _, _, _, _) => message sendbuf count)
                  <$> args) in
        Some (imap (fun i '(_, _, _, recvbuf, _, _, _) =>
                      ok (if bool_decide (i = Z.to_nat root)
                          then write_block recvbuf 0 gathered
                          else recvbuf)) args)
      else None
  end.

Definition as_Allgather (c : MPI_call)
  : option (list Z * Z * data_type * list Z * Z * data_type) :=
  match c with
  | MPI_Allgather sendbuf sendcount sendtype recvbuf recvcount recvtype =>
      Some (sendbuf, sendcount, sendtype, recvbuf, recvcount, recvtype)
  | _ => None
  end.

Definition world_Allgather (calls : list MPI_call)
  : option (list MPI_reply) :=
  args ← mapM as_Allgather calls;
  match args with
  | [] => None
  | (_, count, T, _, _, _) :: _ =>
      if bool_decide
           (Forall (fun '(sendbuf, sendcount, T', recvbuf, recvcount, T'') =>
                      sendcount = count /\ recvcount = count
                      /\ T' = T /\ T'' = T /\ fits count sendbuf
                      /\ fits (count * Z.of_nat (length args)) recvbuf) args)
      then
        let gathered :=
          concat ((fun '(sendbuf, _, _, _, _, _) => message sendbuf count)
                  <$> args) in
        Some ((fun '(_, _, _, recvbuf, _, _) =>
                 ok (write_block recvbuf 0 gathered)) <$> args)
      else None
  end.

Definition as_Alltoall (c : MPI_call)
  : option (list Z * Z * data_type * list Z * Z * data_type) :=
  match c with
  | MPI_Alltoall sendbuf sendcount sendtype recvbuf recvcount recvtype =>
      Some (sendbuf, sendcount, sendtype, recvbuf, recvcount, recvtype)
  | _ => None
  end.

(** The block a rank sends to rank [i]. *)
Definition block (count : Z) (i : nat) (buf : list Z) : list Z :=
  take (Z.to_nat count) (drop (i * Z.to_nat count) buf).

Definition world_Alltoall (calls : list MPI_call)
  : option (list MPI_reply) :=
  args ← mapM as_Alltoall calls;
  match args with
  | [] => None
  | (_, count, T, _, _, _) :: _ =>
      if bool_decide
           (Forall (fun '(sendbuf, sendcount, T', recvbuf, recvcount, T'') =>
                      sendcount = count /\ recvcount = count
                      /\ T' = T /\ T'' = T
                      /\ fits (count * Z.of_nat (length args)) sendbuf
                      /\ fits (count * Z.of_nat (length args)) recvbuf) args)
      then
        Some (imap (fun i '(_, _, _, recvbuf, _, _) =>
                      ok (write_block recvbuf 0
                            (concat ((fun '(sendbuf, _, _, _, _, _) =>
                                        block count i sendbuf) <$> args))))
                args)
      else None
  end.

Definition as_Gatherv (c : MPI_call)
  : option (list Z * Z * data_type * list Z * list Z * list Z * data_type
            * Z) :=
  match c with
  | MPI_Gatherv sendbuf sendcount sendtype recvbuf recvcounts displs
      recvtype root =>
      Some (sendbuf, sendcount, sendtype, recvbuf, recvcounts, displs,
            recvtype, root)
  | _ => None
  end.

(** The messages of all ranks, each written at its displacement. *)
Fixpoint place_blocks (buf : list Z) (displs : list Z) (msgs : list (list Z))
  : list Z :=
  match msgs, displs with
  | msg :: msgs, d :: displs => place_blocks (write_block buf d msg) displs msgs
  | _, _ => buf
  end.

(** What the receiving side of a varying-size gather requires of the
    senders [sends] (buffer and count of each rank). *)
Definition receives (recvbuf recvcounts displs : list Z)
    (sends : list (list Z * Z)) : Prop :=
  (length sends <= length recvcounts)%nat
  /\ (length sends <= length displs)%nat
  /\ Forall (fun '((sendbuf, sendcount), (recvcount, displ)) =>
               sendcount = recvcount /\ fits sendcount sendbuf
               /\ 0 <= displ /\ displ + recvcount <= vec_size recvbuf)
       (zip sends (zip recvcounts displs)).

#[global] Instance receives_dec recvbuf recvcounts displs sends :
  Decision (receives recvbuf recvcounts displs sends).
Proof. unfold receives. apply _. Defined.

Definition world_Gatherv (calls : list MPI_call) : option (list MPI_reply) :=
  args ← mapM as_Gatherv calls;
  match args with
  | [] => None
  | (_, _, T, _, _, _, _, root) :: _ =>
      '(_, _, _, rootbuf, recvcounts, displs, recvtype, _)
        ← args !! Z.to_nat root;
      let sends :=
        (fun '(sendbuf, sendcount, _, _, _, _, _, _) => (sendbuf, sendcount))
        <$> args in
      if bool_decide
           (0 <= root /\ recvtype = T
            /\ receives rootbuf recvcounts displs sends
            /\ Forall (fun '(_, _, T', _, _, _, _, root') =>
                         T' = T /\ root' = root) args)
      then
        let msgs := (fun '(sendbuf, sendcount) => message sendbuf sendcount)
                    <$> sends in
        Some (imap (fun i '(_, _, _, recvbuf, _, _, _, _) =>
                      ok (if bool_decide (i = Z.to_nat root)
                          then place_blocks recvbuf displs msgs
                          else recvbuf)) args)
      else None
  end.

Definition as_Allgatherv (c : MPI_call)
  : option (list Z * Z * data_type * list Z * list Z * list Z * data_type) :=
  match c with
  | MPI_Allgatherv sendbuf sendcount sendtype recvbuf recvcounts displs
      recvtype =>
      Some (sendbuf, sendcount, sendtype, recvbuf, recvcounts, displs,
            recvtype)
  | _ => None
  end.

Definition world_Allgatherv (calls : list MPI_call)
  : option (list MPI_reply) :=
  args ← mapM as_Allgatherv calls;
  match args with
  | [] => None
  | (_, _, T, _, _, _, _) :: _ =>
      let sends :=
        (fun '(sendbuf, sendcount, _, _, _, _, _) => (sendbuf, sendcount))
        <$> args in
      if bool_decide
           (Forall (fun '(_, _, T', recvbuf, recvcounts, displs, T'') =>
                      T' = T /\ T'' = T
                      /\ receives recvbuf recvcounts displs sends) args)
      then
        let msgs := (fun '(sendbuf, sendcount) => message sendbuf sendcount)
                    <$> sends in
        Some ((fun '(_, _, _, recvbuf, _, displs, _) =>
                 ok (place_blocks recvbuf displs msgs)) <$> args)
      else None
  end.

Definition as_Sendrecv (c : MPI_call)
  : option (list Z * Z * data_type * Z * list Z * Z * data_type * Z) :=
  match c with
  | MPI_Sendrecv sendbuf sendcount sendtype dest recvbuf recvcount recvtype
      source =>
      Some (sendbuf, sendcount, sendtype, dest, recvbuf, recvcount, recvtype,
            source)
  | _ => None
  end.

(** Every rank is in one paired exchange: what rank [i] receives is what
    its source sends, and its source sends to [i]. *)
Definition world_Sendrecv (calls : list MPI_call)
  : option (list MPI_reply) :=
  args ← mapM as_Sendrecv calls;
  mapM (fun '(i, (_, _, _, dest, recvbuf, recvcount, recvtype, source)) =>
          '(sendbuf, sendcount, sendtype, dest', _, _, _, _)
            ← args !! Z.to_nat source;
          '(_, _, _, _, _, _, _, source') ← args !! Z.to_nat dest;
          if bool_decide
               (0 <= source /\ 0 <= dest
                /\ dest' = Z.of_nat i /\ source' = Z.of_nat i
                /\ sendtype = recvtype /\ fits sendcount sendbuf
                /\ sendcount <= recvcount /\ fits recvcount recvbuf)
          then Some (ok (write_block recvbuf 0 (message sendbuf sendcount)))
          else None)
    (imap pair args).

Definition collective (calls : list MPI_call) : option (list MPI_reply) :=
  match calls with
  | [] => None
  | MPI_Allreduce _ _ _ _ :: _ => world_Allreduce calls
  | MPI_Sendrecv _ _ _ _ _ _ _ _ :: _ => world_Sendrecv calls
  | MPI_Gather _ _ _ _ _ _ _ :: _ => world_Gather calls
  | MPI_Gatherv _ _ _ _ _ _ _ _ :: _ => world_Gatherv calls
  | MPI_Allgather _ _ _ _ _ _ :: _ => world_Allgather calls
  | MPI_Allgatherv _ _ _ _ _ _ _ :: _ => world_Allgatherv calls
  | MPI_Alltoall _ _ _ _ _ _ :: _ => world_Alltoall calls
  | MPI_Bcast _ _ _ _ :: _ => world_Bcast calls
  end.

(** Lock-step execution: either every process has returned, or every
    process is at a call and the transport answers all of them at once.  A
    process that aborts takes the computation down. *)

Definition returned {A} (p : Par A) : option A :=
  match p with
  | Ret a => Some a
  | _ => None
  end.

Definition calling {A} (p : Par A)
  : option (MPI_call * (MPI_reply -> Par A)) :=
  match p with
  | Transport c k => Some (c, k)
  | _ => None
  end.

Fixpoint run_from {A} (p : Par A) (others : list (Par A))
  : option (list A) :=
  match p with
  | Ret a =>
      match mapM returned others with
      | Some rs => Some (a :: rs)
      | None => None
      end
  | Halt => None
  | Transport c k =>
      match mapM calling others with
      | Some cks =>
          match collective (c :: cks.*1) with
          | Some (r :: rs) =>
              run_from (k r) (zip_with (fun ck r => ck.2 r) cks rs)
          | _ => None
          end
      | None => None
      end
  end.

Definition run {A} (world : list (Par A)) : option (list A) :=
  match world with
  | [] => None
  | p :: others => run_from p others
  end.

(** The world in which every rank [i] runs [f] on its own input [xs !! i]. *)
Definition spmd {X Y} (ndebug : bool) (f : libMesh -> X -> Par Y)
    (xs : list X) : list (Par Y) :=
  imap (fun i x =>
          f {| n_processors := vec_size xs;
               processor_id := Z.of_nat i;
               NDEBUG := ndebug |} x) xs.

(** ** verify at a floating-point type

    [datatype<T>()] is also defined at [float], [double] and
    [long double].  There [verify], [min] and [max] are the same templates;
    their calls into the transport carry floating-point buffers, and
    [operator==] is the equality of IEEE 754. *)

Module Floating.

Inductive floating_type : Type := MPI_FLOAT | MPI_DOUBLE | MPI_LONG_DOUBLE.

#[global] Instance floating_type_eq_dec : EqDecision floating_type.
Proof. solve_decision. Defined.

(** A floating-point value, and [a == b]. *)
Definition real : Type := SpecFloat.spec_float.


Definition eqb (a b : real) : bool := SpecFloat.SFeqb a b.

(** The value of a variable that has not been assigned yet. *)
Definition uninitialised : real := SpecFloat.S754_zero false.

(** A process that also reduces floating-point buffers: [Allreduce] is
    [MPI_Allreduce] on such a buffer, [Transport_integer] any call of
    [MPI_call]. *)
Inductive FPar (A : Type) : Type :=
| FRet (a : A)
| FHalt
| Allreduce (sendbuf : list real) (count : Z) (T : floating_type)
    (op : MPI_Op) (k : list real -> FPar A)
| Transport_integer (c : MPI_call) (k : MPI_reply -> FPar A).
Arguments FRet {A} a.
Arguments FHalt {A}.
Arguments Allreduce {A} sendbuf count T op k.
Arguments Transport_integer {A} c k.

Fixpoint FPar_bind {A B} (f : A -> FPar B) (m : FPar A) : FPar B :=
  match m with
  | FRet a => f a
  | FHalt => FHalt
  | Allreduce sendbuf count T op k =>
      Allreduce sendbuf count T op (fun r => FPar_bind f (k r))
  | Transport_integer c k =>
      Transport_integer c (fun r => FPar_bind f (k r))
  end.

#[global] Instance FPar_mret : MRet FPar := @FRet.
#[global] Instance FPar_mbind : MBind FPar := @FPar_bind.

(** A process that only makes calls of [MPI_call], as it is. *)
Fixpoint lift {A} (p : Par A) : FPar A :=
  match p with
  | Ret a => FRet a
  | Halt => FHalt
  | Transport c k => Transport_integer c (fun r => lift (k r))
  end.

Definition min (lm : libMesh) (T : floating_type) (r : real) : FPar real :=
  if n_processors lm >? 1 then
    temp ← Allreduce [r] 1 T MPI_MIN FRet;
    mret (nth 0 temp uninitialised)
  else mret r.

Definition max (lm : libMesh) (T : floating_type) (r : real) : FPar real :=
  if n_processors lm >? 1 then
    temp ← Allreduce [r] 1 T MPI_MAX FRet;
    mret (nth 0 temp uninitialised)
  else mret r.

Definition verify (lm : libMesh) (T : floating_type) (r : real)
  : FPar bool :=
  if n_processors lm >? 1 then
    tempmin ← min lm T r;
    tempmax ← max lm T r;
    let verified := eqb r tempmin && eqb r tempmax in
    lift (Parallel.min_bool lm verified)
  else mret true.

(** Lock-step execution, as [run].  What [MPI_MIN] and [MPI_MAX] make of
    floating-point operands (of a NaN, of zeros of either sign) is the
    transport's business: [reduce op xs] stands for its result on the
    values [xs] of all ranks, in rank order. *)
Section Run.
Variable reduce : MPI_Op -> list real -> real.

Definition returned {A} (p : FPar A) : option A :=
  match p with
  | FRet a => Some a
  | _ => None
  end.

Definition reducing {A} (p : FPar A)
  : option (list real * Z * floating_type * MPI_Op
            * (list real -> FPar A)) :=
  match p with
  | Allreduce sendbuf count T op k => Some (sendbuf, count, T, op, k)
  | _ => None
  end.

Definition calling {A} (p : FPar A)
  : option (MPI_call * (MPI_reply -> FPar A)) :=
  match p with
  | Transport_integer c k => Some (c, k)
  | _ => None
  end.

Fixpoint run_from {A} (p : FPar A) (others : list (FPar A))
  : option (list A) :=
  match p with
  | FRet a =>
      match mapM returned others with
      | Some rs => Some (a :: rs)
      | None => None
      end
  | FHalt => None
  | Allreduce sendbuf count T op k =>
      match mapM reducing others with
      | Some calls =>
          if bool_decide
               (0 <= count <= vec_size sendbuf
                /\ Forall (fun '(sendbuf', count', T', op', _) =>
                             count' = count /\ T' = T /\ op' = op
                             /\ count <= vec_size sendbuf') calls)
          then
            let bufs := sendbuf :: ((fun c => c.1.1.1.1) <$> calls) in
            let recvbuf :=
              (fun j => reduce op ((fun b => nth j b uninitialised) <$> bufs))
              <$> seq 0 (Z.to_nat count) in
            run_from (k recvbuf) ((fun c => c.2 recvbuf) <$> calls)
          else None
      | None => None
      end
  | Transport_integer c k =>
      match mapM calling others with
      | Some cks =>
          match collective (c :: cks.*1) with
          | Some (r :: rs) =>
              run_from (k r) (zip_with (fun ck r => ck.2 r) cks rs)
          | _ => None
          end
      | None => None
      end
  end.

Definition run {A} (world : list (FPar A)) : option (list A) :=
  match world with
  | [] => None
  | p :: others => run_from p others
  end.

End Run.

Definition spmd {X Y} (ndebug : bool) (f : libMesh -> X -> FPar Y)
    (xs : list X) : list (FPar Y) :=
  imap (fun i x =>
          f {| n_processors := vec_size xs;
               processor_id := Z.of_nat i;
               NDEBUG := ndebug |} x) xs.

End Floating.

(** ** Notions used by the statements *)

(** Number of words for [n] bits: the least [w] with [n <= 32 w]. *)
Definition words_for (n : Z) : Z :=
  n / 32 + (if n mod 32 =? 0 then 0 else 1).

(** After [i] rounds of the packing loop: bit [k] of word [j] is input bit
    [32 j + k] when that position was visited, and is clear otherwise. *)
Definition packed (in_ : list bool) (i : Z) (out : list Z) : Prop :=
  (forall j, 0 <= j -> 0 <= vec_get 0 out j)
  /\ forall j k, 0 <= j -> 0 <= k ->
       Z.testbit (vec_get 0 out j) k
       = (k <? 32) && (32 * j + k <? i) && vec_get false in_ (32 * j + k).

(** Element [i] of every sequence, in rank order. *)
Definition column (rs : list (list bool)) (i : nat) : list bool :=
  (fun r => nth i r false) <$> rs.

(** Minimum and maximum of booleans, [false < true]. *)
Definition bool_min (bs : list bool) : bool := forallb id bs.
Definition bool_max (bs : list bool) : bool := existsb id bs.

(** The sequence of length [len] whose element [i] is [f] of column [i]. *)
Definition elementwise (f : list bool -> bool) (rs : list (list bool))
    (len : nat) : list bool :=
  (fun i => f (column rs i)) <$> seq 0 len.

(** Reduction of the scalars of all ranks. *)
Definition fold1 (f : Z -> Z -> Z) (xs : list Z) : Z :=
  match xs with
  | [] => 0
  | x :: xs => foldl f x xs
  end.

(** The same value on every rank. *)
Definition identical {A} (xs : list A) : Prop :=
  forall i j x y, xs !! i = Some x -> xs !! j = Some y -> x = y.

(** [p] returns [a] and never calls the transport, whatever the transport
    would answer. *)
Definition returns_without_transport {A} (p : Par A) (a : A) : Prop :=
  forall answer, transport_calls answer p = 0%nat /\ outcome answer p = Some a.

(** [p] aborts before any call into the transport. *)
Definition aborts_without_transport {A} (p : Par A) : Prop :=
  forall answer, transport_calls answer p = 0%nat /\ outcome answer p = None.

(** The reading under which every block stays where it was. *)
Definition blocks_kept (K : Z) (bufs outs : list (list Z)) : Prop :=
  forall i j buf out,
    bufs !! i = Some buf -> outs !! i = Some out ->
    (j < length bufs)%nat ->
    block K j out = block K j buf.

(** Block [j] of the new buffer of rank [i] is block [i] of the old buffer
    of rank [j]. *)
Definition blocks_transposed (K : Z) (bufs outs : list (list Z)) : Prop :=
  forall i j buf out,
    bufs !! j = Some buf -> outs !! i = Some out ->
    block K j out = block K i buf.

(** ** Phases of the multi-phase functions

    The text of [broadcast<std::string>] and of the variable-length
    [gather] between two calls into the transport, named so that a run can
    be followed call by call; [broadcast_string_unfold] and
    [gather_vector_unfold] show that the functions are these phases in
    sequence. *)

(** What [broadcast<std::string>] puts in [data_c] before it broadcasts the
    bytes, given the length it received. *)
Definition broadcast_string_bytes (lm : libMesh) (data : list ascii)
    (root_id data_size : Z) : list Z :=
  let data_c := vec_resize 0 [] data_size in
  if processor_id lm =? root_id then
    for_loop (length data) 0
      (fun i data_c =>
         vec_set data_c i (Parallel.Z_of_char (vec_get zero data i)))
      data_c
  else data_c.

(** The end of [broadcast<std::string>], given the bytes it received. *)
Definition broadcast_string_finish (lm : libMesh) (orig : list ascii)
    (root_id : Z) (data_c : list Z) : Par (list ascii) :=
  let data :=
    for_loop (length data_c) 0
      (fun i data => data ++ [Parallel.char_of_Z (vec_get 0 data_c i)]) [] in
  _ ← (if processor_id lm =? root_id
       then libmesh_assert lm (Parallel.string_eqb data orig) else mret tt);
  mret data.

(** Offsets of consecutive blocks of the given lengths, from [start]. *)
Fixpoint prefix_sums (start : Z) (ls : list Z) : list Z :=
  match ls with
  | [] => []
  | l :: ls => start :: prefix_sums (start + l) ls
  end.

Definition sumZ (ls : list Z) : Z := foldr Z.add 0 ls.

(** [gather] of a vector after the lengths have been exchanged. *)
Definition gather_vector_rest (lm : libMesh) (T : data_type) (root_id : Z)
    (r : list Z) (sendlengths : list Z) : Par (list Z) :=
  let '(displacements, globalsize) :=
    Parallel.displacements_loop lm sendlengths
      (replicate (Z.to_nat (n_processors lm)) 0) in
  if globalsize =? 0 then mret r
  else
    let r' :=
      if root_id =? processor_id lm
      then vec_resize 0 r globalsize else r in
    reply ← transport
              (MPI_Gatherv r (to_int (vec_size r)) T r' sendlengths
                 displacements T (to_int root_id));
    _ ← libmesh_assert lm (ierr reply =? MPI_SUCCESS);
    mret (recvd reply).

(** [allgather] of a vector after the lengths have been exchanged. *)
Definition allgather_vector_rest (lm : libMesh) (T : data_type)
    (r : list Z) (sendlengths : list Z) : Par (list Z) :=
  let '(displacements, globalsize) :=
    Parallel.displacements_loop lm sendlengths
      (replicate (Z.to_nat (n_processors lm)) 0) in
  if globalsize =? 0 then mret r
  else
    reply ← transport
              (MPI_Allgatherv r (to_int (vec_size r)) T
                 (vec_resize 0 r globalsize) sendlengths displacements T);
    _ ← libmesh_assert lm (ierr reply =? MPI_SUCCESS);
    mret (recvd reply).

(** [send_receive] of a vector of vectors between its three exchanges, the
    last phase first: once the concatenated payload has arrived, *)
Definition send_receive_vector_vector_finish (lm : libMesh)
    (recv : list (list Z)) (recvsize : Z) (recvsizes recvdata : list Z)
  : Par (list (list Z)) :=
  let '(recv, in_) :=
    for_loop (Z.to_nat recvsize) 0
      (fun i '(recv, in_) =>
         (vec_set recv i
            (Parallel.copy_to
               (take (Z.to_nat (vec_get 0 recvsizes i))
                  (drop (Z.to_nat in_) recvdata))
               (vec_get [] recv i) 0),
          in_ + vec_get 0 recvsizes i))
      (recv, 0) in
  _ ← libmesh_assert lm (in_ =? vec_size recvdata);
  mret recv.

(** the rows of [recv] resized to the sizes received, *)
Definition rows_resized (recvsizes : list Z) (recvsize : Z)
    (recv : list (list Z)) : Z * list (list Z) :=
  for_loop (Z.to_nat recvsize) 0
    (fun i '(recvsizesum, recv) =>
       (to_unsigned_int (recvsizesum + vec_get 0 recvsizes i),
        vec_set recv i
          (vec_resize 0 (vec_get [] recv i) (vec_get 0 recvsizes i))))
    (0, recv).

(** after the inner sizes have arrived, *)
Definition send_receive_vector_vector_data (lm : libMesh) (T : data_type)
    (dest_processor_id : Z) (send : list (list Z)) (source_processor_id : Z)
    (recv : list (list Z)) (sendsize recvsize sendsizesum : Z)
    (recvsizes : list Z)
  : Par (list (list Z)) :=
  let '(recvsizesum, recv) := rows_resized recvsizes recvsize recv in
  let senddata := vec_resize 0 [] sendsizesum in
  let recvdata := vec_resize 0 [] recvsizesum in
  let '(senddata, out) :=
    for_loop (Z.to_nat sendsize) 0
      (fun i '(senddata, out) =>
         (Parallel.copy_to (vec_get [] send i) senddata out,
          out + vec_size (vec_get [] send i)))
      (senddata, 0) in
  _ ← libmesh_assert lm (out =? vec_size senddata);
  reply ← transport
            (MPI_Sendrecv senddata (to_int sendsizesum) T
               (to_int dest_processor_id)
               recvdata (to_int recvsizesum) T
               (to_int source_processor_id));
  send_receive_vector_vector_finish lm recv recvsize recvsizes (recvd reply).

(** and after the outer size has arrived. *)
Definition send_receive_vector_vector_sizes (lm : libMesh) (T : data_type)
    (dest_processor_id : Z) (send : list (list Z)) (source_processor_id : Z)
    (recv : list (list Z)) (recvsize : Z)
  : Par (list (list Z)) :=
  let sendsize := to_unsigned_int (vec_size send) in
  let recv := vec_resize [] recv recvsize in
  let sendsizes := vec_resize 0 [] sendsize in
  let recvsizes := vec_resize 0 [] recvsize in
  let '(sendsizes, sendsizesum) :=
    for_loop (Z.to_nat sendsize) 0
      (fun i '(sendsizes, sendsizesum) =>
         let sendsizes :=
           vec_set sendsizes i
             (to_unsigned_int (vec_size (vec_get [] send i))) in
         (sendsizes,
          to_unsigned_int (sendsizesum + vec_get 0 sendsizes i)))
      (sendsizes, 0) in
  reply ← transport
            (MPI_Sendrecv sendsizes (to_int sendsize) MPI_UNSIGNED
               (to_int dest_processor_id)
               recvsizes (to_int recvsize) MPI_UNSIGNED
               (to_int source_processor_id));
  send_receive_vector_vector_data lm T dest_processor_id send
    source_processor_id recv sendsize recvsize sendsizesum (recvd reply).

(** ** Reductions and exchanges, rank by rank *)



(** Every rank sends to a rank other than itself, which receives from it,
    and receives from a rank that sends to it. *)
Definition paired {A} (xs : list (nat * nat * A * A)) : bool :=
  forallb (fun '(i, (d, s, _, _)) =>
             negb (d =? i)%nat
             && bool_decide ((fun y => y.1.1.1) <$> xs !! s = Some i)
             && bool_decide ((fun z => z.1.1.2) <$> xs !! d = Some i))
    (imap pair xs).

(** What each rank holds after the exchange: the payload of its source. *)
Definition exchanged {A} (xs : list (nat * nat * A * A)) : list A :=
  (fun '(_, s, _, recv) => from_option (fun y => y.1.2) recv (xs !! s))
  <$> xs.

(** * Proofs *)

(** ** Loops and vectors *)

Lemma for_loop_invariant {St} (P : Z -> St -> Prop) body n i0 s :
  P i0 s ->
  (forall i s, i0 <= i < i0 + Z.of_nat n -> P i s -> P (i + 1) (body i s)) ->
  P (i0 + Z.of_nat n) (@for_loop St n i0 body s).
Proof.
  revert i0 s. induction n as [|n IH]; intros i0 s H0 Hstep; simpl for_loop.
  - replace (i0 + Z.of_nat 0) with i0 by lia. exact H0.
  - replace (i0 + Z.of_nat (S n)) with ((i0 + 1) + Z.of_nat n) by lia.
    apply IH.
    + apply Hstep; [lia | exact H0].
    + intros i s' Hi. apply Hstep. lia.
Qed.

Lemma vec_get_lookup {A} (d : A) v i :
  vec_get d v i = default d (v !! Z.to_nat i).
Proof. apply nth_lookup. Qed.

Lemma length_vec_set {A} (v : list A) i x :
  length (vec_set v i x) = length v.
Proof. apply length_insert. Qed.

Lemma vec_size_vec_set {A} (v : list A) i x :
  vec_size (vec_set v i x) = vec_size v.
Proof. unfold vec_size. by rewrite length_vec_set. Qed.

Lemma vec_get_set_eq {A} (d : A) v i x :
  0 <= i < vec_size v -> vec_get d (vec_set v i x) i = x.
Proof.
  unfold vec_size. intros Hi. rewrite vec_get_lookup. unfold vec_set.
  rewrite list_lookup_insert_eq by lia. done.
Qed.

Lemma vec_get_set_ne {A} (d : A) v i j x :
  0 <= i -> 0 <= j -> i <> j -> vec_get d (vec_set v i x) j = vec_get d v j.
Proof.
  intros Hi Hj Hne. rewrite !vec_get_lookup. unfold vec_set.
  rewrite list_lookup_insert_ne by lia. done.
Qed.

Lemma vec_get_ge {A} (d : A) v i : vec_size v <= i -> vec_get d v i = d.
Proof.
  unfold vec_size. intros Hi. rewrite vec_get_lookup.
  rewrite lookup_ge_None_2 by lia. done.
Qed.

Lemma vec_size_resize {A} (d : A) v n :
  0 <= n -> vec_size (vec_resize d v n) = n.
Proof. intros Hn. unfold vec_size, vec_resize. rewrite length_resize. lia. Qed.

Lemma for_loop_invariant0 {St} (P : Z -> St -> Prop) body n s :
  P 0 s ->
  (forall i s, 0 <= i < Z.of_nat n -> P i s -> P (i + 1) (body i s)) ->
  P (Z.of_nat n) (@for_loop St n 0 body s).
Proof. apply (for_loop_invariant P body n 0 s). Qed.

(** ** Machine integers *)

Lemma to_unsigned_int_small z : 0 <= z < 2 ^ 32 -> to_unsigned_int z = z.
Proof. apply Z.mod_small. Qed.

Lemma to_unsigned_int_to_int z : to_unsigned_int (to_int z) = to_unsigned_int z.
Proof.
  unfold to_unsigned_int, to_int.
  rewrite Zminus_mod, Zmod_mod, <- Zminus_mod. f_equal. lia.
Qed.

Lemma to_int_small z : - 2 ^ 31 <= z < 2 ^ 31 -> to_int z = z.
Proof. intros Hz. unfold to_int. rewrite Z.mod_small; lia. Qed.

Lemma data_bits_eq : Parallel.data_bits = 32.
Proof. reflexivity. Qed.

Lemma to_bool_of_bool b : to_bool (of_bool b) = b.
Proof. by destruct b. Qed.

(** Adding a bit at a position that holds none sets that position. *)
Lemma testbit_add_bit w (b : bool) off k :
  0 <= off -> Z.testbit w off = false ->
  Z.testbit (w + Z.b2z b * 2 ^ off) k
  = Z.testbit w k || (b && (off =? k)).
Proof.
  intros Hoff Hw. destruct b; simpl Z.b2z.
  - rewrite Z.mul_1_l, Z.add_nocarry_lxor.
    + rewrite Z.lxor_spec, Z.pow2_bits_eqb by done.
      destruct (Z.eqb_spec off k) as [->|Hne]; [by rewrite Hw|].
      by rewrite xorb_false_r, orb_false_r.
    + apply Z.bits_inj'. intros n Hn.
      rewrite Z.land_spec, Z.pow2_bits_eqb, Z.bits_0 by done.
      destruct (Z.eqb_spec off n) as [->|Hne]; [by rewrite Hw|].
      apply andb_false_r.
  - rewrite Z.mul_0_l, Z.add_0_r. by rewrite orb_false_r.
Qed.

(** The expression of [unpack_vector_bool] reads one bit of a word. *)
Lemma shift_out_bit w off :
  0 <= off < 32 ->
  shr_unsigned_int (shl_unsigned_int w (31 - off)) 31
  = Z.b2z (Z.testbit w off).
Proof.
  intros Hoff. unfold shr_unsigned_int, shl_unsigned_int, to_unsigned_int.
  apply Z.bits_inj'. intros n Hn.
  rewrite Z.shiftr_spec by done.
  rewrite Z.testbit_mod_pow2 by lia.
  destruct (Z.eq_dec n 0) as [->|Hne].
  - rewrite Z.b2z_bit0. replace (0 + 31 <? 32) with true by lia.
    rewrite andb_true_l, Z.shiftl_spec by lia. f_equal. lia.
  - replace (n + 31 <? 32) with false by lia. rewrite andb_false_l.
    destruct (Z.testbit w off); simpl.
    + symmetry. apply (Z.pow2_bits_false 0). lia.
    + symmetry. apply Z.bits_0.
Qed.

Lemma extracted_bit_testbit in_ i :
  0 <= i ->
  Parallel.extracted_bit in_ i
  = Z.b2z (Z.testbit (vec_get 0 in_ (i / 32)) (i mod 32)).
Proof.
  intros Hi. unfold Parallel.extracted_bit. rewrite data_bits_eq.
  assert (0 <= i mod 32 < 32) by (apply Z.mod_pos_bound; lia).
  rewrite !to_unsigned_int_small by lia.
  replace (32 - 1 - i mod 32) with (31 - i mod 32) by lia.
  by apply shift_out_bit.
Qed.

(** ** [pack_vector_bool] *)

Lemma words_for_bounds n :
  0 <= n -> 0 <= words_for n /\ n <= 32 * words_for n < n + 32.
Proof.
  intros Hn. unfold words_for.
  pose proof (Z.div_mod n 32 ltac:(lia)).
  pose proof (Z.mod_pos_bound n 32 ltac:(lia)).
  destruct (Z.eqb_spec (n mod 32) 0); lia.
Qed.

Lemma packed_lt_pow2 in_ i out j :
  packed in_ i out -> 0 <= j -> 0 <= vec_get 0 out j < 2 ^ 32.
Proof.
  intros [Hpos Hbits] Hj. apply Z.bounded_iff_bits_nonneg'; [lia|by apply Hpos|].
  intros l Hl. rewrite Hbits by lia. replace (l <? 32) with false by lia. done.
Qed.

Lemma vec_get_resize_nil {A} (d : A) n j :
  vec_get d (vec_resize d [] n) j = d.
Proof.
  rewrite vec_get_lookup. unfold vec_resize. rewrite resize_nil.
  destruct (replicate _ _ !! _) eqn:E; [|done].
  apply lookup_replicate in E as [-> _]. done.
Qed.

Lemma pack_step in_ i out :
  0 <= i -> i / 32 < vec_size out -> packed in_ i out ->
  packed in_ (i + 1)
    (vec_set out (i / 32)
       (to_unsigned_int
          (vec_get 0 out (i / 32)
           + to_unsigned_int
               (shl_int (if vec_get false in_ i then 1 else 0) (i mod 32))))).
Proof.
  intros Hi Hlt Hp.
  pose proof (Z.div_mod i 32 ltac:(lia)) as Hdm.
  pose proof (Z.mod_pos_bound i 32 ltac:(lia)) as Hoff.
  assert (0 <= i / 32) as HJ by (apply Z.div_pos; lia).
  set (J := i / 32) in *. set (off := i mod 32) in *.
  set (b := vec_get false in_ i).
  set (w := vec_get 0 out J).
  pose proof (packed_lt_pow2 _ _ _ J Hp HJ) as Hw. fold w in Hw.
  assert (Z.testbit w off = false) as Hclear.
  { unfold w. destruct Hp as [_ Hbits]. rewrite Hbits by lia.
    replace (32 * J + off <? i) with false by lia.
    by rewrite andb_false_r. }
  assert (to_unsigned_int (shl_int (if b then 1 else 0) off)
          = Z.b2z b * 2 ^ off) as ->.
  { unfold shl_int. rewrite to_unsigned_int_to_int.
    replace (if b then 1 else 0) with (Z.b2z b) by by destruct b.
    rewrite Z.shiftl_mul_pow2 by lia. apply to_unsigned_int_small.
    assert (0 < 2 ^ off < 2 ^ 32)
      by (split; [apply Z.pow_pos_nonneg|apply Z.pow_lt_mono_r]; lia).
    destruct b; simpl Z.b2z; lia. }
  assert (forall k, 0 <= k ->
            Z.testbit (to_unsigned_int (w + Z.b2z b * 2 ^ off)) k
            = (k <? 32) && (32 * J + k <? i + 1)
              && vec_get false in_ (32 * J + k)) as Hnew.
  { intros k Hk. unfold to_unsigned_int.
    rewrite Z.testbit_mod_pow2 by lia.
    rewrite testbit_add_bit by (lia || exact Hclear).
    destruct Hp as [_ Hbits]. unfold w. rewrite Hbits by lia.
    destruct (Z.ltb_spec k 32); [|done]. rewrite !andb_true_l.
    destruct (Z.eqb_spec off k) as [<-|Hne].
    - replace (32 * J + off) with i by lia.
      replace (i <? i) with false by lia. replace (i <? i + 1) with true by lia.
      fold b. by destruct b.
    - rewrite andb_false_r, orb_false_r.
      replace (32 * J + k <? i + 1) with (32 * J + k <? i) by lia. done. }
  split.
  - intros j Hj. destruct (Z.eq_dec J j) as [<-|Hne].
    + rewrite vec_get_set_eq by lia. apply Z.mod_pos_bound. lia.
    + rewrite vec_get_set_ne by lia. by apply Hp.
  - intros j k Hj Hk. destruct (Z.eq_dec J j) as [<-|Hne].
    + rewrite vec_get_set_eq by lia. by apply Hnew.
    + rewrite vec_get_set_ne by lia. destruct Hp as [_ Hbits].
      rewrite Hbits by lia.
      destruct (Z.ltb_spec k 32); [|done].
      replace (32 * j + k <? i + 1) with (32 * j + k <? i) by lia. done.
Qed.

Lemma pack_vector_bool_packed in_ :
  vec_size in_ < 2 ^ 32 ->
  vec_size (Parallel.pack_vector_bool in_) = words_for (vec_size in_)
  /\ packed in_ (vec_size in_) (Parallel.pack_vector_bool in_).
Proof.
  intros Hsz. unfold Parallel.pack_vector_bool. rewrite data_bits_eq.
  assert (0 <= vec_size in_) as Hpos by (unfold vec_size; lia).
  rewrite (to_unsigned_int_small (vec_size in_)) by lia.
  fold (words_for (vec_size in_)).
  pose proof (words_for_bounds _ Hpos) as [Hw0 Hw].
  rewrite (to_unsigned_int_small (words_for _)) by lia.
  set (n := words_for (vec_size in_)) in *.
  replace (Z.to_nat (vec_size in_)) with (length in_)
    by (unfold vec_size; lia).
  apply (for_loop_invariant0
           (fun i out => vec_size out = n /\ packed in_ i out)
           _ (length in_)).
  - split; [by apply vec_size_resize|]. split.
    + intros j _. by rewrite vec_get_resize_nil.
    + intros j k Hj Hk. rewrite vec_get_resize_nil, Z.bits_0.
      replace (32 * j + k <? 0) with false by lia. by rewrite andb_false_r.
  - intros i out Hi [Hlen Hp]. split; [by rewrite vec_size_vec_set|].
    apply pack_step; [lia| |done].
    rewrite Hlen. apply Z.div_lt_upper_bound; unfold vec_size in *; lia.
Qed.

(** ** [unpack_vector_bool] *)

Lemma unpack_loop_spec in_ (n : nat) (out : list bool) :
  (n <= length out)%nat ->
  let out' :=
    for_loop n 0
      (fun i out => vec_set out i (to_bool (Parallel.extracted_bit in_ i)))
      out in
  length out' = length out
  /\ (forall j : nat, (j < n)%nat ->
        out' !! j = Some (to_bool (Parallel.extracted_bit in_ (Z.of_nat j))))
  /\ (forall j : nat, (n <= j)%nat -> out' !! j = out !! j).
Proof.
  intros Hn out'. subst out'.
  cut (length (for_loop n 0
         (fun i out => vec_set out i (to_bool (Parallel.extracted_bit in_ i)))
         out) = length out
       /\ (forall j : nat, Z.of_nat j < Z.of_nat n ->
            for_loop n 0
              (fun i out =>
                 vec_set out i (to_bool (Parallel.extracted_bit in_ i)))
              out !! j
            = Some (to_bool (Parallel.extracted_bit in_ (Z.of_nat j))))
       /\ (forall j : nat, Z.of_nat n <= Z.of_nat j ->
            for_loop n 0
              (fun i out =>
                 vec_set out i (to_bool (Parallel.extracted_bit in_ i)))
              out !! j = out !! j)).
  { intros (H1 & H2 & H3). split; [done|]. split; intros j Hj.
    - apply H2. lia.
    - apply H3. lia. }
  apply (for_loop_invariant0
           (fun i out' =>
              length out' = length out
              /\ (forall j : nat, Z.of_nat j < i ->
                    out' !! j
                    = Some (to_bool
                              (Parallel.extracted_bit in_ (Z.of_nat j))))
              /\ (forall j : nat, i <= Z.of_nat j -> out' !! j = out !! j))).
  - split; [done|]. split; intros j Hj; [lia|done].
  - intros i s Hi (Hlen & Hdone & Hrest). unfold vec_set.
    split; [by rewrite length_insert|]. split; intros j Hj.
    + destruct (decide (Z.to_nat i = j)) as [<-|Hne].
      * rewrite list_lookup_insert_eq by lia. by rewrite Z2Nat.id by lia.
      * rewrite list_lookup_insert_ne by done. apply Hdone. lia.
    + rewrite list_lookup_insert_ne by lia. apply Hrest. lia.
Qed.

Lemma unpack_loop_length in_ (n : nat) (out : list bool) :
  length (for_loop n 0
            (fun i out =>
               vec_set out i (to_bool (Parallel.extracted_bit in_ i)))
            out) = length out.
Proof.
  apply (for_loop_invariant0 (fun _ out' => length out' = length out)).
  - done.
  - intros i s _ Hs. by rewrite length_vec_set.
Qed.

Lemma extracted_bit_packed in_ i out j :
  packed in_ i out -> 0 <= j < i ->
  to_bool (Parallel.extracted_bit out j) = vec_get false in_ j.
Proof.
  intros [_ Hbits] Hj. rewrite extracted_bit_testbit by lia.
  pose proof (Z.div_mod j 32 ltac:(lia)).
  pose proof (Z.mod_pos_bound j 32 ltac:(lia)).
  assert (0 <= j / 32) by (apply Z.div_pos; lia).
  rewrite Hbits by lia.
  replace (32 * (j / 32) + j mod 32) with j by lia.
  replace (j mod 32 <? 32) with true by lia.
  replace (j <? i) with true by lia.
  by destruct (vec_get false in_ j).
Qed.

Lemma extracted_bit_0_or_1 in_ i :
  0 <= i ->
  Parallel.extracted_bit in_ i = 0 \/ Parallel.extracted_bit in_ i = 1.
Proof.
  intros Hi. rewrite extracted_bit_testbit by done.
  destruct (Z.testbit _ _); auto.
Qed.

(** C1.  Packing a boolean sequence with [pack_vector_bool] and unpacking
    the words with [unpack_vector_bool] into a vector of the original length
    gives back the sequence, whatever that vector held and whatever the
    length (0, 1, a multiple of the word width or not), as long as the
    length fits the [unsigned int] both functions count with. *)
Theorem pack_unpack_vector_bool lm (in_ out : list bool) :
  length out = length in_ ->
  vec_size in_ < 2 ^ 32 ->
  Parallel.unpack_vector_bool lm (Parallel.pack_vector_bool in_) out
  = Ret in_.
Proof.
  intros Hlen Hsz.
  destruct (pack_vector_bool_packed in_ Hsz) as [Hwords Hpacked].
  assert (vec_size out = vec_size in_) as Hsize
    by (unfold vec_size; by rewrite Hlen).
  assert (0 <= vec_size in_) as Hpos by (unfold vec_size; lia).
  unfold Parallel.unpack_vector_bool. rewrite data_bits_eq, Hsize.
  rewrite (to_unsigned_int_small (vec_size in_)) by lia.
  fold (words_for (vec_size in_)).
  pose proof (words_for_bounds _ Hpos) as [Hw0 Hw].
  rewrite (to_unsigned_int_small (words_for _)) by lia.
  rewrite Hwords, Z.eqb_refl.
  replace (libmesh_assert lm true) with (Ret tt)
    by (unfold libmesh_assert; by destruct (NDEBUG lm)).
  simpl. f_equal.
  replace (Z.to_nat (vec_size in_)) with (length out)
    by (unfold vec_size; lia).
  destruct (unpack_loop_spec (Parallel.pack_vector_bool in_) (length out) out)
    as (Hl & Hbits & _); [done|].
  apply list_eq_same_length with (length out); [lia|done|].
  intros i x y Hi Hx Hy. rewrite Hbits in Hx by done.
  rewrite (extracted_bit_packed in_ (vec_size in_)) in Hx
    by (done || unfold vec_size; lia).
  rewrite vec_get_lookup, Nat2Z.id, Hy in Hx. simpl in Hx. congruence.
Qed.

Lemma words_for_eq n :
  n / Parallel.data_bits + (if n mod Parallel.data_bits =? 0 then 0 else 1)
  = words_for n.
Proof. reflexivity. Qed.

(** C10.  [unpack_vector_bool] on an output vector whose size fits an
    [unsigned int].  In a debug build it aborts unless the number of input
    words is [words_for] the size of the output (the ceiling of size / 32);
    otherwise it returns a vector of the same length as the one it was
    given, whose entry at every position [i] below that length is the bit
    it extracted for [i], and that bit is 0 or 1. *)
Theorem unpack_vector_bool_presized lm (in_ : list Z) (out : list bool) :
  vec_size out < 2 ^ 32 ->
  if NDEBUG lm || (words_for (vec_size out) =? vec_size in_)
  then
    exists out',
      Parallel.unpack_vector_bool lm in_ out = Ret out'
      /\ length out' = length out
      /\ forall i, 0 <= i < vec_size out ->
           (Parallel.extracted_bit in_ i = 0
            \/ Parallel.extracted_bit in_ i = 1)
           /\ out' !! Z.to_nat i
              = Some (to_bool (Parallel.extracted_bit in_ i))
  else Parallel.unpack_vector_bool lm in_ out = Halt.
Proof.
  intros Hsz.
  assert (0 <= vec_size out) as Hpos by (unfold vec_size; lia).
  unfold Parallel.unpack_vector_bool.
  rewrite (to_unsigned_int_small (vec_size out)) by lia.
  rewrite words_for_eq.
  pose proof (words_for_bounds _ Hpos) as [Hw0 Hw].
  rewrite (to_unsigned_int_small (words_for _)) by lia.
  unfold libmesh_assert.
  destruct (NDEBUG lm); simpl;
    [|destruct (words_for (vec_size out) =? vec_size in_); simpl; [|done]].
  all: eexists; split; [reflexivity|].
  all: replace (Z.to_nat (vec_size out)) with (length out)
         by (unfold vec_size; lia).
  all: destruct (unpack_loop_spec in_ (length out) out) as (Hl & Hbits & _);
         [done|].
  all: split; [done|]; intros i Hi; split;
         [apply extracted_bit_0_or_1; lia|].
  all: rewrite Hbits by (unfold vec_size in Hi; lia).
  all: by rewrite Z2Nat.id by lia.
Qed.

Lemma pack_unpack_vector_bool_witness :
  let lm := {| n_processors := 2; processor_id := 0; NDEBUG := false |} in
  Parallel.unpack_vector_bool lm
    (Parallel.pack_vector_bool [true; false; true]) [false; false; false]
  = Ret [true; false; true].
Proof.
  intros lm.
  apply (pack_unpack_vector_bool lm [true; false; true] [false; false; false]).
  - reflexivity.
  - reflexivity.
Defined.

Lemma unpack_vector_bool_presized_witness :
  let lm := {| n_processors := 2; processor_id := 0; NDEBUG := false |} in
  exists out',
    Parallel.unpack_vector_bool lm [5] [false; false; false] = Ret out'
    /\ length out' = 3%nat
    /\ forall i, 0 <= i < 3 ->
         (Parallel.extracted_bit [5] i = 0 \/ Parallel.extracted_bit [5] i = 1)
         /\ out' !! Z.to_nat i = Some (to_bool (Parallel.extracted_bit [5] i)).
Proof.
  intros lm.
  apply (unpack_vector_bool_presized lm [5] [false; false; false]).
  reflexivity.
Defined.

(** ** Running a world *)

Lemma mapM_imap_Some {X A B} (f : A -> option B) (g : nat -> X -> A)
    (h : nat -> X -> B) (xs : list X) :
  (forall i x, xs !! i = Some x -> f (g i x) = Some (h i x)) ->
  mapM f (imap g xs) = Some (imap h xs).
Proof.
  intros H. apply mapM_Some_2, Forall2_lookup. intros i.
  rewrite !list_lookup_imap. destruct (xs !! i) as [x|] eqn:E; simpl.
  - constructor. by apply H.
  - constructor.
Qed.

Lemma run_returned {A} (world : list (Par A)) vs :
  world <> [] -> mapM returned world = Some vs -> run world = Some vs.
Proof.
  destruct world as [|p others]; [done|]. intros _ H.
  rewrite mapM_Some in H. inversion H as [|? v ? vs' Hp Hothers]; subst.
  destruct p; try done. simpl in Hp. injection Hp as ->.
  apply mapM_Some in Hothers. simpl. by rewrite Hothers.
Qed.

Lemma run_step {A} (world : list (Par A)) cks rs :
  mapM calling world = Some cks ->
  collective (cks.*1) = Some rs ->
  run world = run (zip_with (fun ck r => ck.2 r) cks rs).
Proof.
  intros H Hc. rewrite mapM_Some in H.
  destruct H as [|p [c k] others cks' Hp Hothers]; [done|].
  destruct p; try done. simpl in Hp. injection Hp as -> ->.
  apply mapM_Some in Hothers. rewrite fmap_cons in Hc.
  cbn [run run_from fst snd zip_with] in *. rewrite Hothers, Hc.
  by destruct rs.
Qed.

Lemma run_spmd_step {X A} (g : nat -> X -> Par A) c k r (xs : list X) :
  (forall i x, xs !! i = Some x -> g i x = Transport (c i x) (k i x)) ->
  collective (imap c xs) = Some (imap r xs) ->
  run (imap g xs) = run (imap (fun i x => k i x (r i x)) xs).
Proof.
  intros Hg Hc.
  rewrite (run_step _ (imap (fun i x => (c i x, k i x)) xs) (imap r xs)).
  - f_equal. apply list_eq. intros i.
    rewrite lookup_zip_with, !list_lookup_imap.
    by destruct (xs !! i).
  - apply mapM_imap_Some. intros i x Hx. by rewrite (Hg i x Hx).
  - rewrite fmap_imap. exact Hc.
Qed.

Lemma run_spmd_ret {X A} (g : nat -> X -> Par A) v (xs : list X) :
  xs <> [] ->
  (forall i x, xs !! i = Some x -> g i x = Ret (v i x)) ->
  run (imap g xs) = Some (imap v xs).
Proof.
  intros Hne Hg. apply run_returned.
  - by destruct xs.
  - apply mapM_imap_Some. intros i x Hx. by rewrite (Hg i x Hx).
Qed.

(** ** The collectives on a world given rank by rank *)

Lemma Forall_imap {X A} (P : A -> Prop) (g : nat -> X -> A) (xs : list X) :
  (forall i x, xs !! i = Some x -> P (g i x)) -> Forall P (imap g xs).
Proof.
  intros H. apply Forall_lookup. intros i a.
  rewrite list_lookup_imap. destruct (xs !! i) as [x|] eqn:E; [|done].
  simpl. intros [= <-]. by apply H.
Qed.

Lemma head_imap {X A} (g : nat -> X -> A) (xs : list X) :
  head (imap g xs) = g 0%nat <$> head xs.
Proof. by destruct xs. Qed.

Lemma imap_head_inv {X A} (g : nat -> X -> A) (xs : list X) a l :
  imap g xs = a :: l -> exists x, xs !! 0%nat = Some x /\ a = g 0%nat x.
Proof. destruct xs as [|x xs]; [done|]. intros [= <- _]. by exists x. Qed.

Lemma collective_Allreduce {X} (sb : nat -> X -> list Z) count T op
    (xs : list X) :
  xs <> [] ->
  (forall i x, xs !! i = Some x -> fits count (sb i x)) ->
  collective (imap (fun i x => MPI_Allreduce (sb i x) count T op) xs)
  = Some (imap (fun _ _ =>
                  ok (reduce (reduce_op T op)
                        (imap (fun i x => message (sb i x) count) xs))) xs).
Proof.
  intros Hne Hfits.
  transitivity
    (world_Allreduce (imap (fun i x => MPI_Allreduce (sb i x) count T op) xs)).
  { by destruct xs. }
  unfold world_Allreduce.
  rewrite (mapM_imap_Some _ _ (fun i x => (sb i x, count, T, op)))
    by done.
  simpl. destruct (imap _ xs) as [|a args] eqn:E.
  { by destruct xs. }
  destruct (imap_head_inv _ _ _ _ E) as (x0 & _ & ->). rewrite <- E.
  rewrite bool_decide_eq_true_2.
  - f_equal. rewrite fmap_imap. f_equal. by rewrite fmap_imap.
  - apply Forall_imap. intros i x Hx. repeat split; try done.
    all: by apply (Hfits i x).
Qed.

(** ** Reductions of packed booleans *)

Lemma foldl_zip_with_length (f : Z -> Z -> Z) b bufs n :
  length b = n -> Forall (fun b' => length b' = n) bufs ->
  length (foldl (zip_with f) b bufs) = n.
Proof.
  revert b. induction bufs as [|b' bufs IH]; intros b Hb Hall; [done|].
  inversion Hall; subst. simpl. apply IH; [|done].
  rewrite length_zip_with. lia.
Qed.

Lemma vec_get_zip_with (f : Z -> Z -> Z) a b J :
  length a = length b -> 0 <= J < vec_size a ->
  vec_get 0 (zip_with f a b) J = f (vec_get 0 a J) (vec_get 0 b J).
Proof.
  unfold vec_size. intros Hlen HJ. rewrite !vec_get_lookup, lookup_zip_with.
  destruct (lookup_lt_is_Some_2 a (Z.to_nat J)) as [x ->]; [lia|].
  destruct (lookup_lt_is_Some_2 b (Z.to_nat J)) as [y ->]; [lia|].
  done.
Qed.

Lemma vec_get_foldl_zip_with (f : Z -> Z -> Z) b bufs n J :
  length b = n -> Forall (fun b' => length b' = n) bufs ->
  0 <= J < Z.of_nat n ->
  vec_get 0 (foldl (zip_with f) b bufs) J
  = foldl f (vec_get 0 b J) ((fun b' => vec_get 0 b' J) <$> bufs).
Proof.
  revert b. induction bufs as [|b' bufs IH]; intros b Hb Hall HJ; [done|].
  inversion Hall; subst. simpl. rewrite IH; [|rewrite length_zip_with; lia|done..].
  f_equal. apply vec_get_zip_with; unfold vec_size; lia.
Qed.

Lemma testbit_foldl_land w ws k :
  Z.testbit (foldl Z.land w ws) k
  = Z.testbit w k && forallb (fun w' => Z.testbit w' k) ws.
Proof.
  revert w. induction ws as [|w' ws IH]; intros w; simpl.
  - by rewrite andb_true_r.
  - by rewrite IH, Z.land_spec, andb_assoc.
Qed.

Lemma testbit_foldl_lor w ws k :
  Z.testbit (foldl Z.lor w ws) k
  = Z.testbit w k || existsb (fun w' => Z.testbit w' k) ws.
Proof.
  revert w. induction ws as [|w' ws IH]; intros w; simpl.
  - by rewrite orb_false_r.
  - by rewrite IH, Z.lor_spec, orb_assoc.
Qed.

Lemma pack_testbit r j :
  vec_size r < 2 ^ 32 -> 0 <= j < vec_size r ->
  Z.testbit (vec_get 0 (Parallel.pack_vector_bool r) (j / 32)) (j mod 32)
  = vec_get false r j.
Proof.
  intros Hsz Hj. destruct (pack_vector_bool_packed r Hsz) as [_ [_ Hbits]].
  pose proof (Z.div_mod j 32 ltac:(lia)).
  pose proof (Z.mod_pos_bound j 32 ltac:(lia)).
  assert (0 <= j / 32) by (apply Z.div_pos; lia).
  rewrite Hbits by lia.
  replace (32 * (j / 32) + j mod 32) with j by lia.
  replace (j mod 32 <? 32) with true by lia.
  replace (j <? vec_size r) with true by lia. done.
Qed.

(** What [unpack_vector_bool] returns on a well-sized call. *)
Lemma unpack_vector_bool_ok lm in_ (out : list bool) :
  vec_size out < 2 ^ 32 ->
  words_for (vec_size out) = vec_size in_ ->
  Parallel.unpack_vector_bool lm in_ out
  = Ret ((fun j => to_bool (Parallel.extracted_bit in_ (Z.of_nat j)))
         <$> seq 0 (length out)).
Proof.
  intros Hsz Hwords.
  assert (0 <= vec_size out) as Hpos by (unfold vec_size; lia).
  unfold Parallel.unpack_vector_bool.
  rewrite (to_unsigned_int_small (vec_size out)) by lia.
  rewrite words_for_eq.
  pose proof (words_for_bounds _ Hpos) as [Hw0 Hw].
  rewrite (to_unsigned_int_small (words_for _)) by lia.
  rewrite Hwords, Z.eqb_refl.
  replace (libmesh_assert lm true) with (Ret tt)
    by (unfold libmesh_assert; by destruct (NDEBUG lm)).
  simpl. f_equal.
  replace (Z.to_nat (vec_size out)) with (length out)
    by (unfold vec_size; lia).
  destruct (unpack_loop_spec in_ (length out) out) as (Hl & Hbits & _);
    [done|].
  apply list_eq_same_length with (length out);
    [by rewrite length_fmap, length_seq|done|].
  intros i x y Hi Hx Hy. rewrite Hbits in Hx by done.
  rewrite list_lookup_fmap, lookup_seq_lt in Hy by done. simpl in Hy.
  congruence.
Qed.

Section PackedReduction.
Variable fz : Z -> Z -> Z.
Variable fb : list bool -> bool.
Hypothesis fz_bits : forall w ws k,
  Z.testbit (foldl fz w ws) k = fb ((fun w' => Z.testbit w' k) <$> w :: ws).

Variable len : nat.
Hypothesis len_fits : Z.of_nat len < 2 ^ 32.

Lemma length_pack_vector_bool r :
  length r = len ->
  length (Parallel.pack_vector_bool r) = Z.to_nat (words_for (Z.of_nat len)).
Proof.
  intros Hr. destruct (pack_vector_bool_packed r) as [Hw _].
  - unfold vec_size. by rewrite Hr.
  - unfold vec_size in Hw. rewrite Hr in Hw. lia.
Qed.

Lemma unpack_reduce lm (rs : list (list bool)) (out : list bool) :
  rs <> [] -> Forall (fun r => length r = len) rs -> length out = len ->
  Parallel.unpack_vector_bool lm
    (reduce fz (Parallel.pack_vector_bool <$> rs)) out
  = Ret (elementwise fb rs len).
Proof.
  intros Hne Hall Hout. destruct rs as [|r0 rs]; [done|]. clear Hne.
  apply Forall_cons in Hall as [Hr0 Hrs].
  pose proof (words_for_bounds (Z.of_nat len) ltac:(lia)) as [Hw0 Hw].
  set (n := Z.to_nat (words_for (Z.of_nat len))).
  assert (Forall (fun b' => length b' = n)
            (Parallel.pack_vector_bool <$> rs)) as Hlens.
  { apply Forall_fmap. eapply Forall_impl; [exact Hrs|].
    intros r Hr. simpl in Hr. by apply length_pack_vector_bool. }
  rewrite fmap_cons. cbn [reduce].
  rewrite unpack_vector_bool_ok.
  - rewrite Hout. unfold elementwise. f_equal.
    apply list_fmap_ext. intros i j Hij.
    apply lookup_seq in Hij as [Hi Hj]. rewrite Nat.add_0_l in Hi.
    subst i.
    rewrite extracted_bit_testbit by lia.
    assert (0 <= Z.of_nat j / 32 < Z.of_nat n).
    { split; [apply Z.div_pos; lia|].
      apply Z.div_lt_upper_bound; lia. }
    rewrite (vec_get_foldl_zip_with _ _ _ n);
      [|by apply length_pack_vector_bool|done..].
    rewrite fz_bits.
    change (to_bool (Z.b2z ?b)) with (to_bool (of_bool b)).
    rewrite to_bool_of_bool. f_equal. unfold column.
    rewrite !fmap_cons. f_equal.
    + rewrite pack_testbit by (unfold vec_size; lia).
      unfold vec_get. by rewrite Nat2Z.id.
    + rewrite <- !list_fmap_compose. apply Forall_fmap_ext.
      eapply Forall_impl; [exact Hrs|]. intros r Hr. simpl in Hr |- *.
      rewrite pack_testbit by (unfold vec_size; lia).
      unfold vec_get. by rewrite Nat2Z.id.
  - unfold vec_size. lia.
  - unfold vec_size. rewrite Hout.
    rewrite (foldl_zip_with_length _ _ _ n);
      [lia|by apply length_pack_vector_bool|done].
Qed.
End PackedReduction.

Lemma imap_const_replicate {X A} (a : A) (xs : list X) :
  imap (fun _ _ => a) xs = replicate (length xs) a.
Proof.
  apply list_eq. intros i. rewrite list_lookup_imap.
  destruct (xs !! i) eqn:E; simpl.
  - symmetry. apply lookup_replicate_2. by eapply lookup_lt_Some.
  - symmetry. apply lookup_replicate_None. by apply lookup_ge_None.
Qed.

Lemma message_all buf count : count = vec_size buf -> message buf count = buf.
Proof.
  intros ->. unfold message, vec_size. rewrite Nat2Z.id. apply firstn_all.
Qed.

Lemma bool_min_bits w ws k :
  Z.testbit (foldl Z.land w ws) k
  = bool_min ((fun w' => Z.testbit w' k) <$> w :: ws).
Proof.
  rewrite testbit_foldl_land. unfold bool_min. simpl. f_equal.
  induction ws as [|w' ws IH]; simpl; [done|]. by rewrite IH.
Qed.

Lemma bool_max_bits w ws k :
  Z.testbit (foldl Z.lor w ws) k
  = bool_max ((fun w' => Z.testbit w' k) <$> w :: ws).
Proof.
  rewrite testbit_foldl_lor. unfold bool_max. simpl. f_equal.
  induction ws as [|w' ws IH]; simpl; [done|]. by rewrite IH.
Qed.

Lemma elementwise_single fb (r : list bool) (len : nat) :
  (forall b, fb [b] = b) -> length r = len -> elementwise fb [r] len = r.
Proof.
  intros Hfb Hr. unfold elementwise, column.
  apply list_eq_same_length with len;
    [done|by rewrite length_fmap, length_seq|].
  intros i x y Hi Hx Hy.
  rewrite list_lookup_fmap, lookup_seq_lt in Hx by done. simpl in Hx.
  rewrite Hfb in Hx. rewrite (nth_lookup_Some _ _ _ _ Hy) in Hx. congruence.
Qed.

(** The bit-packed reduction of a world of equally long sequences. *)
Lemma run_vector_bool_reduction ndebug op fb
    (f : libMesh -> list bool -> Par (list bool))
    (rs : list (list bool)) (len : nat) :
  (forall lm r,
     (n_processors lm >? 1) = true ->
     f lm r
     = Transport
         (MPI_Allreduce (Parallel.pack_vector_bool r)
            (to_int (vec_size (Parallel.pack_vector_bool r)))
            MPI_UNSIGNED op)
         (fun reply => Parallel.unpack_vector_bool lm (recvd reply) r)) ->
  (forall w ws k,
     Z.testbit (foldl (reduce_op MPI_UNSIGNED op) w ws) k
     = fb ((fun w' => Z.testbit w' k) <$> w :: ws)) ->
  (1 < length rs)%nat ->
  Forall (fun r => length r = len) rs ->
  Z.of_nat len < 2 ^ 32 ->
  run (spmd ndebug f rs)
  = Some (replicate (length rs) (elementwise fb rs len)).
Proof.
  intros Hf Hbits HN Hall Hlen.
  assert (rs <> []) as Hne by (intros ->; simpl in HN; lia).
  pose proof (words_for_bounds (Z.of_nat len) ltac:(lia)) as [Hw0 Hw].
  assert (forall i r, rs !! i = Some r ->
            vec_size (Parallel.pack_vector_bool r)
            = words_for (Z.of_nat len)) as Hwords.
  { intros i r Hr. unfold vec_size.
    rewrite (length_pack_vector_bool len Hlen r); [lia|].
    by apply (Forall_lookup_1 _ _ _ _ Hall Hr). }
  unfold spmd.
  rewrite (run_spmd_step _
             (fun i r => MPI_Allreduce (Parallel.pack_vector_bool r)
                           (words_for (Z.of_nat len)) MPI_UNSIGNED op)
             (fun i r reply =>
                Parallel.unpack_vector_bool
                  {| n_processors := vec_size rs;
                     processor_id := Z.of_nat i;
                     NDEBUG := ndebug |} (recvd reply) r)
             (fun _ _ =>
                ok (reduce (reduce_op MPI_UNSIGNED op)
                      (imap (fun i x =>
                               message (Parallel.pack_vector_bool x)
                                 (words_for (Z.of_nat len))) rs)))).
  - rewrite (imap_ext _ (fun _ r => Parallel.pack_vector_bool r)).
    2:{ intros i r Hr. simpl. rewrite message_all; [done|].
        symmetry. by apply (Hwords i). }
    rewrite (imap_const Parallel.pack_vector_bool).
    rewrite (run_spmd_ret _ (fun _ _ => elementwise fb rs len)) by
      (try done; intros i r Hr; simpl;
       apply (unpack_reduce _ fb Hbits len Hlen); try done;
       by apply (Forall_lookup_1 _ _ _ _ Hall Hr)).
    by rewrite imap_const_replicate.
  - intros i r Hr. rewrite Hf by (simpl; unfold vec_size; lia).
    rewrite (Hwords i r Hr), to_int_small by lia. done.
  - apply collective_Allreduce; [done|].
    intros i r Hr. unfold fits. rewrite (Hwords i r Hr). lia.
Qed.

(** C4.  For a world of processes holding boolean sequences of one
    length: the word-wise AND of the packed sequences unpacks to
    their element-wise minimum and the word-wise OR to their element-wise
    maximum; and [min] / [max] of [std::vector<bool>], run on that world
    with the transport reducing by [MPI_BAND] / [MPI_BOR], leave that
    minimum / maximum on every rank. *)
Theorem min_max_vector_bool ndebug (rs : list (list bool)) (len : nat) :
  rs <> [] ->
  Forall (fun r => length r = len) rs ->
  Z.of_nat len < 2 ^ 32 ->
  (forall lm out, length out = len ->
     Parallel.unpack_vector_bool lm
       (reduce Z.land (Parallel.pack_vector_bool <$> rs)) out
     = Ret (elementwise bool_min rs len))
  /\ (forall lm out, length out = len ->
        Parallel.unpack_vector_bool lm
          (reduce Z.lor (Parallel.pack_vector_bool <$> rs)) out
        = Ret (elementwise bool_max rs len))
  /\ run (spmd ndebug Parallel.min_vector_bool rs)
     = Some (replicate (length rs) (elementwise bool_min rs len))
  /\ run (spmd ndebug Parallel.max_vector_bool rs)
     = Some (replicate (length rs) (elementwise bool_max rs len)).
Proof.
  intros Hne Hall Hlen.
  split; [|split].
  - intros lm out Hout. by apply (unpack_reduce _ _ bool_min_bits len).
  - intros lm out Hout. by apply (unpack_reduce _ _ bool_max_bits len).
  - destruct (decide (1 < length rs)%nat) as [HN|HN].
    + split.
      * apply (run_vector_bool_reduction _ MPI_BAND); try done.
        -- intros lm r HN'. unfold Parallel.min_vector_bool. by rewrite HN'.
        -- apply bool_min_bits.
      * apply (run_vector_bool_reduction _ MPI_BOR); try done.
        -- intros lm r HN'. unfold Parallel.max_vector_bool. by rewrite HN'.
        -- apply bool_max_bits.
    + destruct rs as [|r [|]]; try done; [|simpl in HN; lia].
      apply Forall_cons in Hall as [Hr _].
      rewrite !elementwise_single by (done || intros []; done).
      done.
Qed.

Lemma min_max_vector_bool_witness :
  let rs := [[true; false; true]; [true; true; false]] in
  run (spmd false Parallel.min_vector_bool rs)
  = Some (replicate 2 (elementwise bool_min rs 3))
  /\ run (spmd false Parallel.max_vector_bool rs)
     = Some (replicate 2 (elementwise bool_max rs 3)).
Proof.
  intros rs.
  apply (min_max_vector_bool false rs 3).
  - done.
  - repeat constructor.
  - reflexivity.
Defined.

(** ** verify *)

Lemma run_spmd_Allreduce {X A} (g : nat -> X -> Par A) sb count T op k
    (xs : list X) :
  xs <> [] ->
  (forall i x, xs !! i = Some x ->
     g i x = Transport (MPI_Allreduce (sb i x) count T op) (k i x)) ->
  (forall i x, xs !! i = Some x -> fits count (sb i x)) ->
  run (imap g xs)
  = run (imap (fun i x =>
                 k i x (ok (reduce (reduce_op T op)
                              (imap (fun i x => message (sb i x) count) xs))))
           xs).
Proof.
  intros Hne Hg Hfits.
  rewrite (run_spmd_step g _ k
             (fun _ _ =>
                ok (reduce (reduce_op T op)
                      (imap (fun i x => message (sb i x) count) xs))) xs Hg).
  - done.
  - by apply collective_Allreduce.
Qed.

Lemma reduce_scalars {X} (f : Z -> Z -> Z) (g : X -> Z) (xs : list X) :
  xs <> [] ->
  reduce f (imap (fun _ x => message [g x] 1) xs) = [fold1 f (g <$> xs)].
Proof.
  intros Hne. rewrite (imap_const (fun x => message [g x] 1)).
  destruct xs as [|x0 xs]; [done|]. simpl. clear Hne.
  generalize (g x0) as a. induction xs as [|x xs IH]; intros a; [done|].
  simpl. apply IH.
Qed.

Lemma foldl_min_spec a xs :
  (foldl Z.min a xs = a \/ foldl Z.min a xs ∈ xs)
  /\ foldl Z.min a xs <= a
  /\ forall x, x ∈ xs -> foldl Z.min a xs <= x.
Proof.
  revert a. induction xs as [|x xs IH]; intros a; simpl.
  - split; [by left|]. split; [lia|]. intros x Hx. by apply elem_of_nil in Hx.
  - destruct (IH (Z.min a x)) as (Hin & Hle & Hall). split; [|split].
    + destruct Hin as [->|Hin]; [|right; by right].
      destruct (Z.min_spec a x) as [[_ ->]|[_ ->]]; [by left|right; by left].
    + lia.
    + intros y [->|Hy]%elem_of_cons; [lia|by apply Hall].
Qed.

Lemma foldl_max_spec a xs :
  (foldl Z.max a xs = a \/ foldl Z.max a xs ∈ xs)
  /\ a <= foldl Z.max a xs
  /\ forall x, x ∈ xs -> x <= foldl Z.max a xs.
Proof.
  revert a. induction xs as [|x xs IH]; intros a; simpl.
  - split; [by left|]. split; [lia|]. intros x Hx. by apply elem_of_nil in Hx.
  - destruct (IH (Z.max a x)) as (Hin & Hle & Hall). split; [|split].
    + destruct Hin as [->|Hin]; [|right; by right].
      destruct (Z.max_spec a x) as [[_ ->]|[_ ->]]; [right; by left|by left].
    + lia.
    + intros y [->|Hy]%elem_of_cons; [lia|by apply Hall].
Qed.

Lemma fold1_min_spec xs :
  xs <> [] ->
  fold1 Z.min xs ∈ xs /\ forall x, x ∈ xs -> fold1 Z.min xs <= x.
Proof.
  destruct xs as [|a xs]; [done|]. intros _. simpl.
  destruct (foldl_min_spec a xs) as (Hin & Hle & Hall). split.
  - destruct Hin as [->|Hin]; [by left|by right].
  - intros y [->|Hy]%elem_of_cons; [done|by apply Hall].
Qed.

Lemma fold1_max_spec xs :
  xs <> [] ->
  fold1 Z.max xs ∈ xs /\ forall x, x ∈ xs -> x <= fold1 Z.max xs.
Proof.
  destruct xs as [|a xs]; [done|]. intros _. simpl.
  destruct (foldl_max_spec a xs) as (Hin & Hle & Hall). split.
  - destruct Hin as [->|Hin]; [by left|by right].
  - intros y [->|Hy]%elem_of_cons; [done|by apply Hall].
Qed.

Lemma foldl_min_of_bool v vs :
  foldl Z.min (of_bool v) (of_bool <$> vs) = of_bool (v && forallb id vs).
Proof.
  revert v. induction vs as [|v' vs IH]; intros v; simpl.
  - by rewrite andb_true_r.
  - replace (Z.min (of_bool v) (of_bool v')) with (of_bool (v && v'))
      by (by destruct v, v').
    rewrite IH. unfold id. by rewrite andb_assoc.
Qed.

Lemma fold1_min_of_bool vs :
  vs <> [] -> to_bool (fold1 Z.min (of_bool <$> vs)) = forallb id vs.
Proof.
  destruct vs as [|v vs]; [done|]. intros _.
  rewrite fmap_cons. cbn [fold1]. rewrite foldl_min_of_bool.
  apply to_bool_of_bool.
Qed.

(** A set of values equals both its minimum and its maximum exactly when
    all of them are the same. *)
Lemma all_between_identical (xs : list Z) :
  xs <> [] ->
  forallb (fun x => (x =? fold1 Z.min xs) && (x =? fold1 Z.max xs)) xs = true
  <-> identical xs.
Proof.
  intros Hne. destruct (fold1_min_spec xs Hne) as [Hmin_in Hmin].
  destruct (fold1_max_spec xs Hne) as [Hmax_in Hmax].
  rewrite forallb_forall. split.
  - intros H i j x y Hx Hy.
    assert (x = fold1 Z.min xs).
    { specialize (H x). rewrite <- list_elem_of_In in H.
      specialize (H (list_elem_of_lookup_2 _ _ _ Hx)). lia. }
    assert (y = fold1 Z.min xs).
    { specialize (H y). rewrite <- list_elem_of_In in H.
      specialize (H (list_elem_of_lookup_2 _ _ _ Hy)). lia. }
    congruence.
  - intros H x Hx. rewrite <- list_elem_of_In in Hx.
    apply list_elem_of_lookup_1 in Hx as [i Hx].
    apply list_elem_of_lookup_1 in Hmin_in as [j Hj].
    apply list_elem_of_lookup_1 in Hmax_in as [k Hk].
    rewrite <- (H _ _ _ _ Hx Hj), <- (H _ _ _ _ Hx Hk). lia.
Qed.

Lemma verify_unfold lm T r :
  (n_processors lm >? 1) = true ->
  Parallel.verify lm T r
  = Transport (MPI_Allreduce [r] 1 T MPI_MIN) (fun reply1 =>
    Transport (MPI_Allreduce [r] 1 T MPI_MAX) (fun reply2 =>
    Transport
      (MPI_Allreduce
         [of_bool ((r =? vec_get Parallel.uninitialised (recvd reply1) 0)
                   && (r =? vec_get Parallel.uninitialised (recvd reply2) 0))]
         1 MPI_UNSIGNED MPI_MIN) (fun reply3 =>
    Ret (to_bool (vec_get Parallel.uninitialised (recvd reply3) 0))))).
Proof.
  intros HN. unfold Parallel.verify, Parallel.min, Parallel.max,
    Parallel.min_bool. rewrite HN. reflexivity.
Qed.

Lemma fits_singleton x : fits 1 [x].
Proof. unfold fits, vec_size. simpl. lia. Qed.

Lemma run_verify ndebug T (xs : list Z) :
  xs <> [] ->
  exists verified : bool,
    run (spmd ndebug (fun lm r => Parallel.verify lm T r) xs)
    = Some (replicate (length xs) verified)
    /\ verified
       = forallb (fun x => (x =? fold1 Z.min xs) && (x =? fold1 Z.max xs)) xs
    /\ (verified = true <-> identical xs)
    /\ (length xs = 1%nat -> verified = true).
Proof.
  intros Hne.
  exists (forallb (fun x => (x =? fold1 Z.min xs) && (x =? fold1 Z.max xs))
            xs).
  split; [|split; [done|split; [by apply all_between_identical|]]].
  2:{ destruct xs as [|x [|]]; try done. intros _. simpl.
      by rewrite Z.eqb_refl. }
  unfold spmd.
  destruct (Z.gtb_spec (vec_size xs) 1) as [HN|HN].
  - rewrite (run_spmd_Allreduce _ (fun _ x => [x]) 1 T MPI_MIN
               (fun i x reply1 =>
                  Transport (MPI_Allreduce [x] 1 T MPI_MAX) (fun reply2 =>
                  Transport
                    (MPI_Allreduce
                       [of_bool
                          ((x =? vec_get Parallel.uninitialised (recvd reply1) 0)
                           && (x =? vec_get Parallel.uninitialised (recvd reply2) 0))]
                       1 MPI_UNSIGNED MPI_MIN) (fun reply3 =>
                  Ret (to_bool (vec_get Parallel.uninitialised (recvd reply3) 0))))));
      [|done| |intros; apply fits_singleton].
    2:{ intros i x Hx. apply verify_unfold. simpl. lia. }
    rewrite (reduce_scalars _ id) by done. rewrite list_fmap_id. simpl.
    rewrite (run_spmd_Allreduce _ (fun _ x => [x]) 1 T MPI_MAX
               (fun i x reply2 =>
                  Transport
                    (MPI_Allreduce
                       [of_bool
                          ((x =? fold1 Z.min xs)
                           && (x =? vec_get Parallel.uninitialised (recvd reply2) 0))]
                       1 MPI_UNSIGNED MPI_MIN) (fun reply3 =>
                  Ret (to_bool (vec_get Parallel.uninitialised (recvd reply3) 0)))));
      [|done|done|intros; apply fits_singleton].
    rewrite (reduce_scalars _ id) by done. rewrite list_fmap_id. simpl.
    rewrite (run_spmd_Allreduce _
               (fun _ x =>
                  [of_bool ((x =? fold1 Z.min xs) && (x =? fold1 Z.max xs))])
               1 MPI_UNSIGNED MPI_MIN
               (fun i x reply3 =>
                  Ret (to_bool (vec_get Parallel.uninitialised (recvd reply3) 0))));
      [|done|done|intros; apply fits_singleton].
    rewrite (reduce_scalars _
               (fun x =>
                  of_bool ((x =? fold1 Z.min xs) && (x =? fold1 Z.max xs))))
      by done.
    simpl.
    rewrite (run_spmd_ret _ (fun _ _ =>
               to_bool (fold1 Z.min
                 ((fun x => of_bool ((x =? fold1 Z.min xs)
                                     && (x =? fold1 Z.max xs))) <$> xs))))
      by done.
    rewrite imap_const_replicate. do 2 f_equal.
    rewrite (list_fmap_compose
               (fun x => (x =? fold1 Z.min xs) && (x =? fold1 Z.max xs))
               of_bool).
    rewrite fold1_min_of_bool by (by destruct xs).
    clear. induction xs as [|x xs' IH]; [done|].
    generalize (fold1 Z.min (x :: xs')), (fold1 Z.max (x :: xs')).
    intros m M. simpl. f_equal.
    clear. induction xs' as [|y ys IH]; [done|]. simpl. by rewrite IH.
  - assert (length xs = 1%nat) as H1.
    { destruct xs; [done|]. unfold vec_size in HN. simpl in *. lia. }
    destruct xs as [|x [|]]; try done.
    simpl. unfold Parallel.verify. simpl. by rewrite Z.eqb_refl.
Qed.

(** *** Strings *)

Lemma push_back_loop {A B} (f : A -> B) (d : A) (r : list A) :
  for_loop (length r) 0 (fun i acc => acc ++ [f (vec_get d r i)]) []
  = f <$> r.
Proof.
  transitivity (f <$> take (Z.to_nat (Z.of_nat (length r))) r);
    [|by rewrite Nat2Z.id, firstn_all].
  apply (for_loop_invariant0
           (fun i acc => acc = f <$> take (Z.to_nat i) r)).
  - done.
  - intros i acc Hi ->.
    destruct (lookup_lt_is_Some_2 r (Z.to_nat i)) as [x Hx]; [lia|].
    replace (Z.to_nat (i + 1)) with (S (Z.to_nat i)) by lia.
    rewrite (take_S_r _ _ _ Hx), fmap_app. simpl.
    by rewrite vec_get_lookup, Hx.
Qed.

Lemma vec_eqb_eq a b : Parallel.vec_eqb a b = true <-> a = b.
Proof.
  unfold Parallel.vec_eqb. rewrite andb_true_iff, Nat.eqb_eq. split.
  - intros [Hlen Hall]. revert b Hlen Hall.
    induction a as [|x a IH]; intros [|y b] Hlen Hall; try done.
    simpl in *. apply andb_true_iff in Hall as [Hxy Hall].
    f_equal; [lia|]. apply IH; [lia|done].
  - intros <-. split; [done|]. induction a as [|x a IH]; [done|].
    simpl. by rewrite Z.eqb_refl.
Qed.

Lemma Z_of_char_inj c1 c2 : Parallel.Z_of_char c1 = Parallel.Z_of_char c2 -> c1 = c2.
Proof.
  unfold Parallel.Z_of_char. intros H%N2Z.inj.
  by rewrite <- (ascii_N_embedding c1), <- (ascii_N_embedding c2), H.
Qed.

Lemma char_of_Z_of_char c : Parallel.char_of_Z (Parallel.Z_of_char c) = c.
Proof.
  unfold Parallel.char_of_Z, Parallel.Z_of_char. rewrite N2Z.id. apply ascii_N_embedding.
Qed.

Lemma foldl_zip_with_idemp (f : Z -> Z -> Z) t ts :
  (forall x, f x x = x) -> Forall (fun t' => t' = t) ts ->
  foldl (zip_with f) t ts = t.
Proof.
  intros Hf Hall. induction Hall as [|t' ts -> _ IH]; [done|]. simpl.
  replace (zip_with f t t) with t; [done|].
  clear -Hf. induction t as [|x t IH]; [done|]. simpl. by rewrite Hf, <- IH.
Qed.

Lemma identical_all_eq {A} (x0 : A) (xs : list A) :
  identical (x0 :: xs) <-> Forall (fun x => x = x0) xs.
Proof.
  split.
  - intros H. apply Forall_lookup. intros i x Hx.
    by apply (H (S i) 0%nat x x0).
  - intros H i j x y Hx Hy.
    assert (forall k z, (x0 :: xs) !! k = Some z -> z = x0) as Hall.
    { intros [|k] z; simpl; [congruence|].
      intros Hz. by apply (Forall_lookup_1 _ _ _ _ H Hz). }
    by rewrite (Hall _ _ Hx), (Hall _ _ Hy).
Qed.

Lemma identical_fmap_inj {A B} (f : A -> B) (xs : list A) :
  (forall x y, f x = f y -> x = y) ->
  identical (f <$> xs) <-> identical xs.
Proof.
  intros Hinj. split.
  - intros H i j x y Hx Hy. apply Hinj.
    apply (H i j); rewrite list_lookup_fmap; [by rewrite Hx|by rewrite Hy].
  - intros H i j x y. rewrite !list_lookup_fmap.
    destruct (xs !! i) as [x'|] eqn:Hx; [|done].
    destruct (xs !! j) as [y'|] eqn:Hy; [|done].
    simpl. intros [= <-] [= <-]. f_equal. by apply (H i j).
Qed.

Lemma verify_vector_unfold lm T r :
  (n_processors lm >? 1) = true ->
  Parallel.verify_vector lm T r
  = Transport (MPI_Allreduce r (to_int (vec_size r)) T MPI_MIN)
      (fun reply1 =>
    Transport (MPI_Allreduce r (to_int (vec_size r)) T MPI_MAX)
      (fun reply2 =>
    Transport
      (MPI_Allreduce
         [of_bool (Parallel.vec_eqb r (recvd reply1)
                   && Parallel.vec_eqb r (recvd reply2))]
         1 MPI_UNSIGNED MPI_MIN) (fun reply3 =>
    Ret (to_bool (vec_get Parallel.uninitialised (recvd reply3) 0))))).
Proof.
  intros HN. unfold Parallel.verify_vector, Parallel.min_vector,
    Parallel.max_vector, Parallel.min_bool. rewrite HN. reflexivity.
Qed.

Lemma reduce_vectors (f : Z -> Z -> Z) (ts : list (list Z)) (len : nat) :
  Forall (fun t => length t = len) ts ->
  reduce f (imap (fun _ t => message t (Z.of_nat len)) ts) = reduce f ts.
Proof.
  intros Hall. f_equal. rewrite <- (list_fmap_id ts) at 2.
  rewrite <- (imap_const id ts). apply imap_ext. intros i t Ht. simpl.
  apply message_all. unfold vec_size.
  by rewrite (Forall_lookup_1 _ _ _ _ Hall Ht).
Qed.

Lemma run_verify_vector N ndebug T (ts : list (list Z)) (len : nat) :
  N > 1 -> ts <> [] ->
  Forall (fun t => length t = len) ts ->
  Z.of_nat len < 2 ^ 31 ->
  exists verified : bool,
    run (imap (fun i t =>
                 Parallel.verify_vector
                   {| n_processors := N; processor_id := Z.of_nat i;
                      NDEBUG := ndebug |} T t) ts)
    = Some (replicate (length ts) verified)
    /\ (verified = true <-> identical ts).
Proof.
  intros HN Hne Hall Hlen.
  set (gmin := reduce Z.min ts). set (gmax := reduce Z.max ts).
  exists (forallb id
            ((fun t => Parallel.vec_eqb t gmin && Parallel.vec_eqb t gmax)
             <$> ts)).
  assert (forall i t, ts !! i = Some t -> to_int (vec_size t) = Z.of_nat len)
    as Hcount.
  { intros i t Ht. unfold vec_size.
    rewrite (Forall_lookup_1 _ _ _ _ Hall Ht). apply to_int_small. lia. }
  assert (forall i t, ts !! i = Some t -> fits (Z.of_nat len) t) as Hfits.
  { intros i t Ht. unfold fits, vec_size.
    rewrite (Forall_lookup_1 _ _ _ _ Hall Ht). lia. }
  split.
  - rewrite (run_spmd_Allreduce _ (fun _ t => t) (Z.of_nat len) T MPI_MIN
               (fun i t reply1 =>
                  Transport (MPI_Allreduce t (Z.of_nat len) T MPI_MAX)
                    (fun reply2 =>
                  Transport
                    (MPI_Allreduce
                       [of_bool (Parallel.vec_eqb t (recvd reply1)
                                 && Parallel.vec_eqb t (recvd reply2))]
                       1 MPI_UNSIGNED MPI_MIN) (fun reply3 =>
                  Ret (to_bool
                         (vec_get Parallel.uninitialised (recvd reply3) 0))))));
      [|done| |done].
    2:{ intros i t Ht. rewrite verify_vector_unfold by (simpl; lia).
        by rewrite (Hcount i t Ht). }
    rewrite (reduce_vectors _ _ len Hall). simpl. fold gmin.
    rewrite (run_spmd_Allreduce _ (fun _ t => t) (Z.of_nat len) T MPI_MAX
               (fun i t reply2 =>
                  Transport
                    (MPI_Allreduce
                       [of_bool (Parallel.vec_eqb t gmin
                                 && Parallel.vec_eqb t (recvd reply2))]
                       1 MPI_UNSIGNED MPI_MIN) (fun reply3 =>
                  Ret (to_bool
                         (vec_get Parallel.uninitialised (recvd reply3) 0)))));
      [|done|done|done].
    rewrite (reduce_vectors _ _ len Hall). simpl. fold gmax.
    rewrite (run_spmd_Allreduce _
               (fun _ t =>
                  [of_bool (Parallel.vec_eqb t gmin
                            && Parallel.vec_eqb t gmax)])
               1 MPI_UNSIGNED MPI_MIN
               (fun i t reply3 =>
                  Ret (to_bool
                         (vec_get Parallel.uninitialised (recvd reply3) 0))));
      [|done|done|intros; apply fits_singleton].
    rewrite (reduce_scalars _
               (fun t => of_bool (Parallel.vec_eqb t gmin
                                  && Parallel.vec_eqb t gmax))) by done.
    simpl.
    rewrite (run_spmd_ret _ (fun _ _ =>
               to_bool (fold1 Z.min
                 ((fun t => of_bool (Parallel.vec_eqb t gmin
                                     && Parallel.vec_eqb t gmax)) <$> ts))))
      by done.
    rewrite imap_const_replicate. do 2 f_equal.
    rewrite (list_fmap_compose
               (fun t => Parallel.vec_eqb t gmin && Parallel.vec_eqb t gmax)
               of_bool).
    apply fold1_min_of_bool. by destruct ts.
  - rewrite forallb_forall. split.
    + intros H i j x y Hx Hy.
      assert (forall t, t ∈ ts -> t = gmin) as Hmin.
      { intros t Ht. apply vec_eqb_eq.
        assert (In (Parallel.vec_eqb t gmin && Parallel.vec_eqb t gmax)
                  ((fun t => Parallel.vec_eqb t gmin
                             && Parallel.vec_eqb t gmax) <$> ts)) as Hin.
        { apply list_elem_of_In, list_elem_of_fmap. by exists t. }
        apply H in Hin. unfold id in Hin.
        by apply andb_true_iff in Hin as [? _]. }
      rewrite (Hmin x), (Hmin y); [done|..];
        by eapply list_elem_of_lookup_2.
    + intros H b Hb. apply list_elem_of_In, list_elem_of_fmap in Hb
        as (t & -> & Ht). unfold id.
      destruct ts as [|t0 ts']; [done|].
      apply identical_all_eq in H.
      assert (gmin = t0) as ->
        by (apply foldl_zip_with_idemp; [apply Z.min_id|done]).
      assert (gmax = t0) as ->
        by (apply foldl_zip_with_idemp; [apply Z.max_id|done]).
      assert (t = t0) as ->.
      { apply elem_of_cons in Ht as [->|Ht]; [done|].
        by apply (proj1 (Forall_forall _ _) H). }
      apply andb_true_iff. split; by apply vec_eqb_eq.
Qed.

Lemma run_verify_string ndebug (ss : list (list ascii)) (len : nat) :
  ss <> [] ->
  Forall (fun s => length s = len) ss ->
  Z.of_nat len < 2 ^ 31 ->
  exists verified : bool,
    run (spmd ndebug Parallel.verify_string ss)
    = Some (replicate (length ss) verified)
    /\ (verified = true <-> identical ss)
    /\ (length ss = 1%nat -> verified = true).
Proof.
  intros Hne Hall Hlen. unfold spmd.
  destruct (Z.gtb_spec (vec_size ss) 1) as [HN|HN].
  - destruct (run_verify_vector (vec_size ss) ndebug MPI_SHORT
                ((fun s : list ascii => Parallel.Z_of_char <$> s) <$> ss)
                len)
      as (verified & Hrun & Hiff); [lia|by destruct ss| |done|].
    { apply Forall_fmap. eapply Forall_impl; [exact Hall|].
      intros s Hs. simpl in *. by rewrite length_fmap. }
    exists verified. rewrite imap_fmap, length_fmap in Hrun.
    split; [|split].
    + rewrite <- Hrun. f_equal. apply imap_ext. intros i s Hs. simpl.
      unfold Parallel.verify_string. simpl.
      replace (vec_size ss >? 1) with true by lia.
      by rewrite push_back_loop.
    + rewrite Hiff. apply identical_fmap_inj.
      intros s1 s2. revert s2.
      induction s1 as [|c1 s1 IH]; intros [|c2 s2]; try done.
      rewrite !fmap_cons. intros [= Hc Hs].
      f_equal; [by apply Z_of_char_inj|by apply IH].
    + unfold vec_size in HN. lia.
  - assert (length ss = 1%nat) as H1.
    { destruct ss; [done|]. unfold vec_size in HN. simpl in *. lia. }
    destruct ss as [|s [|]]; try done. exists true.
    split; [|split; [|done]].
    + simpl. unfold Parallel.verify_string. done.
    + split; [|done]. intros _ i j x y Hx Hy.
      apply list_lookup_singleton_Some in Hx as [_ <-].
      by apply list_lookup_singleton_Some in Hy as [_ <-].
Qed.




(** ** Local paths *)

Lemma Ret_returns_without_transport {A} (p : Par A) a :
  p = Ret a -> returns_without_transport p a.
Proof. intros -> answer. done. Qed.

Lemma Halt_aborts_without_transport {A} (p : Par A) :
  p = Halt -> aborts_without_transport p.
Proof. intros -> answer. done. Qed.

Lemma libmesh_assert_true lm : libmesh_assert lm true = Ret tt.
Proof. unfold libmesh_assert. by destruct (NDEBUG lm). Qed.

Lemma vec_set_resize_1 {A} (d : A) recv send :
  vec_set (vec_resize d recv 1) 0 send = [send].
Proof. destruct recv as [|? [|]]; reflexivity. Qed.

(** C3.  [send_receive(dest, send, source, recv)] with [dest] and [source]
    both the local rank: for a scalar, a vector and a vector of vectors,
    [recv] becomes [send] and the transport is not called, whatever it would
    have answered.  The same holds of the build without a transport. *)
Theorem send_receive_self lm T :
  (forall send recv,
     returns_without_transport
       (Parallel.send_receive lm T (processor_id lm) send
          (processor_id lm) recv) send)
  /\ (forall send recv,
        returns_without_transport
          (Parallel.send_receive_vector lm T (processor_id lm) send
             (processor_id lm) recv) send)
  /\ (forall send recv,
        returns_without_transport
          (Parallel.send_receive_vector_vector lm T (processor_id lm) send
             (processor_id lm) recv) send)
  /\ (forall (X : Type) (send recv : X),
        returns_without_transport
          (ParallelNoMPI.send_receive lm (processor_id lm) send
             (processor_id lm) recv) send).
Proof.
  repeat apply conj; intros; apply Ret_returns_without_transport.
  - unfold Parallel.send_receive. by rewrite Z.eqb_refl.
  - unfold Parallel.send_receive_vector. by rewrite Z.eqb_refl.
  - unfold Parallel.send_receive_vector_vector. by rewrite Z.eqb_refl.
  - unfold ParallelNoMPI.send_receive.
    by rewrite Z.eqb_refl, libmesh_assert_true.
Qed.

(** C8.  With one process (rank 0, root 0) every operation returns
    without a call into the transport, whatever the transport would have
    answered, and hands back its input: reductions and broadcasts return the
    value they were given, [verify] returns true, a gather of a scalar
    returns the one-element sequence of its input.  This holds of the build
    with a transport run on one process and of the build without one. *)
Theorem single_process_identity lm T root_id :
  n_processors lm = 1 ->
  processor_id lm = 0 ->
  root_id = 0 ->
  (* reductions *)
  (forall r, returns_without_transport (Parallel.min lm T r) r)
  /\ (forall r, returns_without_transport (Parallel.min_bool lm r) r)
  /\ (forall r, returns_without_transport (Parallel.min_vector lm T r) r)
  /\ (forall r, returns_without_transport (Parallel.min_vector_bool lm r) r)
  /\ (forall r, returns_without_transport (Parallel.max lm T r) r)
  /\ (forall r, returns_without_transport (Parallel.max_bool lm r) r)
  /\ (forall r, returns_without_transport (Parallel.max_vector lm T r) r)
  /\ (forall r, returns_without_transport (Parallel.max_vector_bool lm r) r)
  /\ (forall r, returns_without_transport (Parallel.sum lm T r) r)
  /\ (forall r, returns_without_transport (Parallel.sum_vector lm T r) r)
  (* verify *)
  /\ (forall r, returns_without_transport (Parallel.verify lm T r) true)
  /\ (forall r, returns_without_transport (Parallel.verify_vector lm T r) true)
  /\ (forall r, returns_without_transport (Parallel.verify_string lm r) true)
  (* gather, allgather, alltoall *)
  /\ (forall send recv,
        returns_without_transport (Parallel.gather lm T root_id send recv)
          [send])
  /\ (forall r,
        returns_without_transport (Parallel.gather_vector lm T root_id r) r)
  /\ (forall send recv,
        returns_without_transport (Parallel.allgather lm T send recv) [send])
  /\ (forall r,
        returns_without_transport (Parallel.allgather_vector lm T r) r)
  /\ (forall buf, returns_without_transport (Parallel.alltoall lm T buf) buf)
  (* broadcast *)
  /\ (forall data,
        returns_without_transport (Parallel.broadcast lm T data root_id) data)
  /\ (forall data,
        returns_without_transport
          (Parallel.broadcast_vector lm T data root_id) data)
  /\ (forall data,
        returns_without_transport
          (Parallel.broadcast_string lm data root_id) data)
  (* the build without a transport *)
  /\ (forall (X : Type) (r : X) (v : list X) (d : X),
        returns_without_transport (ParallelNoMPI.min r) r
        /\ returns_without_transport (ParallelNoMPI.min_vector v) v
        /\ returns_without_transport (ParallelNoMPI.max r) r
        /\ returns_without_transport (ParallelNoMPI.max_vector v) v
        /\ returns_without_transport (ParallelNoMPI.sum r) r
        /\ returns_without_transport (ParallelNoMPI.sum_vector v) v
        /\ returns_without_transport (ParallelNoMPI.verify r) true
        /\ returns_without_transport
             (ParallelNoMPI.gather lm d root_id r v) [r]
        /\ returns_without_transport
             (ParallelNoMPI.gather_vector root_id v) v
        /\ returns_without_transport (ParallelNoMPI.allgather d r v) [r]
        /\ returns_without_transport (ParallelNoMPI.allgather_vector v) v
        /\ returns_without_transport (ParallelNoMPI.alltoall v) v
        /\ returns_without_transport (ParallelNoMPI.broadcast r root_id) r
        /\ returns_without_transport
             (ParallelNoMPI.broadcast_vector v root_id) v).
Proof.
  intros HN Hme ->.
  repeat apply conj; intros; repeat apply conj;
    apply Ret_returns_without_transport.
  all: unfold Parallel.min, Parallel.min_bool, Parallel.min_vector,
         Parallel.min_vector_bool, Parallel.max, Parallel.max_bool,
         Parallel.max_vector, Parallel.max_vector_bool, Parallel.sum,
         Parallel.sum_vector, Parallel.verify, Parallel.verify_vector,
         Parallel.verify_string, Parallel.gather, Parallel.gather_vector,
         Parallel.allgather, Parallel.allgather_vector, Parallel.alltoall,
         Parallel.broadcast, Parallel.broadcast_vector,
         Parallel.broadcast_string, ParallelNoMPI.gather,
         ParallelNoMPI.allgather.
  all: rewrite ?HN, ?Hme; simpl; rewrite ?libmesh_assert_true; try done.
  all: simpl; by rewrite vec_set_resize_1.
Qed.

Lemma single_process_identity_witness :
  let lm := {| n_processors := 1; processor_id := 0; NDEBUG := false |} in
  returns_without_transport (Parallel.min lm MPI_INT 5) 5
  /\ returns_without_transport (Parallel.gather lm MPI_INT 0 5 []) [5].
Proof.
  intros lm.
  pose proof (single_process_identity lm MPI_INT 0 eq_refl eq_refl eq_refl)
    as H.
  split; [apply (proj1 H)|]. do 13 apply proj2 in H. apply (proj1 H).
Defined.

(** C9.  In the build without a transport the blocking [send] and [recv]
    abort the process at once ([libmesh_error]), while [isend], [irecv] and
    both [wait]s return with their arguments untouched; none of them calls
    a transport. *)
Theorem no_transport_point_to_point :
  (forall T dest (buf : list T) tag,
     aborts_without_transport (ParallelNoMPI.send dest buf tag))
  /\ (forall T src (buf : list T) tag,
        aborts_without_transport (ParallelNoMPI.recv src buf tag))
  /\ (forall T dest (buf : list T) r tag,
        returns_without_transport (ParallelNoMPI.isend dest buf r tag)
          (buf, r))
  /\ (forall T src (buf : list T) r tag,
        returns_without_transport (ParallelNoMPI.irecv src buf r tag)
          (buf, r))
  /\ (forall r, returns_without_transport (ParallelNoMPI.wait r) r)
  /\ (forall r, returns_without_transport (ParallelNoMPI.wait_vector r) r).
Proof.
  repeat apply conj; intros;
    (by apply Ret_returns_without_transport)
    || by apply Halt_aborts_without_transport.
Qed.

(** ** alltoall *)

Lemma imap_compose {X A B} (f : nat -> A -> B) (g : nat -> X -> A)
    (xs : list X) :
  imap f (imap g xs) = imap (fun i x => f i (g i x)) xs.
Proof.
  apply list_eq. intros i. rewrite !list_lookup_imap.
  by destruct (xs !! i).
Qed.

Lemma collective_Alltoall {X} (sb rb : nat -> X -> list Z) count T
    (xs : list X) :
  xs <> [] ->
  (forall i x, xs !! i = Some x ->
     fits (count * Z.of_nat (length xs)) (sb i x)
     /\ fits (count * Z.of_nat (length xs)) (rb i x)) ->
  collective
    (imap (fun i x => MPI_Alltoall (sb i x) count T (rb i x) count T) xs)
  = Some (imap (fun i x =>
                  ok (write_block (rb i x) 0
                        (concat (imap (fun j y => block count i (sb j y))
                                   xs)))) xs).
Proof.
  intros Hne Hfits.
  transitivity
    (world_Alltoall
       (imap (fun i x => MPI_Alltoall (sb i x) count T (rb i x) count T) xs)).
  { by destruct xs. }
  unfold world_Alltoall.
  rewrite (mapM_imap_Some _ _
             (fun i x => (sb i x, count, T, rb i x, count, T))) by done.
  simpl. destruct (imap _ xs) as [|a args] eqn:E.
  { by destruct xs. }
  destruct (imap_head_inv _ _ _ _ E) as (x0 & _ & ->). rewrite <- E.
  rewrite length_imap. rewrite bool_decide_eq_true_2.
  - f_equal. rewrite imap_compose. apply imap_ext. intros i x Hx. simpl.
    by rewrite fmap_imap.
  - apply Forall_imap. intros i x Hx.
    destruct (Hfits i x Hx). done.
Qed.

Lemma block_concat (K : nat) (bs : list (list Z)) j b :
  Forall (fun b => length b = K) bs -> bs !! j = Some b ->
  block (Z.of_nat K) j (concat bs) = b.
Proof.
  unfold block. rewrite Nat2Z.id. intros Hall. revert j.
  induction Hall as [|b0 bs Hb0 _ IH]; intros j Hj; [done|].
  destruct j as [|j]; cbn [concat].
  - injection Hj as ->. rewrite Nat.mul_0_l, drop_0.
    by rewrite take_app_length'.
  - rewrite drop_app_ge by lia.
    replace (S j * K - length b0)%nat with (j * K)%nat by lia.
    by apply IH.
Qed.

Lemma length_block (K N : nat) i buf :
  length buf = (N * K)%nat -> (i < N)%nat ->
  length (block (Z.of_nat K) i buf) = K.
Proof.
  intros Hlen Hi. unfold block.
  rewrite Nat2Z.id, length_take, length_drop. nia.
Qed.

Lemma write_block_all buf blk :
  length blk = length buf -> write_block buf 0 blk = blk.
Proof.
  intros Hlen. unfold write_block. simpl.
  rewrite Hlen, drop_all. apply app_nil_r.
Qed.

(** C6, as stated: "the block received from peer [j] equals the block this
    process had originally placed at position [j]".  On two processes
    holding [1; 2] and [3; 4], rank 0 ends with [1; 3]: the block it
    received from peer 1 is [3], the block it had placed at position 1 was
    [2]. *)
Lemma alltoall_blocks_kept_counterexample :
  exists outs,
    run (spmd false (fun lm buf => Parallel.alltoall lm MPI_INT buf)
           [[1; 2]; [3; 4]]) = Some outs
    /\ ~ blocks_kept 1 [[1; 2]; [3; 4]] outs.
Proof.
  exists [[1; 3]; [2; 4]]. split; [reflexivity|].
  intros H. specialize (H 0%nat 1%nat [1; 2] [1; 3] eq_refl eq_refl).
  simpl in H. specialize (H ltac:(lia)). discriminate H.
Qed.

(** C6, as amended.  On a world of [N] processes whose buffers all have
    [N * K] elements, [alltoall] leaves on every rank a buffer of [N * K]
    elements whose block [j] is block [i] of the old buffer of rank [j]
    ([i] the rank itself): a block transpose.  In a debug build a buffer
    whose size is not a multiple of the process count aborts before any
    call into the transport. *)
Theorem alltoall_transpose ndebug T (bufs : list (list Z)) (K : nat) :
  bufs <> [] ->
  Forall (fun buf => length buf = (length bufs * K)%nat) bufs ->
  Z.of_nat K < 2 ^ 31 ->
  (exists outs,
     run (spmd ndebug (fun lm buf => Parallel.alltoall lm T buf) bufs)
     = Some outs
     /\ Forall (fun out => length out = (length bufs * K)%nat) outs
     /\ blocks_transposed (Z.of_nat K) bufs outs)
  /\ (forall lm buf,
        NDEBUG lm = false ->
        vec_size buf mod n_processors lm <> 0 ->
        aborts_without_transport (Parallel.alltoall lm T buf)).
Proof.
  intros Hne Hall HK. split.
  2:{ intros lm buf Hdebug Hmod. apply Halt_aborts_without_transport.
      unfold Parallel.alltoall, libmesh_assert.
      destruct (Z.eqb_spec (n_processors lm) 1) as [E|_];
        [by rewrite E, Z.mod_1_r in Hmod|].
      rewrite Hdebug.
      destruct (Z.eqb_spec (vec_size buf mod n_processors lm) 0); done. }
  set (N := length bufs) in *.
  assert (0 < N)%nat as HNpos by (subst N; destruct bufs; simpl; [done|lia]).
  unfold spmd. destruct (Z.eqb_spec (vec_size bufs) 1) as [H1|H1].
  - exists bufs. split; [|split; [done|]].
    + rewrite (run_spmd_ret _ (fun _ buf => buf)); 
        [by rewrite (imap_const id), list_fmap_id|done|].
      intros i buf Hbuf. unfold Parallel.alltoall. simpl. by rewrite H1.
    + assert (N = 1%nat) as HN1 by (unfold vec_size in H1; lia).
      intros i j buf out Hbuf Hout.
      apply lookup_lt_Some in Hbuf as Hj. apply lookup_lt_Some in Hout as Hi.
      fold N in Hi, Hj. replace i with 0%nat in * by lia.
      replace j with 0%nat in * by lia. congruence.
  - assert (forall i buf, bufs !! i = Some buf ->
              to_int (to_unsigned_int (vec_size buf / vec_size bufs))
              = Z.of_nat K) as Hcount.
    { intros i buf Hbuf. unfold vec_size. fold N.
      rewrite (Forall_lookup_1 _ _ _ _ Hall Hbuf).
      rewrite Nat2Z.inj_mul, Z.mul_comm, Z.div_mul by lia.
      rewrite to_unsigned_int_small, to_int_small by lia. done. }
    eexists. split; [|split].
    + rewrite (run_spmd_step _
                 (fun i buf => MPI_Alltoall buf (Z.of_nat K) T buf
                                 (Z.of_nat K) T)
                 (fun i buf reply =>
                    _ ← libmesh_assert
                          {| n_processors := vec_size bufs;
                             processor_id := Z.of_nat i;
                             NDEBUG := ndebug |}
                          (ierr reply =? MPI_SUCCESS);
                    mret (recvd reply))
                 (fun i buf =>
                    ok (write_block buf 0
                          (concat (imap (fun j y => block (Z.of_nat K) i y)
                                     bufs))))).
      * apply (run_spmd_ret _
                 (fun i buf =>
                    write_block buf 0
                      (concat (imap (fun j y => block (Z.of_nat K) i y)
                                 bufs)))); [done|].
        intros i buf Hbuf. simpl. by rewrite libmesh_assert_true.
      * intros i buf Hbuf. unfold Parallel.alltoall. simpl.
        destruct (Z.eqb_spec (vec_size bufs) 1); [done|].
        rewrite (Hcount i buf Hbuf).
        replace (vec_size buf mod vec_size bufs =? 0) with true.
        { by rewrite libmesh_assert_true. }
        symmetry. apply Z.eqb_eq. unfold vec_size. fold N.
        rewrite (Forall_lookup_1 _ _ _ _ Hall Hbuf).
        rewrite Nat2Z.inj_mul, Z.mul_comm. apply Z.mod_mul. lia.
      * apply collective_Alltoall; [done|].
        intros i buf Hbuf. unfold fits, vec_size. fold N.
        rewrite (Forall_lookup_1 _ _ _ _ Hall Hbuf). lia.
    + apply Forall_imap. intros i buf Hbuf.
      apply lookup_lt_Some in Hbuf as Hi. fold N in Hi.
      pose proof (Forall_lookup_1 _ _ _ _ Hall Hbuf) as Hlen. simpl in Hlen.
      assert (length (concat (imap (fun j y => block (Z.of_nat K) i y) bufs))
              = (N * K)%nat) as Hblk.
      { rewrite length_concat, fmap_imap.
        rewrite (imap_ext _ (fun _ _ => K)).
        2:{ intros j y Hy. simpl. apply (length_block K N); [|done].
            by apply (Forall_lookup_1 _ _ _ _ Hall Hy). }
        rewrite imap_const_replicate. fold N.
        rewrite sum_list_replicate. lia. }
      rewrite write_block_all by lia. done.
    + intros i j buf out Hbuf Hout.
      rewrite list_lookup_imap in Hout.
      destruct (bufs !! i) as [bufi|] eqn:Hbufi; [|done].
      injection Hout as <-.
      apply lookup_lt_Some in Hbufi as Hi. fold N in Hi.
      assert (Forall (fun b => length b = K)
                (imap (fun j y => block (Z.of_nat K) i y) bufs)) as Hblocks.
      { apply Forall_imap. intros j' y Hy. apply (length_block K N); [|done].
        by apply (Forall_lookup_1 _ _ _ _ Hall Hy). }
      rewrite write_block_all.
      * apply (block_concat K); [done|].
        by rewrite list_lookup_imap, Hbuf.
      * rewrite (Forall_lookup_1 _ _ _ _ Hall Hbufi).
        rewrite length_concat, fmap_imap.
        rewrite (imap_ext _ (fun _ _ => K)).
        2:{ intros j' y Hy. simpl. apply (length_block K N); [|done].
            by apply (Forall_lookup_1 _ _ _ _ Hall Hy). }
        rewrite imap_const_replicate. fold N.
        rewrite sum_list_replicate. lia.
Qed.

Lemma alltoall_transpose_witness :
  exists outs,
    run (spmd false (fun lm buf => Parallel.alltoall lm MPI_INT buf)
           [[1; 2]; [3; 4]]) = Some outs
    /\ Forall (fun out => length out = 2%nat) outs
    /\ blocks_transposed 1 [[1; 2]; [3; 4]] outs.
Proof.
  apply (alltoall_transpose false MPI_INT [[1; 2]; [3; 4]] 1).
  - done.
  - repeat constructor.
  - reflexivity.
Defined.


(** ** Sequencing in a world *)

Lemma mapM_returned_inv {A} (others : list (Par A)) rs :
  mapM returned others = Some rs -> others = Ret <$> rs.
Proof.
  intros H%mapM_Some. induction H as [|p r others rs Hp _ IH]; [done|].
  destruct p; try done. simpl in Hp. injection Hp as ->.
  by rewrite fmap_cons, IH.
Qed.

Lemma mapM_calling_bind {A B} (others : list (Par A)) cks
    (fs : list (A -> Par B)) :
  mapM calling others = Some cks ->
  mapM calling (zip_with (fun m f => Par_bind f m) others fs)
  = Some (zip_with (fun ck f => (ck.1, fun r => Par_bind f (ck.2 r))) cks fs).
Proof.
  intros H%mapM_Some. apply mapM_Some. revert fs.
  induction H as [|p [c k] others cks Hp _ IH]; intros fs; [constructor|].
  destruct fs as [|f fs]; [constructor|].
  destruct p; try done. simpl in Hp. injection Hp as -> ->.
  constructor; [done|apply IH].
Qed.

Lemma run_from_bind {A B} (p : Par A) :
  forall (others : list (Par A)) (f : A -> Par B) (fs : list (A -> Par B))
         v vs,
    (length others <= length fs)%nat ->
    run_from p others = Some (v :: vs) ->
    run_from (Par_bind f p) (zip_with (fun m f => Par_bind f m) others fs)
    = run_from (f v) (zip_with (fun f v => f v) fs vs).
Proof.
  induction p as [a| |c k IH]; intros others f fs v vs Hlen Hrun.
  - simpl in Hrun. destruct (mapM returned others) as [rs|] eqn:E; [|done].
    injection Hrun as -> ->. apply mapM_returned_inv in E as ->.
    simpl. f_equal. clear. revert fs.
    induction vs as [|v vs IH]; intros [|f fs]; simpl; try done.
    by rewrite IH.
  - done.
  - cbn [run_from] in Hrun.
    destruct (mapM calling others) as [cks|] eqn:E; [|done].
    destruct (collective (c :: cks.*1)) as [[|r rs]|] eqn:Ec; try done.
    cbn [Par_bind run_from]. rewrite (mapM_calling_bind _ _ fs E).
    assert ((zip_with (fun ck f => (ck.1, fun r => Par_bind f (ck.2 r)))
               cks fs).*1 = cks.*1) as ->.
    { apply length_mapM in E. rewrite E in Hlen. clear -Hlen.
      revert fs Hlen. induction cks as [|ck cks IH]; intros [|f fs] Hlen;
        simpl in *; try done; [lia|]. f_equal. apply IH. lia. }
    rewrite Ec.
    rewrite <- (IH r (zip_with (fun ck r => ck.2 r) cks rs) f fs v vs).
    + f_equal. clear. revert fs rs.
      induction cks as [|ck cks IH]; intros [|f fs] [|r rs]; simpl; try done.
      by rewrite IH.
    + rewrite length_zip_with. apply length_mapM in E. lia.
    + done.
Qed.

Lemma run_spmd_bind {X A B} (m : nat -> X -> Par A)
    (f : nat -> X -> A -> Par B) (v : nat -> X -> A) (xs : list X) :
  run (imap m xs) = Some (imap v xs) ->
  run (imap (fun i x => Par_bind (f i x) (m i x)) xs)
  = run (imap (fun i x => f i x (v i x)) xs).
Proof.
  destruct xs as [|x xs]; [done|]. rewrite !imap_cons. cbn [run].
  intros Hrun.
  assert (imap ((fun i x => Par_bind (f i x) (m i x)) ∘ S) xs
          = zip_with (fun m f => Par_bind f m)
              (imap (m ∘ S) xs) (imap (f ∘ S) xs)) as ->.
  { apply list_eq. intros i.
    rewrite lookup_zip_with, !list_lookup_imap. by destruct (xs !! i). }
  assert (length (imap (m ∘ S) xs) <= length (imap (f ∘ S) xs))%nat as Hlen
    by (by rewrite !length_imap).
  rewrite (run_from_bind _ _ _ _ _ _ Hlen Hrun).
  f_equal. apply list_eq. intros i.
  rewrite lookup_zip_with, !list_lookup_imap. by destruct (xs !! i).
Qed.

(** ** broadcast *)

Lemma collective_Bcast {X} (buf : nat -> X -> list Z) count T root
    (r : nat) (xroot : X) (xs : list X) :
  xs !! r = Some xroot -> root = Z.of_nat r ->
  (forall i x, xs !! i = Some x -> fits count (buf i x)) ->
  collective (imap (fun i x => MPI_Bcast (buf i x) count T root) xs)
  = Some (imap (fun i x =>
                  ok (message (buf r xroot) count
                      ++ drop (Z.to_nat count) (buf i x))) xs).
Proof.
  intros Hroot -> Hfits.
  assert (xs <> []) as Hne by (intros ->; done).
  transitivity
    (world_Bcast (imap (fun i x => MPI_Bcast (buf i x) count T (Z.of_nat r))
                    xs)).
  { by destruct xs. }
  unfold world_Bcast.
  rewrite (mapM_imap_Some _ _ (fun i x => (buf i x, count, T, Z.of_nat r)))
    by done.
  simpl. destruct (imap _ xs) as [|a args] eqn:E.
  { by destruct xs. }
  destruct (imap_head_inv _ _ _ _ E) as (x0 & _ & ->). rewrite <- E.
  rewrite Nat2Z.id, list_lookup_imap, Hroot. simpl.
  rewrite bool_decide_eq_true_2.
  - f_equal. by rewrite fmap_imap.
  - split; [lia|]. apply Forall_imap. intros i x Hx.
    repeat split; try done; by apply (Hfits i x).
Qed.

Section Broadcast.
Context {X : Type}.
Variable lm : nat -> libMesh.
Hypothesis several : forall i, n_processors (lm i) <> 1.
Variable T : data_type.
Variable root : nat.
Hypothesis root_int : Z.of_nat root < 2 ^ 31.
Variable xs : list X.
Variable xroot : X.
Hypothesis root_rank : xs !! root = Some xroot.

Lemma run_broadcast (data : nat -> X -> Z) :
  run (imap (fun i x =>
               Parallel.broadcast (lm i) T (data i x) (Z.of_nat root)) xs)
  = Some (imap (fun _ _ => data root xroot) xs).
Proof.
  assert (xs <> []) as Hne by (intros E; by rewrite E in root_rank).
  rewrite (run_spmd_step _
             (fun i x => MPI_Bcast [data i x] 1 T (Z.of_nat root))
             (fun i x reply =>
                _ ← libmesh_assert (lm i) (ierr reply =? MPI_SUCCESS);
                mret (vec_get (data i x) (recvd reply) 0))
             (fun i x =>
                ok (message [data root xroot] 1
                    ++ drop (Z.to_nat 1) [data i x]))).
  - apply run_spmd_ret; [done|]. intros i x Hx. simpl.
    by rewrite libmesh_assert_true.
  - intros i x Hx. unfold Parallel.broadcast.
    destruct (Z.eqb_spec (n_processors (lm i)) 1) as [E|_];
      [by apply several in E|].
    by rewrite to_int_small by lia.
  - apply (collective_Bcast (fun i x => [data i x]) 1 T _ root xroot);
      [done|done|]. intros. apply fits_singleton.
Qed.

Lemma run_broadcast_vector (data : nat -> X -> list Z) (n : nat) :
  (forall i x, xs !! i = Some x -> length (data i x) = n) ->
  Z.of_nat n < 2 ^ 31 ->
  run (imap (fun i x =>
               Parallel.broadcast_vector (lm i) T (data i x)
                 (Z.of_nat root)) xs)
  = Some (imap (fun _ _ => data root xroot) xs).
Proof.
  intros Hlen Hn.
  assert (xs <> []) as Hne by (intros E; by rewrite E in root_rank).
  rewrite (run_spmd_step _
             (fun i x => MPI_Bcast (data i x) (Z.of_nat n) T
                           (Z.of_nat root))
             (fun i x reply =>
                _ ← libmesh_assert (lm i) (ierr reply =? MPI_SUCCESS);
                mret (recvd reply))
             (fun i x =>
                ok (message (data root xroot) (Z.of_nat n)
                    ++ drop (Z.to_nat (Z.of_nat n)) (data i x)))).
  - apply run_spmd_ret; [done|]. intros i x Hx. simpl.
    rewrite libmesh_assert_true. simpl. f_equal.
    rewrite message_all by (unfold vec_size; by rewrite (Hlen root xroot)).
    rewrite Nat2Z.id, drop_ge by (by rewrite (Hlen i x)).
    apply app_nil_r.
  - intros i x Hx. unfold Parallel.broadcast_vector.
    destruct (Z.eqb_spec (n_processors (lm i)) 1) as [E|_];
      [by apply several in E|].
    unfold vec_size. rewrite (Hlen i x Hx).
    by rewrite !to_int_small by lia.
  - apply (collective_Bcast data (Z.of_nat n) T _ root xroot);
      [done|done|].
    intros i x Hx. unfold fits, vec_size. rewrite (Hlen i x Hx). lia.
Qed.
End Broadcast.

Lemma fill_loop {A} (f : A -> Z) (d : A) (data : list A) (init : list Z) :
  length init = length data ->
  for_loop (length data) 0
    (fun i acc => vec_set acc i (f (vec_get d data i))) init
  = f <$> data.
Proof.
  intros Hinit.
  cut (length (for_loop (length data) 0
                 (fun i acc => vec_set acc i (f (vec_get d data i))) init)
       = length data
       /\ forall j : nat, Z.of_nat j < Z.of_nat (length data) ->
            for_loop (length data) 0
              (fun i acc => vec_set acc i (f (vec_get d data i))) init !! j
            = f <$> data !! j).
  { intros [Hlen Hall]. apply list_eq_same_length with (length data);
      [by rewrite length_fmap|done|].
    intros i x y Hi Hx Hy. rewrite Hall in Hx by lia.
    rewrite list_lookup_fmap in Hy. congruence. }
  apply (for_loop_invariant0
           (fun i acc =>
              length acc = length data
              /\ forall j : nat, Z.of_nat j < i -> acc !! j = f <$> data !! j)).
  - split; [done|]. intros j Hj. lia.
  - intros i acc Hi [Hlen Hdone]. unfold vec_set.
    split; [by rewrite length_insert|]. intros j Hj.
    destruct (decide (Z.to_nat i = j)) as [<-|Hne].
    + rewrite list_lookup_insert_eq by lia. rewrite vec_get_lookup.
      destruct (lookup_lt_is_Some_2 data (Z.to_nat i)) as [x ->]; [lia|done].
    + rewrite list_lookup_insert_ne by done. apply Hdone. lia.
Qed.

Lemma string_eqb_refl s : Parallel.string_eqb s s = true.
Proof.
  unfold Parallel.string_eqb. rewrite Nat.eqb_refl. simpl.
  induction s as [|c s IH]; [done|]. simpl. by rewrite Ascii.eqb_refl.
Qed.

Lemma broadcast_string_unfold lm data root_id :
  n_processors lm <> 1 ->
  Parallel.broadcast_string lm data root_id
  = Par_bind
      (fun data_size =>
         Par_bind (broadcast_string_finish lm data root_id)
           (Parallel.broadcast_vector lm MPI_CHAR
              (broadcast_string_bytes lm data root_id data_size) root_id))
      (Parallel.broadcast lm MPI_UNSIGNED (to_unsigned_int (vec_size data))
         root_id).
Proof.
  intros HN. unfold Parallel.broadcast_string.
  destruct (Z.eqb_spec (n_processors lm) 1); [done|]. reflexivity.
Qed.

Lemma length_broadcast_string_bytes lm data root_id data_size :
  length (broadcast_string_bytes lm data root_id data_size)
  = Z.to_nat data_size.
Proof.
  unfold broadcast_string_bytes.
  assert (length (vec_resize 0 [] data_size) = Z.to_nat data_size) as Hl
    by apply length_resize.
  destruct (processor_id lm =? root_id); [|done].
  rewrite <- Hl.
  apply (for_loop_invariant0
           (fun _ acc => length acc = length (vec_resize 0 [] data_size)));
    [done|].
  intros i acc _ Hacc. by rewrite length_vec_set.
Qed.

(** C7.  [broadcast] of a string from rank [root] leaves the string of the
    root on every rank, whatever the other ranks held before.  On more than
    one process the function first broadcasts the length as one
    [unsigned int], then broadcasts a [char] buffer that it has resized to
    the length it received. *)
Theorem broadcast_string_from_root ndebug (ss : list (list ascii))
    (root : nat) (s : list ascii) :
  ss !! root = Some s ->
  vec_size ss < 2 ^ 31 ->
  vec_size s < 2 ^ 31 ->
  run (spmd ndebug
         (fun lm data => Parallel.broadcast_string lm data (Z.of_nat root))
         ss)
  = Some (replicate (length ss) s)
  /\ forall lm data root_id,
       n_processors lm <> 1 ->
       exists k,
         Parallel.broadcast_string lm data root_id
         = Transport
             (MPI_Bcast [to_unsigned_int (vec_size data)] 1 MPI_UNSIGNED
                (to_int root_id)) k
         /\ forall reply,
              ierr reply = MPI_SUCCESS ->
              exists data_c k',
                k reply
                = Transport
                    (MPI_Bcast data_c (to_int (vec_size data_c)) MPI_CHAR
                       (to_int root_id)) k'
                /\ length data_c
                   = Z.to_nat
                       (vec_get (to_unsigned_int (vec_size data))
                          (recvd reply) 0).
Proof.
  intros Hroot HN Hs. split.
  2:{ intros lm data root_id Hlm. eexists. split.
      - rewrite broadcast_string_unfold by done.
        unfold Parallel.broadcast.
        destruct (Z.eqb_spec (n_processors lm) 1); [done|]. reflexivity.
      - intros [e rv] He. simpl in He. subst e. simpl.
        rewrite libmesh_assert_true. simpl.
        unfold Parallel.broadcast_vector.
        destruct (Z.eqb_spec (n_processors lm) 1); [done|].
        eexists _, _. split; [reflexivity|].
        apply length_broadcast_string_bytes. }
  apply lookup_lt_Some in Hroot as Hlt.
  assert (ss <> []) as Hne by (intros E; by rewrite E in Hroot).
  unfold spmd. destruct (Z.eqb_spec (vec_size ss) 1) as [H1|H1].
  - destruct ss as [|s0 [|]]; try done; [|unfold vec_size in H1; simpl in *; lia].
    destruct root as [|root]; [|simpl in Hlt; lia].
    injection Hroot as ->. simpl. unfold Parallel.broadcast_string. simpl.
    by rewrite libmesh_assert_true.
  - set (lm := fun i : nat =>
                 {| n_processors := vec_size ss;
                    processor_id := Z.of_nat i;
                    NDEBUG := ndebug |}).
    assert (Z.of_nat root < 2 ^ 31) as Hroot_int
      by (unfold vec_size in HN; lia).
    rewrite (imap_ext _ (fun i data =>
               Par_bind
                 (fun data_size =>
                    Par_bind
                      (broadcast_string_finish (lm i) data (Z.of_nat root))
                      (Parallel.broadcast_vector (lm i) MPI_CHAR
                         (broadcast_string_bytes (lm i) data (Z.of_nat root)
                            data_size) (Z.of_nat root)))
                 (Parallel.broadcast (lm i) MPI_UNSIGNED
                    (to_unsigned_int (vec_size data)) (Z.of_nat root))))
      by (intros; by apply broadcast_string_unfold).
    rewrite (run_spmd_bind _ _ _ _
               (run_broadcast lm (fun _ => H1) MPI_UNSIGNED root Hroot_int
                  ss s Hroot
                  (fun _ data => to_unsigned_int (vec_size data)))).
    rewrite (to_unsigned_int_small (vec_size s))
      by (unfold vec_size in *; lia).
    assert (forall i data, ss !! i = Some data ->
              length (broadcast_string_bytes (lm i) data (Z.of_nat root)
                        (vec_size s)) = length s) as Hbytes.
    { intros. rewrite length_broadcast_string_bytes. unfold vec_size. lia. }
    rewrite (run_spmd_bind _ _ _ _
               (run_broadcast_vector lm (fun _ => H1) MPI_CHAR root
                  Hroot_int ss s Hroot
                  (fun i data =>
                     broadcast_string_bytes (lm i) data (Z.of_nat root)
                       (vec_size s))
                  (length s) Hbytes Hs)).
    assert (broadcast_string_bytes (lm root) s (Z.of_nat root) (vec_size s)
            = Parallel.Z_of_char <$> s) as ->.
    { unfold broadcast_string_bytes. simpl. rewrite Z.eqb_refl.
      apply fill_loop. unfold vec_size, vec_resize.
      rewrite length_resize. lia. }
    rewrite (run_spmd_ret _ (fun _ _ => s)); [by rewrite imap_const_replicate|done|].
    intros i data Hdata. unfold broadcast_string_finish.
    rewrite push_back_loop, <- list_fmap_compose.
    rewrite (list_fmap_ext (Parallel.char_of_Z ∘ Parallel.Z_of_char) id s)
      by (intros; apply char_of_Z_of_char).
    rewrite list_fmap_id.
    destruct (Z.eqb_spec (processor_id (lm i)) (Z.of_nat root)) as [E|_];
      [|done].
    simpl in E. apply Nat2Z.inj in E. subst i.
    assert (data = s) as -> by congruence.
    by rewrite string_eqb_refl, libmesh_assert_true.
Qed.

Lemma broadcast_string_from_root_witness :
  run (spmd false
         (fun lm data => Parallel.broadcast_string lm data 1)
         [["x"%char]; ["h"%char; "i"%char]; []])
  = Some (replicate 3 ["h"%char; "i"%char]).
Proof.
  apply (broadcast_string_from_root false
           [["x"%char]; ["h"%char; "i"%char]; []] 1 ["h"%char; "i"%char]).
  - reflexivity.
  - reflexivity.
  - reflexivity.
Defined.


(** ** gather *)

Lemma collective_Allgather {X} (sb rb : nat -> X -> list Z) count T
    (xs : list X) :
  xs <> [] ->
  (forall i x, xs !! i = Some x ->
     fits count (sb i x)
     /\ fits (count * Z.of_nat (length xs)) (rb i x)) ->
  collective
    (imap (fun i x => MPI_Allgather (sb i x) count T (rb i x) count T) xs)
  = Some (imap (fun i x =>
                  ok (write_block (rb i x) 0
                        (concat (imap (fun j y => message (sb j y) count)
                                   xs)))) xs).
Proof.
  intros Hne Hfits.
  transitivity
    (world_Allgather
       (imap (fun i x => MPI_Allgather (sb i x) count T (rb i x) count T)
          xs)).
  { by destruct xs. }
  unfold world_Allgather.
  rewrite (mapM_imap_Some _ _
             (fun i x => (sb i x, count, T, rb i x, count, T))) by done.
  simpl. destruct (imap _ xs) as [|a args] eqn:E.
  { by destruct xs. }
  destruct (imap_head_inv _ _ _ _ E) as (x0 & _ & ->). rewrite <- E.
  rewrite length_imap. rewrite bool_decide_eq_true_2.
  - f_equal. rewrite fmap_imap. apply imap_ext. intros i x Hx. simpl.
    by rewrite fmap_imap.
  - apply Forall_imap. intros i x Hx.
    destruct (Hfits i x Hx). done.
Qed.

Lemma collective_Gatherv {X} (sb rb : nat -> X -> list Z) (sc : nat -> X -> Z)
    (rc dp : list Z) T root (r : nat) (xroot : X) (xs : list X) :
  xs !! r = Some xroot -> root = Z.of_nat r ->
  receives (rb r xroot) rc dp (imap (fun i x => (sb i x, sc i x)) xs) ->
  collective
    (imap (fun i x => MPI_Gatherv (sb i x) (sc i x) T (rb i x) rc dp T root)
       xs)
  = Some (imap (fun i x =>
                  ok (if bool_decide (i = r)
                      then place_blocks (rb i x) dp
                             (imap (fun j y => message (sb j y) (sc j y)) xs)
                      else rb i x)) xs).
Proof.
  intros Hroot -> Hrecv.
  assert (xs <> []) as Hne by (intros ->; done).
  transitivity
    (world_Gatherv
       (imap (fun i x =>
                MPI_Gatherv (sb i x) (sc i x) T (rb i x) rc dp T
                  (Z.of_nat r)) xs)).
  { by destruct xs. }
  unfold world_Gatherv.
  rewrite (mapM_imap_Some _ _
             (fun i x => (sb i x, sc i x, T, rb i x, rc, dp, T, Z.of_nat r)))
    by done.
  simpl.
  destruct (imap (fun i x =>
                    (sb i x, sc i x, T, rb i x, rc, dp, T, Z.of_nat r)) xs)
    as [|a args] eqn:E.
  { by destruct xs. }
  destruct (imap_head_inv _ _ _ _ E) as (x0 & _ & ->). rewrite <- E.
  rewrite Nat2Z.id, list_lookup_imap, Hroot. simpl.
  rewrite !fmap_imap. simpl.
  rewrite bool_decide_eq_true_2.
  - f_equal. rewrite imap_compose. done.
  - split; [lia|]. split; [done|]. split; [done|].
    apply Forall_imap. done.
Qed.

Lemma prefix_sums_snoc start ls l :
  prefix_sums start (ls ++ [l]) = prefix_sums start ls ++ [start + sumZ ls].
Proof.
  revert start. induction ls as [|l' ls IH]; intros start; simpl.
  - by rewrite Z.add_0_r.
  - rewrite IH. do 3 f_equal. lia.
Qed.

Lemma length_prefix_sums start ls : length (prefix_sums start ls) = length ls.
Proof.
  revert start. induction ls as [|l ls IH]; intros start; simpl; [done|].
  by rewrite IH.
Qed.

Lemma sumZ_app ls1 ls2 : sumZ (ls1 ++ ls2) = sumZ ls1 + sumZ ls2.
Proof. induction ls1 as [|l ls1 IH]; simpl; [done|]. rewrite IH. lia. Qed.

Lemma sumZ_nonneg ls : Forall (fun l => 0 <= l) ls -> 0 <= sumZ ls.
Proof. induction 1; simpl; lia. Qed.

Lemma sumZ_take_le ls n :
  Forall (fun l => 0 <= l) ls -> 0 <= sumZ (take n ls) <= sumZ ls.
Proof.
  intros Hall. rewrite <- (take_drop n ls) at 3. rewrite sumZ_app.
  pose proof (sumZ_nonneg (take n ls) (Forall_take _ _ _ Hall)).
  pose proof (sumZ_nonneg (drop n ls) (Forall_drop _ _ _ Hall)). lia.
Qed.

Lemma sumZ_lengths (vs : list (list Z)) :
  sumZ (vec_size <$> vs) = vec_size (concat vs).
Proof.
  induction vs as [|v vs IH]; [done|].
  rewrite fmap_cons. cbn [sumZ foldr concat]. fold (sumZ (vec_size <$> vs)).
  rewrite IH. unfold vec_size. rewrite length_app. lia.
Qed.

Lemma displacements_loop_spec lm (ls : list Z) :
  n_processors lm = vec_size ls ->
  Forall (fun l => 0 <= l) ls ->
  sumZ ls < 2 ^ 31 ->
  Parallel.displacements_loop lm ls (replicate (length ls) 0)
  = (prefix_sums 0 ls, sumZ ls).
Proof.
  intros HN Hall Hsum. unfold Parallel.displacements_loop.
  rewrite HN. unfold vec_size. rewrite Nat2Z.id.
  cut (let '(d, g) :=
         for_loop (length ls) 0
           (fun i '(displacements, globalsize) =>
              (vec_set displacements i (to_int globalsize),
               to_unsigned_int (globalsize + vec_get 0 ls i)))
           (replicate (length ls) 0, 0) in
       g = sumZ (take (Z.to_nat (Z.of_nat (length ls))) ls)
       /\ d = prefix_sums 0 (take (Z.to_nat (Z.of_nat (length ls))) ls)
              ++ replicate (length ls - Z.to_nat (Z.of_nat (length ls))) 0).
  { destruct (for_loop _ _ _ _) as [d g].
    rewrite Nat2Z.id, firstn_all, Nat.sub_diag. simpl replicate.
    rewrite app_nil_r. by intros [-> ->]. }
  apply (for_loop_invariant0
           (fun i '(d, g) =>
              g = sumZ (take (Z.to_nat i) ls)
              /\ d = prefix_sums 0 (take (Z.to_nat i) ls)
                     ++ replicate (length ls - Z.to_nat i) 0)).
  - simpl. by rewrite Nat.sub_0_r.
  - intros i [d g] Hi [-> ->].
    destruct (lookup_lt_is_Some_2 ls (Z.to_nat i)) as [l Hl]; [lia|].
    pose proof (sumZ_take_le ls (Z.to_nat i) Hall) as Hle.
    pose proof (sumZ_take_le ls (S (Z.to_nat i)) Hall) as Hle'.
    replace (Z.to_nat (i + 1)) with (S (Z.to_nat i)) by lia.
    rewrite (take_S_r _ _ _ Hl) in *. rewrite sumZ_app in *.
    simpl in Hle' |- *. rewrite Z.add_0_r in *.
    rewrite vec_get_lookup, Hl. simpl.
    split; [apply to_unsigned_int_small; lia|].
    rewrite to_int_small by lia. rewrite prefix_sums_snoc.
    unfold vec_set. rewrite insert_app_r_alt
      by (rewrite length_prefix_sums, length_take; lia).
    rewrite length_prefix_sums, length_take.
    replace (Z.to_nat i - Z.to_nat i `min` length ls)%nat with 0%nat by lia.
    replace (length ls - Z.to_nat i)%nat
      with (S (length ls - S (Z.to_nat i)))%nat by lia.
    simpl. by rewrite <- app_assoc.
Qed.

Lemma place_blocks_concat (msgs : list (list Z)) :
  forall pre junk,
    length junk = length (concat msgs) ->
    place_blocks (pre ++ junk)
      (prefix_sums (vec_size pre) (vec_size <$> msgs)) msgs
    = pre ++ concat msgs.
Proof.
  induction msgs as [|m msgs IH]; intros pre junk Hjunk; simpl in *.
  - destruct junk; [done|simpl in *; lia].
  - rewrite length_app in Hjunk.
    assert (write_block (pre ++ junk) (vec_size pre) m
            = (pre ++ m) ++ drop (length m) junk) as ->.
    { unfold write_block, vec_size. rewrite Nat2Z.id.
      rewrite take_app_length, drop_app_ge by lia.
      replace (length pre + length m - length pre)%nat with (length m) by lia.
      by rewrite <- app_assoc. }
    replace (vec_size pre + vec_size m) with (vec_size (pre ++ m))
      by (unfold vec_size; rewrite length_app; lia).
    rewrite IH by (rewrite length_drop; lia).
    by rewrite <- app_assoc.
Qed.

Lemma concat_singletons {X} (f : nat -> X -> Z) (xs : list X) :
  concat (imap (fun j y => message [f j y] 1) xs) = imap f xs.
Proof.
  revert f. induction xs as [|x xs IH]; intros f; [done|].
  rewrite !imap_cons. simpl. f_equal. apply IH.
Qed.

Lemma run_allgather {X} (lm : nat -> libMesh) T (send : nat -> X -> Z)
    (recv : nat -> X -> list Z) (xs : list X) :
  (1 < length xs)%nat ->
  (forall i, n_processors (lm i) = vec_size xs) ->
  run (imap (fun i x => Parallel.allgather (lm i) T (send i x) (recv i x)) xs)
  = Some (imap (fun _ _ => imap send xs) xs).
Proof.
  intros HN Hlm.
  assert (xs <> []) as Hne by (intros ->; simpl in HN; lia).
  rewrite (run_spmd_step _
             (fun i x => MPI_Allgather [send i x] 1 T
                           (vec_resize 0 (recv i x) (vec_size xs)) 1 T)
             (fun i x reply => Ret (recvd reply))
             (fun i x =>
                ok (write_block (vec_resize 0 (recv i x) (vec_size xs)) 0
                      (concat (imap (fun j y => message [send j y] 1) xs))))).
  - apply run_spmd_ret; [done|]. intros i x Hx. simpl. f_equal.
    rewrite concat_singletons. apply write_block_all.
    unfold vec_resize, vec_size.
    by rewrite length_imap, length_resize, Nat2Z.id.
  - intros i x Hx. unfold Parallel.allgather. rewrite Hlm.
    replace (vec_size xs >? 1) with true by (unfold vec_size; lia). done.
  - apply collective_Allgather; [done|]. intros i x Hx. split.
    + apply fits_singleton.
    + unfold fits, vec_size, vec_resize. rewrite length_resize. lia.
Qed.

Lemma gather_vector_unfold lm T root_id r :
  n_processors lm <> 1 ->
  Parallel.gather_vector lm T root_id r
  = Par_bind (gather_vector_rest lm T root_id r)
      (Parallel.allgather lm MPI_INT (to_int (vec_size r))
         (replicate (Z.to_nat (n_processors lm)) 0)).
Proof.
  intros HN. unfold Parallel.gather_vector.
  destruct (Z.eqb_spec (n_processors lm) 1); [done|]. reflexivity.
Qed.

Lemma receives_prefix_sums_from (vs : list (list Z)) (buf : list Z) :
  forall start,
    0 <= start ->
    start + vec_size (concat vs) <= vec_size buf ->
    Forall (fun '((sendbuf, sendcount), (recvcount, displ)) =>
              sendcount = recvcount /\ fits sendcount sendbuf
              /\ 0 <= displ /\ displ + recvcount <= vec_size buf)
      (zip ((fun v => (v, vec_size v)) <$> vs)
         (zip (vec_size <$> vs) (prefix_sums start (vec_size <$> vs)))).
Proof.
  induction vs as [|v vs IH]; intros start Hstart Hfit; [constructor|].
  rewrite !fmap_cons. cbn [prefix_sums zip zip_with].
  assert (vec_size (concat (v :: vs)) = vec_size v + vec_size (concat vs))
    as Hcat by (unfold vec_size; simpl; rewrite length_app; lia).
  assert (0 <= vec_size v /\ 0 <= vec_size (concat vs))
    by (unfold vec_size; lia).
  constructor.
  - unfold fits. lia.
  - apply IH; lia.
Qed.

Lemma receives_prefix_sums (vs : list (list Z)) (buf : list Z) :
  vec_size buf = vec_size (concat vs) ->
  receives buf (vec_size <$> vs) (prefix_sums 0 (vec_size <$> vs))
    ((fun v => (v, vec_size v)) <$> vs).
Proof.
  intros Hbuf. unfold receives.
  rewrite length_prefix_sums, !length_fmap.
  split; [done|]. split; [done|].
  apply receives_prefix_sums_from; lia.
Qed.

Lemma vec_size_le_concat (vs : list (list Z)) i v :
  vs !! i = Some v -> vec_size v <= vec_size (concat vs).
Proof.
  unfold vec_size. revert i. induction vs as [|v' vs IH]; intros i Hv; [done|].
  simpl. rewrite length_app. destruct i as [|i]; simpl in Hv.
  - injection Hv as ->. lia.
  - specialize (IH i Hv). lia.
Qed.

(** X24.  [gather(root, v)] for a vector whose elements are not complex
    (the overload for [std::vector<T>]), on a world in which rank [i] holds
    [vs !! i]: the root ends with the concatenation of the vectors of all
    ranks in rank order (so its length is the sum of their lengths), and
    every other rank keeps the vector it had. *)
Theorem gather_vector_on_root ndebug T (vs : list (list Z)) (root : nat) :
  (root < length vs)%nat ->
  vec_size vs < 2 ^ 31 ->
  vec_size (concat vs) < 2 ^ 31 ->
  run (spmd ndebug
         (fun lm r => Parallel.gather_vector lm T (Z.of_nat root) r) vs)
  = Some (imap (fun i v => if bool_decide (i = root) then concat vs else v)
            vs).
Proof.
  intros Hroot HN Htotal.
  destruct (lookup_lt_is_Some_2 vs root Hroot) as [vroot Hvroot].
  assert (vs <> []) as Hne by (intros ->; simpl in Hroot; lia).
  unfold spmd. destruct (Z.eqb_spec (vec_size vs) 1) as [H1|H1].
  - destruct vs as [|v [|]]; try done;
      [|unfold vec_size in H1; simpl in *; lia].
    destruct root as [|root]; [|simpl in Hroot; lia].
    simpl. unfold Parallel.gather_vector. simpl.
    rewrite libmesh_assert_true. simpl. by rewrite app_nil_r.
  - set (lm := fun i : nat =>
                 {| n_processors := vec_size vs;
                    processor_id := Z.of_nat i;
                    NDEBUG := ndebug |}).
    set (G := vec_size (concat vs)) in *.
    assert (1 < length vs)%nat as HN1.
    { unfold vec_size in H1. destruct vs as [|? [|]]; simpl in *; try done.
      lia. }
    rewrite (imap_ext _ (fun i r =>
               Par_bind (gather_vector_rest (lm i) T (Z.of_nat root) r)
                 (Parallel.allgather (lm i) MPI_INT (to_int (vec_size r))
                    (replicate (Z.to_nat (n_processors (lm i))) 0))))
      by (intros; by apply gather_vector_unfold).
    rewrite (run_spmd_bind _ _ _ _
               (run_allgather lm MPI_INT (fun _ r => to_int (vec_size r))
                  _ vs HN1 (fun _ => eq_refl))).
    assert (imap (fun _ r => to_int (vec_size r)) vs = vec_size <$> vs)
      as ->.
    { rewrite <- (imap_const vec_size). apply imap_ext. intros i v Hv. simpl.
      pose proof (vec_size_le_concat vs i v Hv).
      apply to_int_small. unfold vec_size in *. lia. }
    assert (forall i,
              Parallel.displacements_loop (lm i) (vec_size <$> vs)
                (replicate (Z.to_nat (n_processors (lm i))) 0)
              = (prefix_sums 0 (vec_size <$> vs), G)) as Hloop.
    { intros i. simpl. unfold vec_size at 2. rewrite Nat2Z.id.
      rewrite <- (length_fmap vec_size vs).
      rewrite displacements_loop_spec.
      - by rewrite sumZ_lengths.
      - simpl. unfold vec_size. by rewrite length_fmap.
      - apply Forall_fmap, Forall_forall. intros v _. simpl.
        unfold vec_size. lia.
      - by rewrite sumZ_lengths. }
    destruct (Z.eqb_spec G 0) as [HG|HG].
    + rewrite (run_spmd_ret _ (fun _ r => r)).
      * f_equal. apply imap_ext. intros i v Hv. simpl.
        case_bool_decide as Hi; [|done]. subst i.
        pose proof (vec_size_le_concat vs root v Hv) as Hle.
        fold G in Hle. unfold G, vec_size in *.
        destruct v; [|simpl in *; lia].
        destruct (concat vs); [done|simpl in *; lia].
      * done.
      * intros i r Hr. unfold gather_vector_rest. rewrite (Hloop i).
        by rewrite HG.
    + rewrite (run_spmd_step _
                 (fun i r =>
                    MPI_Gatherv r (vec_size r) T
                      (if bool_decide (i = root)
                       then vec_resize 0 r G else r)
                      (vec_size <$> vs) (prefix_sums 0 (vec_size <$> vs))
                      T (Z.of_nat root))
                 (fun i r reply =>
                    _ ← libmesh_assert (lm i) (ierr reply =? MPI_SUCCESS);
                    mret (recvd reply))
                 (fun i r =>
                    ok (if bool_decide (i = root)
                        then place_blocks
                               (if bool_decide (i = root)
                                then vec_resize 0 r G else r)
                               (prefix_sums 0 (vec_size <$> vs))
                               (imap (fun j y => message y (vec_size y)) vs)
                        else if bool_decide (i = root)
                             then vec_resize 0 r G else r))).
      * apply run_spmd_ret; [done|]. intros i r Hr. simpl.
        rewrite libmesh_assert_true. simpl. f_equal.
        case_bool_decide as Hi; [|done].
        rewrite (imap_ext _ (fun _ y => y))
          by (intros; by apply message_all).
        rewrite (imap_const id), list_fmap_id.
        apply (place_blocks_concat vs []).
        unfold vec_resize. rewrite length_resize. unfold G, vec_size. lia.
      * intros i r Hr. unfold gather_vector_rest. rewrite (Hloop i).
        destruct (Z.eqb_spec G 0); [done|]. simpl.
        pose proof (vec_size_le_concat vs i r Hr) as Hle.
        fold G in Hle.
        assert (0 <= vec_size r) by (unfold vec_size; lia).
        assert (Z.of_nat root < vec_size vs) by (unfold vec_size; lia).
        rewrite !to_int_small by lia.
        replace (Z.of_nat root =? Z.of_nat i)
          with (bool_decide (i = root)); [done|].
        case_bool_decide; lia.
      * apply (collective_Gatherv (fun _ r => r)
                 (fun i r => if bool_decide (i = root)
                             then vec_resize 0 r G else r)
                 (fun _ r => vec_size r) _ _ T _ root vroot); [done|done|].
        rewrite bool_decide_eq_true_2 by done. cbv beta.
        rewrite (imap_const (fun v : list Z => (v, vec_size v))).
        apply receives_prefix_sums.
        unfold vec_size at 1, vec_resize. rewrite length_resize.
        unfold G, vec_size. lia.
Qed.

Lemma gather_vector_on_root_witness :
  run (spmd false (fun lm r => Parallel.gather_vector lm MPI_INT 1 r)
         [[1; 2]; []; [3]])
  = Some [[1; 2]; [1; 2; 3]; [3]].
Proof.
  apply (gather_vector_on_root false MPI_INT [[1; 2]; []; [3]] 1).
  - simpl. lia.
  - reflexivity.
  - reflexivity.
Defined.

(** C5.  [gather(root, v)] for a vector of complex numbers.  Two processes
    hold one element each, 1 + 2i and 3 + 4i, and gather on rank 0.  The
    lengths are counted in real and imaginary parts, two per element, and
    the root resizes its vector to that count: it ends with four elements,
    the two gathered ones and two zeros, where the sum of the lengths is
    two.  So it is for every element type. *)
Theorem gather_vector_complex_root_size T :
  run (spmd false
         (fun lm r => Parallel.gather_vector_complex lm T 0 r)
         [[(1, 2)]; [(3, 4)]])
  = Some [[(1, 2); (3, 4); (0, 0); (0, 0)]; [(3, 4)]].
Proof. destruct T; reflexivity. Qed.

(** * Further properties *)

(** ** The packed encoding *)

(** X1.  [pack_vector_bool] of fewer than 2^32 flags gives the least number
    of 32-bit words that holds them, every word fits an [unsigned int], and
    bit [k] of word [j] is flag [32 j + k] (clear past the end of the
    input). *)
Theorem pack_vector_bool_words (in_ : list bool) :
  vec_size in_ < 2 ^ 32 ->
  vec_size (Parallel.pack_vector_bool in_) = words_for (vec_size in_)
  /\ (forall j, 0 <= j ->
        0 <= vec_get 0 (Parallel.pack_vector_bool in_) j < 2 ^ 32)
  /\ (forall j k, 0 <= j -> 0 <= k < 32 ->
        Z.testbit (vec_get 0 (Parallel.pack_vector_bool in_) j) k
        = vec_get false in_ (32 * j + k)).
Proof.
  intros Hsz. destruct (pack_vector_bool_packed in_ Hsz) as [Hwords Hp].
  split; [done|]. split.
  - intros j Hj. by apply (packed_lt_pow2 in_ (vec_size in_)).
  - intros j k Hj Hk. destruct Hp as [_ Hbits]. rewrite Hbits by lia.
    replace (k <? 32) with true by lia. rewrite andb_true_l.
    destruct (Z.ltb_spec (32 * j + k) (vec_size in_)); [done|].
    by rewrite vec_get_ge by done.
Qed.

Lemma pack_vector_bool_words_witness :
  vec_size (Parallel.pack_vector_bool [true; false; true]) = 1
  /\ (forall j, 0 <= j ->
        0 <= vec_get 0 (Parallel.pack_vector_bool [true; false; true]) j
        < 2 ^ 32)
  /\ (forall j k, 0 <= j -> 0 <= k < 32 ->
        Z.testbit (vec_get 0 (Parallel.pack_vector_bool [true; false; true]) j)
          k
        = vec_get false [true; false; true] (32 * j + k)).
Proof.
  apply (pack_vector_bool_words [true; false; true]). reflexivity.
Defined.

(** X2.  [pack_vector_bool] loses nothing: two sequences of the same length
    (below 2^32) with the same packed words are the same sequence. *)
Theorem pack_vector_bool_inj (a b : list bool) :
  length a = length b ->
  vec_size a < 2 ^ 32 ->
  Parallel.pack_vector_bool a = Parallel.pack_vector_bool b ->
  a = b.
Proof.
  intros Hlen Hsz Heq.
  apply list_eq_same_length with (length a); [done|done|].
  intros i x y Hi Hx Hy.
  assert (0 <= Z.of_nat i < vec_size a) as Hia by (unfold vec_size; lia).
  assert (0 <= Z.of_nat i < vec_size b) as Hib
    by (unfold vec_size; rewrite <- Hlen; lia).
  pose proof (pack_testbit a (Z.of_nat i) Hsz Hia) as Ha.
  pose proof (pack_testbit b (Z.of_nat i)
                ltac:(unfold vec_size in *; lia) Hib) as Hb.
  rewrite Heq, Hb in Ha. rewrite !vec_get_lookup, Nat2Z.id, Hx, Hy in Ha.
  simpl in Ha. congruence.
Qed.

Lemma pack_vector_bool_inj_witness :
  [true; false] = [true; false].
Proof.
  apply (pack_vector_bool_inj [true; false] [true; false]); reflexivity.
Defined.

(** ** Reductions on a world *)

Lemma run_scalar_reduction {A} ndebug (f : libMesh -> A -> Par A)
    (enc : A -> Z) (dec : Z -> A) T op
    (k : libMesh -> A -> MPI_reply -> Par A) (xs : list A) :
  (forall lm r, (n_processors lm >? 1) = true ->
     f lm r = Transport (MPI_Allreduce [enc r] 1 T op) (k lm r)) ->
  (forall lm r v, k lm r (ok [v]) = Ret (dec v)) ->
  (forall lm r, (n_processors lm >? 1) = false -> f lm r = Ret r) ->
  (forall r, dec (enc r) = r) ->
  xs <> [] ->
  run (spmd ndebug f xs)
  = Some (replicate (length xs)
            (dec (fold1 (reduce_op T op) (enc <$> xs)))).
Proof.
  intros Hcall Hk Hone Hdec Hne. unfold spmd.
  destruct (Z.gtb_spec (vec_size xs) 1) as [HN|HN].
  - rewrite (run_spmd_Allreduce _ (fun _ x => [enc x]) 1 T op
               (fun i x =>
                  k {| n_processors := vec_size xs;
                       processor_id := Z.of_nat i;
                       NDEBUG := ndebug |} x));
      [|done| |intros; apply fits_singleton].
    2:{ intros i x Hx. apply Hcall. simpl. lia. }
    rewrite (reduce_scalars _ enc) by done.
    rewrite (run_spmd_ret _ (fun _ _ =>
               dec (fold1 (reduce_op T op) (enc <$> xs)))) by done.
    by rewrite imap_const_replicate.
  - destruct xs as [|x [|]]; try done;
      [|unfold vec_size in HN; simpl in *; lia].
    simpl. rewrite Hone by (simpl; lia). simpl. by rewrite Hdec.
Qed.



Lemma foldl_max_of_bool v vs :
  foldl Z.max (of_bool v) (of_bool <$> vs) = of_bool (v || existsb id vs).
Proof.
  revert v. induction vs as [|v' vs IH]; intros v; simpl.
  - by rewrite orb_false_r.
  - replace (Z.max (of_bool v) (of_bool v')) with (of_bool (v || v'))
      by (by destruct v, v').
    rewrite IH. unfold id. by rewrite orb_assoc.
Qed.

(** X4.  On a world of any size, [min] of a [bool] leaves on every rank the
    conjunction of the flags of all ranks, and [max] their disjunction. *)
Theorem min_max_bool_on_world ndebug (bs : list bool) :
  bs <> [] ->
  run (spmd ndebug Parallel.min_bool bs)
  = Some (replicate (length bs) (bool_min bs))
  /\ run (spmd ndebug Parallel.max_bool bs)
     = Some (replicate (length bs) (bool_max bs)).
Proof.
  intros Hne. split.
  - rewrite (run_scalar_reduction ndebug _ of_bool to_bool MPI_UNSIGNED
               MPI_MIN
               (fun _ _ reply =>
                  Ret (to_bool
                         (vec_get Parallel.uninitialised (recvd reply) 0))));
      try done.
    + do 2 f_equal. by apply fold1_min_of_bool.
    + intros lm r HN. unfold Parallel.min_bool. by rewrite HN.
    + intros lm r HN. unfold Parallel.min_bool. by rewrite HN.
    + apply to_bool_of_bool.
  - rewrite (run_scalar_reduction ndebug _ of_bool to_bool MPI_UNSIGNED
               MPI_MAX
               (fun _ _ reply =>
                  Ret (to_bool
                         (vec_get Parallel.uninitialised (recvd reply) 0))));
      try done.
    + do 2 f_equal. destruct bs as [|b bs]; [done|].
      rewrite fmap_cons. cbn [fold1 reduce_op].
      rewrite foldl_max_of_bool. apply to_bool_of_bool.
    + intros lm r HN. unfold Parallel.max_bool. by rewrite HN.
    + intros lm r HN. unfold Parallel.max_bool. by rewrite HN.
    + apply to_bool_of_bool.
Qed.

Lemma min_max_bool_on_world_witness :
  run (spmd false Parallel.min_bool [true; false])
  = Some (replicate 2 (bool_min [true; false]))
  /\ run (spmd false Parallel.max_bool [true; false])
     = Some (replicate 2 (bool_max [true; false])).
Proof. apply (min_max_bool_on_world false [true; false]). done. Defined.










(** X7.  [sum] of an empty vector returns at once on any number of
    processes, whereas [min] and [max] of an empty vector still make their
    one call into the transport when there is more than one process. *)
Theorem empty_vector_reductions lm T :
  returns_without_transport (Parallel.sum_vector lm T []) []
  /\ ((n_processors lm >? 1) = true ->
      forall answer,
        transport_calls answer (Parallel.min_vector lm T []) = 1%nat
        /\ transport_calls answer (Parallel.max_vector lm T []) = 1%nat).
Proof.
  split.
  - apply Ret_returns_without_transport. unfold Parallel.sum_vector.
    simpl. by rewrite andb_false_r.
  - intros HN answer. unfold Parallel.min_vector, Parallel.max_vector.
    by rewrite HN.
Qed.

(** ** allgather and gather on a world *)

(** X8.  On a world of any size, [allgather] of a scalar leaves on every
    rank the values of all ranks in rank order, whatever [recv] held
    before. *)
Theorem allgather_on_world ndebug T (xs : list (Z * list Z)) :
  xs <> [] ->
  run (spmd ndebug
         (fun lm '(send, recv) => Parallel.allgather lm T send recv) xs)
  = Some (replicate (length xs) (xs.*1)).
Proof.
  intros Hne. unfold spmd.
  destruct (decide (1 < length xs)%nat) as [HN|HN].
  - rewrite (imap_ext _ (fun i x =>
               Parallel.allgather
                 {| n_processors := vec_size xs;
                    processor_id := Z.of_nat i;
                    NDEBUG := ndebug |} T (x.1) (x.2)))
      by (by intros i [send recv] _).
    rewrite (run_allgather
               (fun i => {| n_processors := vec_size xs;
                            processor_id := Z.of_nat i;
                            NDEBUG := ndebug |})
               T (fun _ x => x.1) (fun _ x => x.2) xs HN (fun _ => eq_refl)).
    rewrite imap_const_replicate. f_equal. f_equal.
    exact (imap_const fst xs).
  - destruct xs as [|[send recv] [|]]; try done; [|simpl in HN; lia].
    simpl. unfold Parallel.allgather. simpl.
    by rewrite vec_set_resize_1.
Qed.

Lemma allgather_on_world_witness :
  run (spmd false
         (fun lm '(send, recv) => Parallel.allgather lm MPI_INT send recv)
         [(7, []); (8, [1; 2; 3])])
  = Some (replicate 2 [7; 8]).
Proof.
  apply (allgather_on_world false MPI_INT [(7, []); (8, [1; 2; 3])]). done.
Defined.

Lemma collective_Allgatherv {X} (sb rb : nat -> X -> list Z)
    (sc : nat -> X -> Z) (rc dp : list Z) T (xs : list X) :
  xs <> [] ->
  (forall i x, xs !! i = Some x ->
     receives (rb i x) rc dp (imap (fun i x => (sb i x, sc i x)) xs)) ->
  collective
    (imap (fun i x => MPI_Allgatherv (sb i x) (sc i x) T (rb i x) rc dp T)
       xs)
  = Some (imap (fun i x =>
                  ok (place_blocks (rb i x) dp
                        (imap (fun j y => message (sb j y) (sc j y)) xs)))
            xs).
Proof.
  intros Hne Hrecv.
  transitivity
    (world_Allgatherv
       (imap (fun i x =>
                MPI_Allgatherv (sb i x) (sc i x) T (rb i x) rc dp T) xs)).
  { by destruct xs. }
  unfold world_Allgatherv.
  rewrite (mapM_imap_Some _ _
             (fun i x => (sb i x, sc i x, T, rb i x, rc, dp, T))) by done.
  simpl.
  destruct (imap (fun i x => (sb i x, sc i x, T, rb i x, rc, dp, T)) xs)
    as [|a args] eqn:E.
  { by destruct xs. }
  destruct (imap_head_inv _ _ _ _ E) as (x0 & _ & ->). rewrite <- E.
  rewrite !fmap_imap. simpl.
  rewrite bool_decide_eq_true_2.
  - done.
  - apply Forall_imap. intros i x Hx. split; [done|]. split; [done|].
    by apply Hrecv.
Qed.

Lemma allgather_vector_unfold lm T r :
  n_processors lm <> 1 ->
  Parallel.allgather_vector lm T r
  = Par_bind (allgather_vector_rest lm T r)
      (Parallel.allgather lm MPI_INT (to_int (vec_size r))
         (replicate (Z.to_nat (n_processors lm)) 0)).
Proof.
  intros HN. unfold Parallel.allgather_vector.
  destruct (Z.eqb_spec (n_processors lm) 1); [done|]. reflexivity.
Qed.

(** X9.  On a world whose vectors have any lengths (fewer than 2^31
    elements in total), [allgather] of a vector whose elements are not
    complex (the overload for [std::vector<T>]) leaves on every rank the
    concatenation of the vectors of all ranks in rank order; when all are
    empty, every rank keeps its empty vector. *)
Theorem allgather_vector_on_world ndebug T (vs : list (list Z)) :
  vs <> [] ->
  vec_size (concat vs) < 2 ^ 31 ->
  run (spmd ndebug (fun lm r => Parallel.allgather_vector lm T r) vs)
  = Some (replicate (length vs) (concat vs)).
Proof.
  intros Hne Htotal. unfold spmd.
  destruct (Z.eqb_spec (vec_size vs) 1) as [H1|H1].
  - destruct vs as [|v [|]]; try done;
      [|unfold vec_size in H1; simpl in *; lia].
    simpl. unfold Parallel.allgather_vector. simpl. by rewrite app_nil_r.
  - set (lm := fun i : nat =>
                 {| n_processors := vec_size vs;
                    processor_id := Z.of_nat i;
                    NDEBUG := ndebug |}).
    set (G := vec_size (concat vs)) in *.
    assert (1 < length vs)%nat as HN1.
    { unfold vec_size in H1. destruct vs as [|? [|]]; simpl in *; try done.
      lia. }
    rewrite (imap_ext _ (fun i r =>
               Par_bind (allgather_vector_rest (lm i) T r)
                 (Parallel.allgather (lm i) MPI_INT (to_int (vec_size r))
                    (replicate (Z.to_nat (n_processors (lm i))) 0))))
      by (intros; by apply allgather_vector_unfold).
    rewrite (run_spmd_bind _ _ _ _
               (run_allgather lm MPI_INT (fun _ r => to_int (vec_size r))
                  _ vs HN1 (fun _ => eq_refl))).
    assert (imap (fun _ r => to_int (vec_size r)) vs = vec_size <$> vs)
      as ->.
    { rewrite <- (imap_const vec_size). apply imap_ext. intros i v Hv. simpl.
      pose proof (vec_size_le_concat vs i v Hv).
      apply to_int_small. unfold vec_size in *. lia. }
    assert (forall i,
              Parallel.displacements_loop (lm i) (vec_size <$> vs)
                (replicate (Z.to_nat (n_processors (lm i))) 0)
              = (prefix_sums 0 (vec_size <$> vs), G)) as Hloop.
    { intros i. simpl. unfold vec_size at 2. rewrite Nat2Z.id.
      rewrite <- (length_fmap vec_size vs).
      rewrite displacements_loop_spec.
      - by rewrite sumZ_lengths.
      - simpl. unfold vec_size. by rewrite length_fmap.
      - apply Forall_fmap, Forall_forall. intros v _. simpl.
        unfold vec_size. lia.
      - by rewrite sumZ_lengths. }
    destruct (Z.eqb_spec G 0) as [HG|HG].
    + rewrite (run_spmd_ret _ (fun _ r => r)).
      * rewrite <- imap_const_replicate. f_equal.
        apply imap_ext. intros i v Hv. simpl.
        pose proof (vec_size_le_concat vs i v Hv) as Hle.
        fold G in Hle. unfold G, vec_size in *.
        destruct v; [|simpl in *; lia].
        destruct (concat vs); [done|simpl in *; lia].
      * done.
      * intros i r Hr. unfold allgather_vector_rest. rewrite (Hloop i).
        by rewrite HG.
    + rewrite (run_spmd_step _
                 (fun i r =>
                    MPI_Allgatherv r (vec_size r) T (vec_resize 0 r G)
                      (vec_size <$> vs) (prefix_sums 0 (vec_size <$> vs)) T)
                 (fun i r reply =>
                    _ ← libmesh_assert (lm i) (ierr reply =? MPI_SUCCESS);
                    mret (recvd reply))
                 (fun i r =>
                    ok (place_blocks (vec_resize 0 r G)
                          (prefix_sums 0 (vec_size <$> vs))
                          (imap (fun j y => message y (vec_size y)) vs)))).
      * rewrite (run_spmd_ret _ (fun _ _ => concat vs));
          [by rewrite imap_const_replicate|done|].
        intros i r Hr. simpl.
        rewrite libmesh_assert_true. simpl. f_equal.
        rewrite (imap_ext _ (fun _ y => y))
          by (intros; by apply message_all).
        rewrite (imap_const id), list_fmap_id.
        apply (place_blocks_concat vs []).
        unfold vec_resize. rewrite length_resize. unfold G, vec_size. lia.
      * intros i r Hr. unfold allgather_vector_rest. rewrite (Hloop i).
        destruct (Z.eqb_spec G 0); [done|]. simpl.
        pose proof (vec_size_le_concat vs i r Hr) as Hle. fold G in Hle.
        assert (0 <= vec_size r) by (unfold vec_size; lia).
        rewrite !to_int_small by lia. done.
      * apply (collective_Allgatherv (fun _ r => r)
                 (fun i r => vec_resize 0 r G)
                 (fun _ r => vec_size r) _ _ T); [done|].
        intros i r Hr. cbv beta.
        rewrite (imap_const (fun v : list Z => (v, vec_size v))).
        apply receives_prefix_sums.
        unfold vec_size at 1, vec_resize. rewrite length_resize.
        unfold G, vec_size. lia.
Qed.

Lemma allgather_vector_on_world_witness :
  run (spmd false (fun lm r => Parallel.allgather_vector lm MPI_INT r)
         [[1; 2]; []; [3]])
  = Some (replicate 3 [1; 2; 3]).
Proof.
  apply (allgather_vector_on_world false MPI_INT [[1; 2]; []; [3]]).
  - done.
  - reflexivity.
Defined.

Lemma collective_Gather {X} (sb rb : nat -> X -> list Z) T (root : nat)
    (xroot : X) (xs : list X) :
  xs !! root = Some xroot ->
  fits (Z.of_nat (length xs)) (rb root xroot) ->
  (forall i x, xs !! i = Some x -> fits 1 (sb i x)) ->
  collective
    (imap (fun i x => MPI_Gather (sb i x) 1 T (rb i x) 1 T (Z.of_nat root))
       xs)
  = Some (imap (fun i x =>
                  ok (if bool_decide (i = root)
                      then write_block (rb i x) 0
                             (concat (imap (fun j y => message (sb j y) 1)
                                        xs))
                      else rb i x)) xs).
Proof.
  intros Hroot Hrb Hsb.
  assert (xs <> []) as Hne by (intros ->; done).
  transitivity
    (world_Gather
       (imap (fun i x =>
                MPI_Gather (sb i x) 1 T (rb i x) 1 T (Z.of_nat root)) xs)).
  { by destruct xs. }
  unfold world_Gather.
  rewrite (mapM_imap_Some _ _
             (fun i x => (sb i x, 1, T, rb i x, 1, T, Z.of_nat root)))
    by done.
  simpl.
  destruct (imap (fun i x => (sb i x, 1, T, rb i x, 1, T, Z.of_nat root)) xs)
    as [|a args] eqn:E.
  { by destruct xs. }
  destruct (imap_head_inv _ _ _ _ E) as (x0 & _ & ->). rewrite <- E.
  rewrite Nat2Z.id, list_lookup_imap, Hroot. simpl.
  rewrite bool_decide_eq_true_2.
  - f_equal. rewrite imap_compose, fmap_imap. done.
  - split; [lia|]. split; [done|]. split.
    + rewrite length_imap. unfold fits in *. lia.
    + apply Forall_imap. intros i x Hx.
      repeat split; try done; by apply (Hsb i x).
Qed.

(** X10.  On a world of any size and for a root among its ranks, [gather]
    of a scalar leaves on the root the values of all ranks in rank order,
    and on every other rank [recv] as it was. *)
Theorem gather_on_world ndebug T (root : nat) (xs : list (Z * list Z)) :
  (root < length xs)%nat ->
  Z.of_nat root < 2 ^ 31 ->
  run (spmd ndebug
         (fun lm '(send, recv) =>
            Parallel.gather lm T (Z.of_nat root) send recv) xs)
  = Some (imap (fun i x => if bool_decide (i = root) then xs.*1 else x.2)
            xs).
Proof.
  intros Hroot Hint. unfold spmd.
  assert (xs <> []) as Hne by (intros ->; simpl in Hroot; lia).
  destruct (lookup_lt_is_Some_2 xs root Hroot) as [xroot Hxroot].
  assert ((Z.of_nat root <? vec_size xs) = true) as Hlt
    by (unfold vec_size; lia).
  destruct (decide (1 < length xs)%nat) as [HN|HN].
  - rewrite (run_spmd_step _
               (fun i x =>
                  MPI_Gather [x.1] 1 T
                    (if Z.of_nat i =? Z.of_nat root
                     then vec_resize 0 x.2 (vec_size xs) else x.2)
                    1 T (Z.of_nat root))
               (fun i x reply => Ret (recvd reply))
               (fun i x =>
                  ok (if bool_decide (i = root)
                      then write_block
                             (if Z.of_nat i =? Z.of_nat root
                              then vec_resize 0 x.2 (vec_size xs) else x.2)
                             0
                             (concat (imap (fun j y => message [y.1] 1) xs))
                      else
                        if Z.of_nat i =? Z.of_nat root
                        then vec_resize 0 x.2 (vec_size xs) else x.2))).
    + apply run_spmd_ret; [done|]. intros i x Hx. simpl. f_equal.
      destruct (bool_decide_reflect (i = root)) as [->|Hi].
      * rewrite Z.eqb_refl.
        rewrite (concat_singletons (fun _ y => y.1)).
        rewrite write_block_all.
        -- exact (imap_const fst xs).
        -- unfold vec_resize, vec_size.
           by rewrite length_imap, length_resize, Nat2Z.id.
      * destruct (Z.eqb_spec (Z.of_nat i) (Z.of_nat root)); [lia|done].
    + intros i [send recv] Hx. unfold Parallel.gather. simpl.
      rewrite Hlt, libmesh_assert_true. simpl.
      replace (vec_size xs >? 1) with true by (unfold vec_size; lia).
      by rewrite to_int_small by lia.
    + apply (collective_Gather (fun _ x => [x.1])
               (fun i x =>
                  if Z.of_nat i =? Z.of_nat root
                  then vec_resize 0 x.2 (vec_size xs) else x.2)
               T root xroot); [done| |].
      * rewrite Z.eqb_refl. unfold fits, vec_size, vec_resize.
        rewrite length_resize. lia.
      * intros. apply fits_singleton.
  - destruct xs as [|[send recv] [|]]; try done; [|simpl in HN; lia].
    simpl in Hroot. assert (root = 0%nat) as -> by lia.
    simpl. unfold Parallel.gather. simpl.
    rewrite libmesh_assert_true. simpl.
    change (vec_size [(send, recv)]) with 1.
    by rewrite vec_set_resize_1.
Qed.

Lemma gather_on_world_witness :
  run (spmd false
         (fun lm '(send, recv) =>
            Parallel.gather lm MPI_INT (Z.of_nat 1) send recv)
         [(7, [0]); (8, [1; 2; 3])])
  = Some [[0]; [7; 8]].
Proof.
  apply (gather_on_world false MPI_INT 1 [(7, [0]); (8, [1; 2; 3])]).
  - simpl. lia.
  - reflexivity.
Defined.

(** ** broadcast on a world *)

(** X11.  On a world of any size and for a root among its ranks,
    [broadcast] of a scalar leaves the root's value on every rank. *)
Theorem broadcast_on_world ndebug T (root : nat) (x : Z) (xs : list Z) :
  xs !! root = Some x ->
  Z.of_nat root < 2 ^ 31 ->
  run (spmd ndebug
         (fun lm data => Parallel.broadcast lm T data (Z.of_nat root)) xs)
  = Some (replicate (length xs) x).
Proof.
  intros Hroot Hint. unfold spmd.
  destruct (Z.eqb_spec (vec_size xs) 1) as [H1|H1].
  - destruct xs as [|y [|]]; try done;
      [|unfold vec_size in H1; simpl in *; lia].
    destruct root; [|done]. injection Hroot as ->.
    simpl. unfold Parallel.broadcast. simpl.
    by rewrite libmesh_assert_true.
  - rewrite (run_broadcast
               (fun i => {| n_processors := vec_size xs;
                            processor_id := Z.of_nat i;
                            NDEBUG := ndebug |})
               (fun _ => H1) T root Hint xs x Hroot (fun _ y => y)).
    by rewrite imap_const_replicate.
Qed.

Lemma broadcast_on_world_witness :
  run (spmd false
         (fun lm data => Parallel.broadcast lm MPI_INT data (Z.of_nat 2))
         [4; 5; 6])
  = Some (replicate 3 6).
Proof.
  apply (broadcast_on_world false MPI_INT 2 6 [4; 5; 6]); reflexivity.
Defined.

(** X12.  On a world whose vectors all have the length of the root's (below
    2^31), [broadcast] of a vector leaves the root's vector on every
    rank. *)
Theorem broadcast_vector_on_world ndebug T (root : nat) (v : list Z)
    (vs : list (list Z)) :
  vs !! root = Some v ->
  Z.of_nat root < 2 ^ 31 ->
  vec_size v < 2 ^ 31 ->
  Forall (fun w => length w = length v) vs ->
  run (spmd ndebug
         (fun lm data => Parallel.broadcast_vector lm T data (Z.of_nat root))
         vs)
  = Some (replicate (length vs) v).
Proof.
  intros Hroot Hint Hsize Hlen. unfold spmd.
  destruct (Z.eqb_spec (vec_size vs) 1) as [H1|H1].
  - destruct vs as [|y [|]]; try done;
      [|unfold vec_size in H1; simpl in *; lia].
    destruct root; [|done]. injection Hroot as ->.
    simpl. unfold Parallel.broadcast_vector. simpl.
    by rewrite libmesh_assert_true.
  - rewrite (run_broadcast_vector
               (fun i => {| n_processors := vec_size vs;
                            processor_id := Z.of_nat i;
                            NDEBUG := ndebug |})
               (fun _ => H1) T root Hint vs v Hroot (fun _ y => y)
               (length v)).
    + by rewrite imap_const_replicate.
    + intros i w Hw. by apply (Forall_lookup_1 _ _ _ _ Hlen Hw).
    + done.
Qed.

Lemma broadcast_vector_on_world_witness :
  run (spmd false
         (fun lm data =>
            Parallel.broadcast_vector lm MPI_INT data (Z.of_nat 0))
         [[4; 5]; [0; 0]])
  = Some (replicate 2 [4; 5]).
Proof.
  apply (broadcast_vector_on_world false MPI_INT 0 [4; 5] [[4; 5]; [0; 0]]).
  - reflexivity.
  - reflexivity.
  - reflexivity.
  - repeat constructor.
Defined.

(** ** Contract checks *)

(** X13.  Checks that fail.  In a debug build [gather] with a root that is
    not a rank aborts before any call into the transport.  On one process a
    root other than the process itself makes the variable-length [gather]
    and the three [broadcast]s abort in a debug build, and return their
    argument untouched when [NDEBUG] is defined.  With several processes
    and a buffer whose size is not a multiple of their number, [alltoall]
    aborts before the transport in a debug build and makes its call all
    the same when [NDEBUG] is defined. *)
Theorem failed_checks lm T root_id :
  (NDEBUG lm = false -> n_processors lm <= root_id ->
   forall send recv,
     aborts_without_transport (Parallel.gather lm T root_id send recv))
  /\ (n_processors lm = 1 -> processor_id lm <> root_id ->
      if NDEBUG lm
      then
        (forall r,
           returns_without_transport (Parallel.gather_vector lm T root_id r)
             r)
        /\ (forall data,
              returns_without_transport
                (Parallel.broadcast lm T data root_id) data)
        /\ (forall data,
              returns_without_transport
                (Parallel.broadcast_vector lm T data root_id) data)
        /\ (forall data,
              returns_without_transport
                (Parallel.broadcast_string lm data root_id) data)
      else
        (forall r,
           aborts_without_transport (Parallel.gather_vector lm T root_id r))
        /\ (forall data,
              aborts_without_transport (Parallel.broadcast lm T data root_id))
        /\ (forall data,
              aborts_without_transport
                (Parallel.broadcast_vector lm T data root_id))
        /\ (forall data,
              aborts_without_transport
                (Parallel.broadcast_string lm data root_id)))
  /\ (n_processors lm <> 1 ->
      forall buf, vec_size buf mod n_processors lm <> 0 ->
        if NDEBUG lm
        then forall answer,
               transport_calls answer (Parallel.alltoall lm T buf) = 1%nat
        else aborts_without_transport (Parallel.alltoall lm T buf)).
Proof.
  repeat apply conj.
  - intros Hdebug Hroot send recv answer.
    unfold Parallel.gather, libmesh_assert. rewrite Hdebug.
    destruct (Z.ltb_spec root_id (n_processors lm)); [lia|]. done.
  - intros HN Hroot.
    unfold Parallel.gather_vector, Parallel.broadcast,
      Parallel.broadcast_vector, Parallel.broadcast_string, libmesh_assert.
    rewrite HN. simpl.
    destruct (Z.eqb_spec (processor_id lm) root_id); [done|].
    destruct (NDEBUG lm); repeat apply conj; intros; intros answer; done.
  - intros HN buf Hmod.
    unfold Parallel.alltoall, libmesh_assert.
    destruct (Z.eqb_spec (n_processors lm) 1); [done|].
    destruct (Z.eqb_spec (vec_size buf mod n_processors lm) 0); [done|].
    destruct (NDEBUG lm); [|by intros answer].
    intros answer. done.
Qed.

(** ** Error codes of the transport *)

(** X14.  When the transport reports failure, [broadcast] (scalar and
    vector) and [alltoall] abort in a debug build and hand back whatever the
    transport left in the buffer when [NDEBUG] is defined; [min],
    [max] of a vector, [allgather] and [send_receive] of a scalar never
    look at the error code and always return the content of the receive
    buffer. *)
Theorem transport_error_codes lm T answer :
  1 < n_processors lm ->
  (forall c, ierr (answer c) <> MPI_SUCCESS) ->
  (forall data root_id,
     outcome answer (Parallel.broadcast lm T data root_id)
     = if NDEBUG lm
       then Some (vec_get data
                    (recvd (answer (MPI_Bcast [data] 1 T (to_int root_id))))
                    0)
       else None)
  /\ (forall data root_id,
        outcome answer (Parallel.broadcast_vector lm T data root_id)
        = if NDEBUG lm
          then Some (recvd (answer (MPI_Bcast data (to_int (vec_size data))
                                      T (to_int root_id))))
          else None)
  /\ (forall buf,
        vec_size buf mod n_processors lm = 0 ->
        outcome answer (Parallel.alltoall lm T buf)
        = if NDEBUG lm
          then
            let count :=
              to_int (to_unsigned_int (vec_size buf / n_processors lm)) in
            Some (recvd (answer (MPI_Alltoall buf count T buf count T)))
          else None)
  /\ (forall r,
        outcome answer (Parallel.min lm T r)
        = Some (vec_get Parallel.uninitialised
                  (recvd (answer (MPI_Allreduce [r] 1 T MPI_MIN))) 0))
  /\ (forall r,
        outcome answer (Parallel.max_vector lm T r)
        = Some (recvd (answer (MPI_Allreduce r (to_int (vec_size r)) T
                                 MPI_MAX))))
  /\ (forall send recv,
        outcome answer (Parallel.allgather lm T send recv)
        = Some (recvd (answer
                         (MPI_Allgather [send] 1 T
                            (vec_resize 0 recv (n_processors lm)) 1 T))))
  /\ (forall dest send source recv,
        dest <> processor_id lm ->
        outcome answer (Parallel.send_receive lm T dest send source recv)
        = Some (vec_get recv
                  (recvd (answer
                            (MPI_Sendrecv [send] 1 T (to_int dest)
                               [recv] 1 T (to_int source)))) 0)).
Proof.
  intros HN Herr.
  assert ((n_processors lm =? 1) = false) as H1 by lia.
  assert ((n_processors lm >? 1) = true) as Hgt by lia.
  assert (forall c, (ierr (answer c) =? MPI_SUCCESS) = false) as Herr'.
  { intros c. apply Z.eqb_neq, Herr. }
  repeat apply conj.
  - intros data root_id. unfold Parallel.broadcast, libmesh_assert.
    rewrite H1. simpl. rewrite Herr'. by destruct (NDEBUG lm).
  - intros data root_id. unfold Parallel.broadcast_vector, libmesh_assert.
    rewrite H1. simpl. rewrite Herr'. by destruct (NDEBUG lm).
  - intros buf Hmod. unfold Parallel.alltoall, libmesh_assert.
    rewrite H1, Hmod. simpl.
    destruct (NDEBUG lm); simpl; rewrite ?Herr'; done.
  - intros r. unfold Parallel.min. by rewrite Hgt.
  - intros r. unfold Parallel.max_vector. by rewrite Hgt.
  - intros send recv. unfold Parallel.allgather. by rewrite Hgt.
  - intros dest send source recv Hdest. unfold Parallel.send_receive.
    destruct (Z.eqb_spec dest (processor_id lm)); [done|]. done.
Qed.

Lemma transport_error_codes_witness :
  let lm := {| n_processors := 2; processor_id := 0; NDEBUG := false |} in
  let answer := fun _ : MPI_call => {| ierr := 1; recvd := [9] |} in
  outcome answer (Parallel.broadcast lm MPI_INT 5 0) = None
  /\ outcome answer (Parallel.min lm MPI_INT 5) = Some 9.
Proof.
  intros lm answer.
  assert (1 < n_processors lm) as HN by (simpl; lia).
  assert (forall c, ierr (answer c) <> MPI_SUCCESS) as Herr by (by intros c).
  pose proof (transport_error_codes lm MPI_INT answer HN Herr) as H.
  split; [apply (proj1 H)|]. do 3 apply proj2 in H. apply (proj1 H).
Defined.

(** ** Number of calls into the transport *)

(** X15.  With more than one process, and whatever the transport answers,
    [verify] makes exactly three calls into the transport (at a scalar, a
    vector and a string alike); [send_receive], unless both peers are the
    process itself, makes exactly one call for a scalar and exactly two for
    a vector. *)
Theorem transport_call_counts lm T answer :
  1 < n_processors lm ->
  (forall r, transport_calls answer (Parallel.verify lm T r) = 3%nat)
  /\ (forall r,
        transport_calls answer (Parallel.verify_vector lm T r) = 3%nat)
  /\ (forall r, transport_calls answer (Parallel.verify_string lm r) = 3%nat)
  /\ (forall dest send source recv,
        dest <> processor_id lm \/ source <> processor_id lm ->
        transport_calls answer
          (Parallel.send_receive lm T dest send source recv) = 1%nat)
  /\ (forall dest send source recv,
        dest <> processor_id lm \/ source <> processor_id lm ->
        transport_calls answer
          (Parallel.send_receive_vector lm T dest send source recv)
        = 2%nat).
Proof.
  intros HN.
  assert ((n_processors lm >? 1) = true) as Hgt by lia.
  repeat apply conj.
  - intros r. unfold Parallel.verify, Parallel.min, Parallel.max,
      Parallel.min_bool. by rewrite Hgt.
  - intros r. unfold Parallel.verify_vector, Parallel.min_vector,
      Parallel.max_vector, Parallel.min_bool. by rewrite Hgt.
  - intros r. unfold Parallel.verify_string, Parallel.verify_vector,
      Parallel.min_vector, Parallel.max_vector, Parallel.min_bool.
    by rewrite Hgt.
  - intros dest send source recv H. unfold Parallel.send_receive.
    destruct (Z.eqb_spec dest (processor_id lm)),
      (Z.eqb_spec source (processor_id lm)); simpl; try done.
    destruct H; done.
  - intros dest send source recv H. unfold Parallel.send_receive_vector.
    destruct (Z.eqb_spec dest (processor_id lm)),
      (Z.eqb_spec source (processor_id lm)); simpl; try done.
    destruct H; done.
Qed.

Lemma transport_call_counts_witness :
  let lm := {| n_processors := 2; processor_id := 0; NDEBUG := false |} in
  let answer := fun _ : MPI_call => {| ierr := 0; recvd := [9] |} in
  transport_calls answer (Parallel.verify lm MPI_INT 5) = 3%nat.
Proof.
  intros lm answer.
  assert (1 < n_processors lm) as HN by (simpl; lia).
  apply (proj1 (transport_call_counts lm MPI_INT answer HN)).
Defined.

(** ** Paired exchanges on a world *)

Lemma paired_lookup {A} (xs : list (nat * nat * A * A)) i d s send recv :
  paired xs = true ->
  xs !! i = Some (d, s, send, recv) ->
  d <> i
  /\ (exists d' send' recv', xs !! s = Some (i, d', send', recv'))
  /\ (exists s' send' recv', xs !! d = Some (s', i, send', recv')).
Proof.
  unfold paired. rewrite forallb_forall. intros H Hx.
  specialize (H (i, (d, s, send, recv))). simpl in H.
  rewrite !andb_true_iff, negb_true_iff, Nat.eqb_neq,
    !bool_decide_eq_true in H.
  destruct H as [[Hd Hs] Hd'].
  { apply list_elem_of_In, (list_elem_of_lookup_2 _ i).
    by rewrite list_lookup_imap, Hx. }
  split; [done|]. split.
  - destruct (xs !! s) as [[[[a b] c] e]|]; [|done].
    simpl in Hs. injection Hs as ->. eauto.
  - destruct (xs !! d) as [[[[a b] c] e]|]; [|done].
    simpl in Hd'. injection Hd' as ->. eauto.
Qed.

Lemma collective_Sendrecv {X} (dest source : nat -> X -> nat)
    (sb rb : nat -> X -> list Z) (sc rc : nat -> X -> Z) T (xs : list X) :
  xs <> [] ->
  (forall i x, xs !! i = Some x ->
     exists y z,
       xs !! source i x = Some y /\ dest (source i x) y = i
       /\ xs !! dest i x = Some z /\ source (dest i x) z = i
       /\ fits (sc (source i x) y) (sb (source i x) y)
       /\ sc (source i x) y <= rc i x
       /\ fits (rc i x) (rb i x)) ->
  collective
    (imap (fun i x =>
             MPI_Sendrecv (sb i x) (sc i x) T (Z.of_nat (dest i x))
               (rb i x) (rc i x) T (Z.of_nat (source i x))) xs)
  = Some (imap (fun i x =>
                  ok (write_block (rb i x) 0
                        (from_option
                           (fun y => message (sb (source i x) y)
                                       (sc (source i x) y))
                           [] (xs !! source i x)))) xs).
Proof.
  intros Hne Hpair.
  transitivity
    (world_Sendrecv
       (imap (fun i x =>
                MPI_Sendrecv (sb i x) (sc i x) T (Z.of_nat (dest i x))
                  (rb i x) (rc i x) T (Z.of_nat (source i x))) xs)).
  { by destruct xs. }
  unfold world_Sendrecv.
  rewrite (mapM_imap_Some _ _
             (fun i x => (sb i x, sc i x, T, Z.of_nat (dest i x),
                          rb i x, rc i x, T, Z.of_nat (source i x))))
    by done.
  simpl. rewrite imap_compose.
  apply mapM_imap_Some. intros i x Hx.
  destruct (Hpair i x Hx)
    as (y & z & Hy & Hdy & Hz & Hsz & Hfit & Hle & Hfit').
  rewrite !Nat2Z.id, !list_lookup_imap, Hy, Hz. simpl.
  rewrite bool_decide_eq_true_2; [done|].
  rewrite Hdy, Hsz.
  split; [lia|]. split; [lia|]. split; [done|]. split; [done|].
  split; [done|]. split; [exact Hfit|]. split; [exact Hle|exact Hfit'].
Qed.

(** X16.  On a world in which every rank sends to another rank, which
    receives from it, and receives from a rank that sends to it,
    [send_receive] of a scalar leaves on every rank the value sent by its
    source. *)
Theorem send_receive_on_world ndebug T (xs : list (nat * nat * Z * Z)) :
  xs <> [] ->
  paired xs = true ->
  vec_size xs < 2 ^ 31 ->
  run (spmd ndebug
         (fun lm '(d, s, send, recv) =>
            Parallel.send_receive lm T (Z.of_nat d) send (Z.of_nat s) recv)
         xs)
  = Some (exchanged xs).
Proof.
  intros Hne Hpaired HN. unfold spmd.
  - rewrite (run_spmd_step _
               (fun i x =>
                  MPI_Sendrecv [x.1.2] 1 T (Z.of_nat (x.1.1.1))
                    [x.2] 1 T (Z.of_nat (x.1.1.2)))
               (fun i x reply => Ret (vec_get x.2 (recvd reply) 0))
               (fun i x =>
                  ok (write_block [x.2] 0
                        (from_option (fun y => message [y.1.2] 1)
                           [] (xs !! x.1.1.2))))).
    + unfold exchanged. rewrite <- (imap_const (fun _ => _)).
      apply run_spmd_ret; [done|]. intros i [[[d s] send] recv] Hx.
      destruct (paired_lookup _ _ _ _ _ _ Hpaired Hx)
        as (_ & (d' & send' & recv' & Hs) & _).
      simpl. by rewrite Hs.
    + intros i [[[d s] send] recv] Hx.
      destruct (paired_lookup _ _ _ _ _ _ Hpaired Hx)
        as (Hd & (d' & send' & recv' & Hs) & (s' & send'' & recv'' & Hd')).
      apply lookup_lt_Some in Hs, Hd'. unfold vec_size in HN.
      unfold Parallel.send_receive. simpl.
      destruct (Z.eqb_spec (Z.of_nat d) (Z.of_nat i)); [lia|]. simpl.
      by rewrite !to_int_small by lia.
    + apply (collective_Sendrecv (fun _ x => x.1.1.1) (fun _ x => x.1.1.2)
               (fun _ x => [x.1.2]) (fun _ x => [x.2])
               (fun _ _ => 1) (fun _ _ => 1)); [done|].
      intros i [[[d s] send] recv] Hx.
      destruct (paired_lookup _ _ _ _ _ _ Hpaired Hx)
        as (_ & (d' & send' & recv' & Hs) & (s' & send'' & recv'' & Hd)).
      eexists _, _. simpl. repeat split; try done; try lia.
Qed.

Lemma send_receive_on_world_witness :
  run (spmd false
         (fun lm '(d, s, send, recv) =>
            Parallel.send_receive lm MPI_INT (Z.of_nat d) send (Z.of_nat s)
              recv)
         [(1%nat, 2%nat, 10, 0); (2%nat, 0%nat, 11, 0);
            (0%nat, 1%nat, 12, 0)])
  = Some [12; 10; 11].
Proof.
  apply (send_receive_on_world false MPI_INT
           [(1%nat, 2%nat, 10, 0); (2%nat, 0%nat, 11, 0);
            (0%nat, 1%nat, 12, 0)]).
  - done.
  - reflexivity.
  - reflexivity.
Defined.

Lemma paired_source {A} (xs : list (nat * nat * A * A)) i x :
  paired xs = true ->
  xs !! i = Some x ->
  x.1.1.1 <> i
  /\ (x.1.1.1 < length xs)%nat /\ (x.1.1.2 < length xs)%nat
  /\ exists y z,
       xs !! x.1.1.2 = Some y /\ y.1.1.1 = i
       /\ xs !! x.1.1.1 = Some z /\ z.1.1.2 = i.
Proof.
  destruct x as [[[d s] send] recv]. intros Hpaired Hx.
  destruct (paired_lookup _ _ _ _ _ _ Hpaired Hx)
    as (Hd & (d' & send' & recv' & Hs) & (s' & send'' & recv'' & Hd')).
  simpl. split; [done|].
  split; [by eapply lookup_lt_Some|]. split; [by eapply lookup_lt_Some|].
  eexists _, _. by rewrite Hs, Hd'.
Qed.

(** X17.  On such a world, [send_receive] of a vector leaves on every rank
    the vector sent by its source, whatever the lengths of the vectors sent
    (below 2^31) and of the [recv] vectors. *)
Theorem send_receive_vector_on_world ndebug T
    (xs : list (nat * nat * list Z * list Z)) :
  xs <> [] ->
  paired xs = true ->
  vec_size xs < 2 ^ 31 ->
  Forall (fun x => vec_size x.1.2 < 2 ^ 31) xs ->
  run (spmd ndebug
         (fun lm '(d, s, send, recv) =>
            Parallel.send_receive_vector lm T (Z.of_nat d) send (Z.of_nat s)
              recv) xs)
  = Some (exchanged xs).
Proof.
  intros Hne Hpaired HN Hsizes. unfold spmd.
  assert (forall i x, xs !! i = Some x ->
            0 <= vec_size x.1.2 < 2 ^ 31) as Hsize.
  { intros i x Hx. apply (Forall_lookup_1 _ _ _ _ Hsizes) in Hx.
    simpl in Hx. unfold vec_size in *. lia. }
  unfold vec_size in HN.
  rewrite (run_spmd_step _
             (fun i x =>
                MPI_Sendrecv [vec_size x.1.2] 1 MPI_UNSIGNED
                  (Z.of_nat x.1.1.1)
                  [Parallel.uninitialised] 1 MPI_UNSIGNED
                  (Z.of_nat x.1.1.2))
             (fun i x reply =>
                let recvsize :=
                  vec_get Parallel.uninitialised (recvd reply) 0 in
                reply ← transport
                          (MPI_Sendrecv x.1.2 (vec_size x.1.2) T
                             (Z.of_nat x.1.1.1)
                             (vec_resize 0 x.2 recvsize) (to_int recvsize) T
                             (Z.of_nat x.1.1.2));
                mret (recvd reply))
             (fun i x =>
                ok (write_block [Parallel.uninitialised] 0
                      (from_option (fun y => message [vec_size y.1.2] 1)
                         [] (xs !! x.1.1.2))))).
  - rewrite (run_spmd_step _
               (fun i x =>
                  MPI_Sendrecv x.1.2 (vec_size x.1.2) T (Z.of_nat x.1.1.1)
                    (vec_resize 0 x.2
                       (from_option (fun y => vec_size y.1.2) 0
                          (xs !! x.1.1.2)))
                    (from_option (fun y => vec_size y.1.2) 0
                       (xs !! x.1.1.2)) T
                    (Z.of_nat x.1.1.2))
               (fun i x reply => Ret (recvd reply))
               (fun i x =>
                  ok (write_block
                        (vec_resize 0 x.2
                           (from_option (fun y => vec_size y.1.2) 0
                              (xs !! x.1.1.2))) 0
                        (from_option
                           (fun y => message y.1.2 (vec_size y.1.2))
                           [] (xs !! x.1.1.2))))).
    + unfold exchanged. rewrite <- (imap_const (fun _ => _)).
      apply run_spmd_ret; [done|]. intros i x Hx.
      destruct (paired_source _ _ _ Hpaired Hx)
        as (_ & _ & _ & y & z & Hy & _).
      destruct x as [[[d s] send] recv]. simpl in *. rewrite Hy. simpl.
      f_equal. rewrite message_all by done. apply write_block_all.
      unfold vec_resize, vec_size. by rewrite length_resize, Nat2Z.id.
    + intros i x Hx.
      destruct (paired_source _ _ _ Hpaired Hx)
        as (_ & _ & _ & y & z & Hy & _).
      pose proof (Hsize _ _ Hy).
      simpl. rewrite Hy. simpl.
      change (vec_get Parallel.uninitialised
                (write_block [Parallel.uninitialised] 0
                   (message [vec_size y.1.2] 1)) 0)
        with (vec_size y.1.2).
      by rewrite to_int_small by lia.
    + apply (collective_Sendrecv (fun _ x => x.1.1.1) (fun _ x => x.1.1.2)
               (fun _ x => x.1.2)
               (fun _ x =>
                  vec_resize 0 x.2
                    (from_option (fun y => vec_size y.1.2) 0
                       (xs !! x.1.1.2)))
               (fun _ x => vec_size x.1.2)
               (fun _ x =>
                  from_option (fun y => vec_size y.1.2) 0 (xs !! x.1.1.2)));
        [done|].
      intros i x Hx.
      destruct (paired_source _ _ _ Hpaired Hx)
        as (_ & _ & _ & y & z & Hy & Hdy & Hz & Hsz).
      pose proof (Hsize _ _ Hy).
      exists y, z. rewrite Hy. simpl.
      assert (vec_size (vec_resize 0 x.2 (vec_size y.1.2))
              = vec_size y.1.2) as Hlen.
      { unfold vec_resize, vec_size. rewrite length_resize. lia. }
      unfold fits. rewrite Hlen.
      repeat split; try done; lia.
  - intros i x Hx.
    destruct (paired_source _ _ _ Hpaired Hx) as (Hd & Hdlt & Hslt & _).
    pose proof (Hsize _ _ Hx).
    destruct x as [[[d s] send] recv]. simpl in *.
    unfold Parallel.send_receive_vector. simpl.
    destruct (Z.eqb_spec (Z.of_nat d) (Z.of_nat i)); [lia|]. simpl.
    rewrite (to_int_small (Z.of_nat d)), (to_int_small (Z.of_nat s)) by lia.
    rewrite (to_unsigned_int_small (vec_size send)) by lia.
    by rewrite (to_int_small (vec_size send)) by lia.
  - apply (collective_Sendrecv (fun _ x => x.1.1.1) (fun _ x => x.1.1.2)
             (fun _ x => [vec_size x.1.2])
             (fun _ x => [Parallel.uninitialised])
             (fun _ _ => 1) (fun _ _ => 1)); [done|].
    intros i x Hx.
    destruct (paired_source _ _ _ Hpaired Hx)
      as (_ & _ & _ & y & z & Hy & Hdy & Hz & Hsz).
    exists y, z. repeat split; try done; try lia.
Qed.

Lemma send_receive_vector_on_world_witness :
  run (spmd false
         (fun lm '(d, s, send, recv) =>
            Parallel.send_receive_vector lm MPI_INT (Z.of_nat d) send
              (Z.of_nat s) recv)
         [(1%nat, 1%nat, [10; 11], [0; 0; 0]); (0%nat, 0%nat, [], [5])])
  = Some [[]; [10; 11]].
Proof.
  apply (send_receive_vector_on_world false MPI_INT
           [(1%nat, 1%nat, [10; 11], [0; 0; 0]); (0%nat, 0%nat, [], [5])]).
  - done.
  - reflexivity.
  - reflexivity.
  - repeat constructor.
Defined.

Lemma send_receive_vector_vector_unfold lm T dest send source recv :
  dest <> processor_id lm ->
  Parallel.send_receive_vector_vector lm T dest send source recv
  = Transport
      (MPI_Sendrecv [to_unsigned_int (vec_size send)] 1 MPI_UNSIGNED
         (to_int dest) [Parallel.uninitialised] 1 MPI_UNSIGNED
         (to_int source))
      (fun reply =>
         send_receive_vector_vector_sizes lm T dest send source recv
           (vec_get Parallel.uninitialised (recvd reply) 0)).
Proof.
  intros Hd. unfold Parallel.send_receive_vector_vector.
  destruct (Z.eqb_spec dest (processor_id lm)); [done|]. reflexivity.
Qed.

Lemma copy_to_spec (block pre junk : list Z) :
  (length block <= length junk)%nat ->
  Parallel.copy_to block (pre ++ junk) (vec_size pre)
  = pre ++ block ++ drop (length block) junk.
Proof.
  intros Hlen. unfold Parallel.copy_to.
  transitivity
    (pre ++ take (Z.to_nat (Z.of_nat (length block))) block
     ++ drop (Z.to_nat (Z.of_nat (length block))) junk);
    [|by rewrite Nat2Z.id, firstn_all].
  apply (for_loop_invariant0
           (fun j v =>
              v = pre ++ take (Z.to_nat j) block ++ drop (Z.to_nat j) junk)).
  - done.
  - intros j v Hj ->.
    destruct (lookup_lt_is_Some_2 block (Z.to_nat j)) as [b Hb]; [lia|].
    destruct (lookup_lt_is_Some_2 junk (Z.to_nat j)) as [c Hc]; [lia|].
    rewrite vec_get_lookup, Hb. simpl. unfold vec_set.
    replace (Z.to_nat (vec_size pre + j))
      with (length pre + Z.to_nat j)%nat by (unfold vec_size; lia).
    rewrite insert_app_r. f_equal.
    replace (Z.to_nat j)
      with (length (take (Z.to_nat j) block) + 0)%nat at 1
      by (rewrite length_take; lia).
    rewrite insert_app_r.
    replace (Z.to_nat (j + 1)) with (S (Z.to_nat j)) by lia.
    rewrite (take_S_r _ _ _ Hb), <- app_assoc. f_equal.
    by rewrite (drop_S _ _ _ Hc).
Qed.

Lemma copy_to_all (block v : list Z) :
  length v = length block -> Parallel.copy_to block v 0 = block.
Proof.
  intros Hlen.
  transitivity ([] ++ block ++ drop (length block) v);
    [apply (copy_to_spec block [] v); lia|].
  simpl. rewrite <- Hlen, drop_all. apply app_nil_r.
Qed.

Lemma sendsizes_loop (send : list (list Z)) :
  vec_size (concat send) < 2 ^ 32 ->
  for_loop (length send) 0
    (fun i '(sendsizes, sendsizesum) =>
       let sendsizes :=
         vec_set sendsizes i
           (to_unsigned_int (vec_size (vec_get [] send i))) in
       (sendsizes, to_unsigned_int (sendsizesum + vec_get 0 sendsizes i)))
    (replicate (length send) 0, 0)
  = (vec_size <$> send, vec_size (concat send)).
Proof.
  intros Htotal. unfold vec_size in Htotal.
  transitivity
    ((vec_size <$> take (Z.to_nat (Z.of_nat (length send))) send)
     ++ replicate (length send - Z.to_nat (Z.of_nat (length send))) 0,
     vec_size (concat (take (Z.to_nat (Z.of_nat (length send))) send))).
  2: { rewrite Nat2Z.id, firstn_all, Nat.sub_diag. simpl.
       by rewrite app_nil_r. }
  apply (for_loop_invariant0
           (fun i st =>
              st = ((vec_size <$> take (Z.to_nat i) send)
                    ++ replicate (length send - Z.to_nat i) 0,
                    vec_size (concat (take (Z.to_nat i) send))))).
  - simpl. by rewrite Nat.sub_0_r.
  - intros i [ss sum] Hi [= -> ->].
    destruct (lookup_lt_is_Some_2 send (Z.to_nat i)) as [v Hv]; [lia|].
    assert (vec_size (concat (take (S (Z.to_nat i)) send))
            <= vec_size (concat send)) as Hle.
    { rewrite <- (take_drop (S (Z.to_nat i)) send) at 2.
      rewrite concat_app. unfold vec_size. rewrite length_app. lia. }
    replace (Z.to_nat (i + 1)) with (S (Z.to_nat i)) by lia.
    rewrite (take_S_r _ _ _ Hv) in *. rewrite concat_app in *.
    simpl in Hle |- *. rewrite app_nil_r in *.
    unfold vec_size in Hle. rewrite length_app in Hle.
    rewrite (vec_get_lookup [] send), Hv. simpl.
    rewrite (to_unsigned_int_small (vec_size v))
      by (unfold vec_size; lia).
    rewrite vec_get_set_eq.
    2: { unfold vec_size.
         rewrite length_app, length_fmap, length_take, length_replicate.
         lia. }
    f_equal.
    + unfold vec_set.
      replace (Z.to_nat i)
        with (length (vec_size <$> take (Z.to_nat i) send) + 0)%nat at 1
        by (rewrite length_fmap, length_take; lia).
      rewrite insert_app_r.
      replace (length send - Z.to_nat i)%nat
        with (S (length send - S (Z.to_nat i)))%nat by lia.
      rewrite fmap_app. simpl. by rewrite <- app_assoc.
    + rewrite to_unsigned_int_small by (unfold vec_size; lia).
      unfold vec_size. rewrite length_app. lia.
Qed.

Lemma rows_resized_spec (src recv : list (list Z)) :
  length recv = length src ->
  vec_size (concat src) < 2 ^ 32 ->
  (rows_resized (vec_size <$> src) (vec_size src) recv).1
  = vec_size (concat src)
  /\ Forall2 (fun w v => length w = length v)
       (rows_resized (vec_size <$> src) (vec_size src) recv).2 src.
Proof.
  intros Hlen Htotal. unfold rows_resized.
  replace (Z.to_nat (vec_size src)) with (length src)
    by (unfold vec_size; lia).
  unfold vec_size in Htotal.
  cut (let st :=
         for_loop (length src) 0
           (fun i '(recvsizesum, recv) =>
              (to_unsigned_int
                 (recvsizesum + vec_get 0 (vec_size <$> src) i),
               vec_set recv i
                 (vec_resize 0 (vec_get [] recv i)
                    (vec_get 0 (vec_size <$> src) i))))
           (0, recv) in
       st.1 = vec_size (concat (take (Z.to_nat (Z.of_nat (length src))) src))
       /\ length st.2 = length src
       /\ Forall2 (fun w v => length w = length v)
            (take (Z.to_nat (Z.of_nat (length src))) st.2)
            (take (Z.to_nat (Z.of_nat (length src))) src)).
  { simpl. rewrite Nat2Z.id, firstn_all. intros (-> & Hl & H).
    split; [done|]. by rewrite take_ge in H by lia. }
  apply (for_loop_invariant0
           (fun i (st : Z * list (list Z)) =>
              st.1 = vec_size (concat (take (Z.to_nat i) src))
              /\ length st.2 = length src
              /\ Forall2 (fun w v => length w = length v)
                   (take (Z.to_nat i) st.2) (take (Z.to_nat i) src))).
  - simpl. repeat split; [done|constructor].
  - intros i [sum rc] Hi (Hsum & Hl & Hall). simpl in *. subst sum.
    destruct (lookup_lt_is_Some_2 src (Z.to_nat i)) as [v Hv]; [lia|].
    assert (vec_size (concat (take (S (Z.to_nat i)) src))
            <= vec_size (concat src)) as Hle.
    { rewrite <- (take_drop (S (Z.to_nat i)) src) at 2.
      rewrite concat_app. unfold vec_size. rewrite length_app. lia. }
    replace (Z.to_nat (i + 1)) with (S (Z.to_nat i)) by lia.
    rewrite (take_S_r _ _ _ Hv) in *. rewrite concat_app in *.
    simpl in Hle |- *. rewrite app_nil_r in *.
    unfold vec_size in Hle. rewrite length_app in Hle.
    rewrite (vec_get_lookup 0), list_lookup_fmap, Hv. simpl.
    repeat split.
    + rewrite to_unsigned_int_small by (unfold vec_size; lia).
      unfold vec_size. rewrite length_app. lia.
    + by rewrite length_vec_set.
    + unfold vec_set.
      rewrite (take_S_r _ _ (vec_resize 0 (vec_get [] rc i) (vec_size v)))
        by (apply list_lookup_insert_eq; lia).
      rewrite take_insert_ge by lia.
      apply Forall2_app; [done|]. constructor; [|constructor].
      unfold vec_resize, vec_size. by rewrite length_resize, Nat2Z.id.
Qed.

Lemma fill_senddata_loop (send : list (list Z)) :
  for_loop (length send) 0
    (fun i '(senddata, out) =>
       (Parallel.copy_to (vec_get [] send i) senddata out,
        out + vec_size (vec_get [] send i)))
    (replicate (length (concat send)) 0, 0)
  = (concat send, vec_size (concat send)).
Proof.
  transitivity
    (concat (take (Z.to_nat (Z.of_nat (length send))) send)
     ++ replicate
          (length (concat send)
           - length (concat (take (Z.to_nat (Z.of_nat (length send)))
                               send))) 0,
     vec_size (concat (take (Z.to_nat (Z.of_nat (length send))) send))).
  2: { rewrite Nat2Z.id, firstn_all, Nat.sub_diag. simpl.
       by rewrite app_nil_r. }
  apply (for_loop_invariant0
           (fun i st =>
              st = (concat (take (Z.to_nat i) send)
                    ++ replicate
                         (length (concat send)
                          - length (concat (take (Z.to_nat i) send))) 0,
                    vec_size (concat (take (Z.to_nat i) send))))).
  - simpl. by rewrite Nat.sub_0_r.
  - intros i [sd out] Hi [= -> ->].
    destruct (lookup_lt_is_Some_2 send (Z.to_nat i)) as [v Hv]; [lia|].
    assert (length (concat (take (S (Z.to_nat i)) send))
            <= length (concat send))%nat as Hle.
    { rewrite <- (take_drop (S (Z.to_nat i)) send) at 2.
      rewrite concat_app, length_app. lia. }
    replace (Z.to_nat (i + 1)) with (S (Z.to_nat i)) by lia.
    rewrite (take_S_r _ _ _ Hv) in *. rewrite concat_app in *.
    simpl in Hle |- *. rewrite app_nil_r in *.
    rewrite length_app in Hle.
    rewrite (vec_get_lookup [] send), Hv. simpl.
    rewrite copy_to_spec by (rewrite length_replicate; lia).
    rewrite drop_replicate, <- app_assoc. f_equal.
    + do 3 f_equal. rewrite length_app. lia.
    + unfold vec_size. rewrite length_app. lia.
Qed.

Lemma take_drop_concat (src : list (list Z)) i v :
  src !! i = Some v ->
  take (length v) (drop (length (concat (take i src))) (concat src)) = v.
Proof.
  intros Hv. rewrite <- (take_drop i src) at 2.
  rewrite concat_app, drop_app_length, (drop_S _ _ _ Hv). simpl.
  by rewrite take_app_length.
Qed.

Lemma scatter_loop (src recv : list (list Z)) :
  Forall2 (fun w v => length w = length v) recv src ->
  for_loop (length src) 0
    (fun i '(recv, in_) =>
       (vec_set recv i
          (Parallel.copy_to
             (take (Z.to_nat (vec_get 0 (vec_size <$> src) i))
                (drop (Z.to_nat in_) (concat src)))
             (vec_get [] recv i) 0),
        in_ + vec_get 0 (vec_size <$> src) i))
    (recv, 0)
  = (src, vec_size (concat src)).
Proof.
  intros Hall. pose proof (Forall2_length _ _ _ Hall) as Hlen.
  transitivity
    (take (Z.to_nat (Z.of_nat (length src))) src
     ++ drop (Z.to_nat (Z.of_nat (length src))) recv,
     vec_size (concat (take (Z.to_nat (Z.of_nat (length src))) src))).
  2: { rewrite Nat2Z.id, firstn_all, <- Hlen, drop_all.
       by rewrite app_nil_r. }
  apply (for_loop_invariant0
           (fun i st =>
              st = (take (Z.to_nat i) src ++ drop (Z.to_nat i) recv,
                    vec_size (concat (take (Z.to_nat i) src))))).
  - done.
  - intros i [rc in_] Hi [= -> ->].
    destruct (lookup_lt_is_Some_2 src (Z.to_nat i)) as [v Hv]; [lia|].
    destruct (lookup_lt_is_Some_2 recv (Z.to_nat i)) as [w Hw]; [lia|].
    pose proof (Forall2_lookup_lr _ _ _ _ _ _ Hall Hw Hv) as Hwv.
    simpl in Hwv.
    rewrite (vec_get_lookup 0), list_lookup_fmap, Hv. simpl.
    rewrite (vec_get_lookup []).
    rewrite lookup_app_r by (rewrite length_take; lia).
    rewrite length_take, lookup_drop.
    replace (Z.to_nat i + (Z.to_nat i - Z.to_nat i `min` length src))%nat
      with (Z.to_nat i) by lia.
    rewrite Hw. simpl.
    unfold vec_size at 1 2. rewrite !Nat2Z.id.
    rewrite (take_drop_concat _ _ _ Hv), copy_to_all by done.
    replace (Z.to_nat (i + 1)) with (S (Z.to_nat i)) by lia.
    rewrite (take_S_r _ _ _ Hv), concat_app. simpl. rewrite app_nil_r.
    f_equal.
    + unfold vec_set.
      replace (Z.to_nat i)
        with (length (take (Z.to_nat i) src) + 0)%nat at 1
        by (rewrite length_take; lia).
      rewrite insert_app_r, (drop_S _ _ _ Hw). simpl.
      by rewrite <- app_assoc.
    + unfold vec_size. rewrite length_app. lia.
Qed.

Lemma send_receive_vector_vector_sizes_spec lm T dest send source recv
    (src : list (list Z)) :
  vec_size send < 2 ^ 31 ->
  vec_size (concat send) < 2 ^ 31 ->
  vec_size src < 2 ^ 31 ->
  send_receive_vector_vector_sizes lm T dest send source recv (vec_size src)
  = Transport
      (MPI_Sendrecv (vec_size <$> send) (vec_size send) MPI_UNSIGNED
         (to_int dest)
         (replicate (length src) 0) (vec_size src) MPI_UNSIGNED
         (to_int source))
      (fun reply =>
         send_receive_vector_vector_data lm T dest send source
           (vec_resize [] recv (vec_size src)) (vec_size send)
           (vec_size src) (vec_size (concat send)) (recvd reply)).
Proof.
  intros Hsend Htotal Hsrc. unfold send_receive_vector_vector_sizes.
  assert (0 <= vec_size send) by (unfold vec_size; lia).
  assert (0 <= vec_size src) by (unfold vec_size; lia).
  rewrite (to_unsigned_int_small (vec_size send)) by lia.
  unfold vec_resize. rewrite !resize_nil.
  replace (Z.to_nat (vec_size send)) with (length send)
    by (unfold vec_size; lia).
  replace (Z.to_nat (vec_size src)) with (length src)
    by (unfold vec_size; lia).
  rewrite sendsizes_loop by lia. simpl.
  by rewrite (to_int_small (vec_size send)), (to_int_small (vec_size src))
    by lia.
Qed.

Lemma send_receive_vector_vector_data_spec lm T dest send source recv
    (src : list (list Z)) :
  length recv = length src ->
  vec_size (concat send) < 2 ^ 31 ->
  vec_size (concat src) < 2 ^ 31 ->
  send_receive_vector_vector_data lm T dest send source recv
    (vec_size send) (vec_size src) (vec_size (concat send))
    (vec_size <$> src)
  = Transport
      (MPI_Sendrecv (concat send) (vec_size (concat send)) T (to_int dest)
         (replicate (length (concat src)) 0) (vec_size (concat src)) T
         (to_int source))
      (fun reply =>
         send_receive_vector_vector_finish lm
           (rows_resized (vec_size <$> src) (vec_size src) recv).2
           (vec_size src) (vec_size <$> src) (recvd reply)).
Proof.
  intros Hlen Htotal Hsrc. unfold send_receive_vector_vector_data.
  assert (0 <= vec_size (concat send)) by (unfold vec_size; lia).
  assert (0 <= vec_size (concat src)) by (unfold vec_size; lia).
  destruct (rows_resized_spec src recv Hlen) as [Hsum _]; [lia|].
  destruct (rows_resized (vec_size <$> src) (vec_size src) recv)
    as [sum rc]. simpl in Hsum. subst sum.
  unfold vec_resize. rewrite !resize_nil.
  replace (Z.to_nat (vec_size send)) with (length send)
    by (unfold vec_size; lia).
  replace (Z.to_nat (vec_size (concat send))) with (length (concat send))
    by (unfold vec_size; lia).
  replace (Z.to_nat (vec_size (concat src))) with (length (concat src))
    by (unfold vec_size; lia).
  rewrite fill_senddata_loop, Z.eqb_refl, libmesh_assert_true. simpl.
  by rewrite (to_int_small (vec_size (concat send))),
    (to_int_small (vec_size (concat src))) by lia.
Qed.

Lemma send_receive_vector_vector_finish_spec lm recv (src : list (list Z)) :
  Forall2 (fun w v => length w = length v) recv src ->
  send_receive_vector_vector_finish lm recv (vec_size src)
    (vec_size <$> src) (concat src)
  = Ret src.
Proof.
  intros Hall. unfold send_receive_vector_vector_finish.
  replace (Z.to_nat (vec_size src)) with (length src)
    by (unfold vec_size; lia).
  by rewrite scatter_loop, Z.eqb_refl, libmesh_assert_true.
Qed.

(** X18.  On such a world, [send_receive] of a vector of vectors leaves on
    every rank the vector of vectors sent by its source, row by row:
    flattening, the three exchanges and the scattering undo each other, and
    both consistency checks pass.  Each rank sends fewer than 2^31 rows and
    fewer than 2^31 elements in all. *)
Theorem send_receive_vector_vector_on_world ndebug T
    (xs : list (nat * nat * list (list Z) * list (list Z))) :
  xs <> [] ->
  paired xs = true ->
  vec_size xs < 2 ^ 31 ->
  Forall (fun x => vec_size x.1.2 < 2 ^ 31
                   /\ vec_size (concat x.1.2) < 2 ^ 31) xs ->
  run (spmd ndebug
         (fun lm '(d, s, send, recv) =>
            Parallel.send_receive_vector_vector lm T (Z.of_nat d) send
              (Z.of_nat s) recv) xs)
  = Some (exchanged xs).
Proof.
  intros Hne Hpaired HN Hsizes. unfold spmd.
  set (lm := fun i : nat =>
               {| n_processors := vec_size xs;
                  processor_id := Z.of_nat i;
                  NDEBUG := ndebug |}).
  set (src := fun x : nat * nat * list (list Z) * list (list Z) =>
                from_option (fun y => y.1.2) [] (xs !! x.1.1.2)).
  assert (forall i x, xs !! i = Some x ->
            vec_size x.1.2 < 2 ^ 31
            /\ vec_size (concat x.1.2) < 2 ^ 31) as Hsize.
  { intros i x Hx. by apply (Forall_lookup_1 _ _ _ _ Hsizes) in Hx. }
  assert (forall i x, xs !! i = Some x ->
            x.1.1.1 <> i
            /\ to_int (Z.of_nat x.1.1.1) = Z.of_nat x.1.1.1
            /\ to_int (Z.of_nat x.1.1.2) = Z.of_nat x.1.1.2
            /\ exists y z,
                 xs !! x.1.1.2 = Some y /\ y.1.1.1 = i
                 /\ xs !! x.1.1.1 = Some z /\ z.1.1.2 = i
                 /\ src x = y.1.2
                 /\ vec_size y.1.2 < 2 ^ 31
                 /\ vec_size (concat y.1.2) < 2 ^ 31) as Hroute.
  { intros i x Hx.
    destruct (paired_source _ _ _ Hpaired Hx)
      as (Hd & Hdlt & Hslt & y & z & Hy & Hdy & Hz & Hsz).
    unfold vec_size in HN.
    split; [done|]. rewrite !to_int_small by lia.
    split; [done|]. split; [done|].
    exists y, z. destruct (Hsize _ _ Hy).
    unfold src. rewrite Hy. done. }
  rewrite (run_spmd_step _
             (fun i x =>
                MPI_Sendrecv [vec_size x.1.2] 1 MPI_UNSIGNED
                  (Z.of_nat x.1.1.1)
                  [Parallel.uninitialised] 1 MPI_UNSIGNED
                  (Z.of_nat x.1.1.2))
             (fun i x reply =>
                send_receive_vector_vector_sizes (lm i) T (Z.of_nat x.1.1.1)
                  x.1.2 (Z.of_nat x.1.1.2) x.2
                  (vec_get Parallel.uninitialised (recvd reply) 0))
             (fun i x =>
                ok (write_block [Parallel.uninitialised] 0
                      (from_option (fun y => message [vec_size y.1.2] 1)
                         [] (xs !! x.1.1.2))))).
  2: { intros i x Hx.
       destruct (Hroute i x Hx) as (Hd & Hdi & Hsi & _).
       pose proof (Hsize i x Hx) as [Hlen _].
       destruct x as [[[d s] send] recv]. simpl in *.
       rewrite send_receive_vector_vector_unfold by (simpl; lia).
       rewrite Hdi, Hsi.
       by rewrite to_unsigned_int_small by (unfold vec_size in *; lia). }
  2: { apply (collective_Sendrecv (fun _ x => x.1.1.1) (fun _ x => x.1.1.2)
                (fun _ x => [vec_size x.1.2])
                (fun _ x => [Parallel.uninitialised])
                (fun _ _ => 1) (fun _ _ => 1)); [done|].
       intros i x Hx.
       destruct (Hroute i x Hx)
         as (_ & _ & _ & y & z & Hy & Hdy & Hz & Hsz & _).
       exists y, z. repeat split; try done; try lia. }
  rewrite (run_spmd_step _
             (fun i x =>
                MPI_Sendrecv (vec_size <$> x.1.2) (vec_size x.1.2)
                  MPI_UNSIGNED (Z.of_nat x.1.1.1)
                  (replicate (length (src x)) 0) (vec_size (src x))
                  MPI_UNSIGNED (Z.of_nat x.1.1.2))
             (fun i x reply =>
                send_receive_vector_vector_data (lm i) T (Z.of_nat x.1.1.1)
                  x.1.2 (Z.of_nat x.1.1.2)
                  (vec_resize [] x.2 (vec_size (src x))) (vec_size x.1.2)
                  (vec_size (src x)) (vec_size (concat x.1.2))
                  (recvd reply))
             (fun i x =>
                ok (write_block (replicate (length (src x)) 0) 0
                      (from_option
                         (fun y => message (vec_size <$> y.1.2)
                                     (vec_size y.1.2))
                         [] (xs !! x.1.1.2))))).
  2: { intros i x Hx.
       destruct (Hroute i x Hx)
         as (_ & Hdi & Hsi & y & z & Hy & _ & _ & _ & Hsrc & Hlen & _).
       pose proof (Hsize i x Hx) as [Hlen' Htotal'].
       simpl. rewrite Hy. simpl.
       change (vec_get Parallel.uninitialised
                 (write_block [Parallel.uninitialised] 0
                    (message [vec_size y.1.2] 1)) 0)
         with (vec_size y.1.2).
       rewrite Hsrc.
       rewrite (send_receive_vector_vector_sizes_spec _ _ _ _ _ _ y.1.2)
         by done.
       by rewrite Hdi, Hsi. }
  2: { apply (collective_Sendrecv (fun _ x => x.1.1.1) (fun _ x => x.1.1.2)
                (fun _ x => vec_size <$> x.1.2)
                (fun _ x => replicate (length (src x)) 0)
                (fun _ x => vec_size x.1.2)
                (fun _ x => vec_size (src x))); [done|].
       intros i x Hx.
       destruct (Hroute i x Hx)
         as (_ & _ & _ & y & z & Hy & Hdy & Hz & Hsz & Hsrc & _).
       exists y, z. rewrite Hsrc. unfold fits, vec_size.
       rewrite length_fmap, length_replicate.
       repeat split; try done; lia. }
  rewrite (run_spmd_step _
             (fun i x =>
                MPI_Sendrecv (concat x.1.2) (vec_size (concat x.1.2)) T
                  (Z.of_nat x.1.1.1)
                  (replicate (length (concat (src x))) 0)
                  (vec_size (concat (src x))) T (Z.of_nat x.1.1.2))
             (fun i x reply =>
                send_receive_vector_vector_finish (lm i)
                  (rows_resized (vec_size <$> src x) (vec_size (src x))
                     (vec_resize [] x.2 (vec_size (src x)))).2
                  (vec_size (src x)) (vec_size <$> src x) (recvd reply))
             (fun i x =>
                ok (write_block (replicate (length (concat (src x))) 0) 0
                      (from_option
                         (fun y => message (concat y.1.2)
                                     (vec_size (concat y.1.2)))
                         [] (xs !! x.1.1.2))))).
  2: { intros i x Hx.
       destruct (Hroute i x Hx)
         as (_ & Hdi & Hsi & y & z & Hy & _ & _ & _ & Hsrc & Hlen & Htotal).
       pose proof (Hsize i x Hx) as [Hlen' Htotal'].
       simpl. rewrite Hy, Hsrc. simpl.
       rewrite message_all by (unfold vec_size; by rewrite length_fmap).
       rewrite write_block_all
         by (by rewrite length_fmap, length_replicate).
       rewrite send_receive_vector_vector_data_spec; try done.
       - by rewrite Hdi, Hsi.
       - unfold vec_resize. rewrite length_resize. unfold vec_size. lia. }
  2: { apply (collective_Sendrecv (fun _ x => x.1.1.1) (fun _ x => x.1.1.2)
                (fun _ x => concat x.1.2)
                (fun _ x => replicate (length (concat (src x))) 0)
                (fun _ x => vec_size (concat x.1.2))
                (fun _ x => vec_size (concat (src x)))); [done|].
       intros i x Hx.
       destruct (Hroute i x Hx)
         as (_ & _ & _ & y & z & Hy & Hdy & Hz & Hsz & Hsrc & _).
       exists y, z. rewrite Hsrc. unfold fits, vec_size.
       rewrite length_replicate.
       repeat split; try done; lia. }
  unfold exchanged. rewrite <- (imap_const (fun _ => _)).
  apply run_spmd_ret; [done|]. intros i x Hx.
  destruct (Hroute i x Hx)
    as (_ & _ & _ & y & z & Hy & _ & _ & _ & Hsrc & Hlen & Htotal).
  simpl. rewrite Hy, Hsrc. simpl.
  rewrite message_all by done.
  rewrite write_block_all by (by rewrite length_replicate).
  rewrite send_receive_vector_vector_finish_spec.
  - destruct x as [[[d s] send] recv]. simpl in *. by rewrite Hy.
  - apply rows_resized_spec.
    + unfold vec_resize. rewrite length_resize. unfold vec_size. lia.
    + lia.
Qed.

Lemma send_receive_vector_vector_on_world_witness :
  run (spmd false
         (fun lm '(d, s, send, recv) =>
            Parallel.send_receive_vector_vector lm MPI_INT (Z.of_nat d) send
              (Z.of_nat s) recv)
         [(1%nat, 1%nat, [[10; 11]; []; [12]], [[0]]);
          (0%nat, 0%nat, [], [[5]; [6; 7]])])
  = Some [[]; [[10; 11]; []; [12]]].
Proof.
  apply (send_receive_vector_vector_on_world false MPI_INT
           [(1%nat, 1%nat, [[10; 11]; []; [12]], [[0]]);
            (0%nat, 0%nat, [], [[5]; [6; 7]])]).
  - done.
  - reflexivity.
  - reflexivity.
  - repeat constructor.
Defined.

(** ** alltoall, twice *)

Lemma run_alltoall {X} (lm : nat -> libMesh) T (buf : nat -> X -> list Z)
    (K : nat) (xs : list X) :
  (1 < length xs)%nat ->
  (forall i, n_processors (lm i) = vec_size xs) ->
  (forall i x, xs !! i = Some x ->
     length (buf i x) = (length xs * K)%nat) ->
  Z.of_nat K < 2 ^ 31 ->
  run (imap (fun i x => Parallel.alltoall (lm i) T (buf i x)) xs)
  = Some (imap (fun i _ =>
                  concat (imap (fun j y => block (Z.of_nat K) i (buf j y))
                            xs)) xs).
Proof.
  intros HN Hlm Hlen HK.
  assert (xs <> []) as Hne by (intros ->; simpl in HN; lia).
  rewrite (run_spmd_step _
             (fun i x => MPI_Alltoall (buf i x) (Z.of_nat K) T (buf i x)
                           (Z.of_nat K) T)
             (fun i x reply =>
                _ ← libmesh_assert (lm i) (ierr reply =? MPI_SUCCESS);
                mret (recvd reply))
             (fun i x =>
                ok (write_block (buf i x) 0
                      (concat (imap (fun j y =>
                                       block (Z.of_nat K) i (buf j y))
                                 xs))))).
  - apply run_spmd_ret; [done|]. intros i x Hx. simpl.
    rewrite libmesh_assert_true. simpl. f_equal.
    apply write_block_all.
    apply lookup_lt_Some in Hx as Hi.
    rewrite (Hlen i x Hx), length_concat, fmap_imap.
    rewrite (imap_ext _ (fun _ _ => K)).
    + by rewrite imap_const_replicate, sum_list_replicate.
    + intros j y Hy. simpl.
      by apply (length_block K (length xs)); [apply Hlen|].
  - intros i x Hx. unfold Parallel.alltoall. rewrite Hlm.
    destruct (Z.eqb_spec (vec_size xs) 1) as [E|_];
      [unfold vec_size in E; lia|].
    unfold vec_size. rewrite (Hlen i x Hx).
    rewrite Nat2Z.inj_mul, Z.mul_comm, Z.div_mul, Z.mod_mul by lia.
    rewrite to_unsigned_int_small, to_int_small by lia.
    simpl. by rewrite libmesh_assert_true.
  - apply collective_Alltoall; [done|]. intros i x Hx.
    unfold fits, vec_size. rewrite (Hlen i x Hx). lia.
Qed.

Lemma concat_blocks_from {X} (K : nat) (buf : list Z) (xs : list X) :
  forall start,
    concat (imap (fun j _ => block (Z.of_nat K) (start + j) buf) xs)
    = take (length xs * K) (drop (start * K) buf).
Proof.
  induction xs as [|x xs IH]; intros start; [done|].
  rewrite imap_cons. cbn [concat length].
  rewrite (imap_ext _ (fun j _ => block (Z.of_nat K) (S start + j) buf))
    by (intros; simpl; f_equal; lia).
  rewrite IH. unfold block. rewrite Nat2Z.id, Nat.add_0_r.
  replace (S start * K)%nat with (start * K + K)%nat by lia.
  rewrite <- drop_drop.
  replace (S (length xs) * K)%nat with (K + length xs * K)%nat by lia.
  apply take_take_drop.
Qed.

(** X19.  On a world of [N] processes whose buffers all have [N * K]
    elements, [alltoall] applied twice gives every rank its buffer back. *)
Theorem alltoall_twice ndebug T (bufs : list (list Z)) (K : nat) :
  bufs <> [] ->
  Forall (fun buf => length buf = (length bufs * K)%nat) bufs ->
  Z.of_nat K < 2 ^ 31 ->
  run (spmd ndebug
         (fun lm buf =>
            buf ← Parallel.alltoall lm T buf; Parallel.alltoall lm T buf)
         bufs)
  = Some bufs.
Proof.
  intros Hne Hall HK. unfold spmd.
  set (lm := fun i : nat =>
               {| n_processors := vec_size bufs;
                  processor_id := Z.of_nat i;
                  NDEBUG := ndebug |}).
  destruct (decide (1 < length bufs)%nat) as [HN|HN].
  - rewrite (run_spmd_bind
               (fun i buf => Parallel.alltoall (lm i) T buf)
               (fun i _ buf => Parallel.alltoall (lm i) T buf)
               (fun i _ =>
                  concat (imap (fun j y => block (Z.of_nat K) i y) bufs))).
    2: { apply (run_alltoall lm T (fun _ buf => buf) K); try done.
         intros i buf Hbuf. by apply (Forall_lookup_1 _ _ _ _ Hall Hbuf). }
    assert (forall i buf, bufs !! i = Some buf ->
              length (concat (imap (fun j y => block (Z.of_nat K) i y) bufs))
              = (length bufs * K)%nat) as Hlen.
    { intros i buf Hbuf. apply lookup_lt_Some in Hbuf as Hi.
      rewrite length_concat, fmap_imap.
      rewrite (imap_ext _ (fun _ _ => K)).
      - by rewrite imap_const_replicate, sum_list_replicate.
      - intros j y Hy. simpl. apply (length_block K (length bufs)); [|done].
        by apply (Forall_lookup_1 _ _ _ _ Hall Hy). }
    rewrite (run_alltoall lm T
               (fun i _ =>
                  concat (imap (fun j y => block (Z.of_nat K) i y) bufs))
               K bufs HN (fun _ => eq_refl) Hlen HK).
    f_equal. apply list_eq. intros i. rewrite list_lookup_imap.
    destruct (bufs !! i) as [buf|] eqn:Hbuf; [|done]. simpl. f_equal.
    apply lookup_lt_Some in Hbuf as Hi.
    rewrite (imap_ext _ (fun j _ => block (Z.of_nat K) (0 + j) buf)).
    + rewrite concat_blocks_from. simpl. rewrite drop_0.
      apply take_ge. by rewrite (Forall_lookup_1 _ _ _ _ Hall Hbuf).
    + intros j y Hy. simpl.
      apply (block_concat K); [|by rewrite list_lookup_imap, Hbuf].
      apply Forall_imap. intros j' y' Hy'.
      apply (length_block K (length bufs)); [|by eapply lookup_lt_Some].
      by apply (Forall_lookup_1 _ _ _ _ Hall Hy').
  - destruct bufs as [|buf [|]]; try done; try (simpl in HN; lia).
Qed.

Lemma alltoall_twice_witness :
  run (spmd false
         (fun lm buf =>
            buf ← Parallel.alltoall lm MPI_INT buf;
            Parallel.alltoall lm MPI_INT buf)
         [[1; 2; 3; 4]; [5; 6; 7; 8]])
  = Some [[1; 2; 3; 4]; [5; 6; 7; 8]].
Proof.
  apply (alltoall_twice false MPI_INT [[1; 2; 3; 4]; [5; 6; 7; 8]] 2).
  - done.
  - repeat constructor.
  - reflexivity.
Defined.

(** ** verify after broadcast, and at vector types *)







(** ** Checks of the build without a transport *)

(** X22.  In the build without a transport, [send_receive] with a target
    other than the source, and [gather] with a root other than 0, abort in a
    debug build; when [NDEBUG] is defined they copy [send] into [recv] as
    for a well-formed call. *)
Theorem fallback_checks {T} lm (d send : T) (recv : T) :
  (forall send_tgt recv_source,
     send_tgt <> recv_source ->
     if NDEBUG lm
     then returns_without_transport
            (ParallelNoMPI.send_receive lm send_tgt send recv_source recv)
            send
     else aborts_without_transport
            (ParallelNoMPI.send_receive lm send_tgt send recv_source recv))
  /\ (forall root_id recvs,
        root_id <> 0 ->
        if NDEBUG lm
        then returns_without_transport
               (ParallelNoMPI.gather lm d root_id send recvs) [send]
        else aborts_without_transport
               (ParallelNoMPI.gather lm d root_id send recvs)).
Proof.
  split.
  - intros tgt src Hne.
    unfold ParallelNoMPI.send_receive, libmesh_assert.
    destruct (Z.eqb_spec tgt src); [done|].
    by destruct (NDEBUG lm); intros answer.
  - intros root_id recvs Hne.
    unfold ParallelNoMPI.gather, libmesh_assert.
    destruct (Z.eqb_spec root_id 0); [done|].
    destruct (NDEBUG lm); intros answer; [|done].
    simpl. by rewrite vec_set_resize_1.
Qed.

(** ** parallel_only *)

Lemma spmd_fmap {X Y A} ndebug (f : libMesh -> Y -> Par A) (g : X -> Y)
    (xs : list X) :
  spmd ndebug f (g <$> xs) = spmd ndebug (fun lm x => f lm (g x)) xs.
Proof.
  unfold spmd. rewrite imap_fmap. apply imap_ext. intros i x Hx. simpl.
  unfold vec_size. by rewrite length_fmap.
Qed.

Lemma identical_fmap {A B} (f : A -> B) (xs : list A) :
  identical xs -> identical (f <$> xs).
Proof.
  intros H i j x y Hx Hy. rewrite list_lookup_fmap in Hx, Hy.
  destruct (xs !! i) as [a|] eqn:Ha; [|done].
  destruct (xs !! j) as [b|] eqn:Hb; [|done].
  simpl in *. injection Hx as <-. injection Hy as <-.
  f_equal. by apply (H i j).
Qed.

Lemma identical_pairs {A B} (xs : list (A * B)) :
  identical (xs.*1) -> identical (xs.*2) -> identical xs.
Proof.
  intros H1 H2 i j [a b] [a' b'] Hx Hy. f_equal.
  - apply (H1 i j); by rewrite list_lookup_fmap, ?Hx, ?Hy.
  - apply (H2 i j); by rewrite list_lookup_fmap, ?Hx, ?Hy.
Qed.

Lemma run_all_halt {X A} (xs : list X) :
  run (imap (fun _ _ => @Halt A) xs) = None.
Proof. by destruct xs. Qed.

(** X23.  [parallel_only] does nothing when [NDEBUG] is defined.  In a
    debug build, on a world whose file names have the same length (below
    2^31), it returns on every rank when all ranks reached it at the same
    file and line, and otherwise aborts the computation. *)
Theorem parallel_only_on_world ndebug (sites : list (list ascii * Z))
    (len : nat) :
  sites <> [] ->
  Forall (fun site => length site.1 = len) sites ->
  Z.of_nat len < 2 ^ 31 ->
  exists passes : bool,
    run (spmd ndebug (fun lm site => parallel_only lm site.1 site.2) sites)
    = (if passes then Some (replicate (length sites) tt) else None)
    /\ (passes = true <-> ndebug = true \/ identical sites).
Proof.
  intros Hne Hall Hlen.
  destruct ndebug.
  { exists true. split; [|by split; [left|]].
    unfold spmd. rewrite <- imap_const_replicate.
    by apply run_spmd_ret. }
  destruct (run_verify_string false (sites.*1) len)
    as (verified1 & Hrun1 & Hiff1 & _); [by destruct sites| |done|].
  { apply Forall_fmap. by eapply Forall_impl; [exact Hall|]. }
  destruct (run_verify false MPI_INT (sites.*2))
    as (verified2 & Hrun2 & _ & Hiff2 & _); [by destruct sites|].
  rewrite spmd_fmap, length_fmap, <- imap_const_replicate in Hrun1.
  rewrite spmd_fmap, length_fmap, <- imap_const_replicate in Hrun2.
  unfold spmd in *.
  set (lm := fun i : nat =>
               {| n_processors := vec_size sites;
                  processor_id := Z.of_nat i;
                  NDEBUG := false |}) in *.
  exists (verified1 && verified2). split.
  - unfold parallel_only. simpl.
    rewrite (run_spmd_bind
               (fun i site => Parallel.verify_string (lm i) site.1)
               (fun i site verified =>
                  _ ← libmesh_assert (lm i) verified;
                  verified ← Parallel.verify (lm i) MPI_INT site.2;
                  libmesh_assert (lm i) verified)
               (fun _ _ => verified1) sites Hrun1).
    destruct verified1; [|apply run_all_halt].
    rewrite (imap_ext _
               (fun i site =>
                  Par_bind (fun verified => libmesh_assert (lm i) verified)
                    (Parallel.verify (lm i) MPI_INT site.2)))
      by (intros; by rewrite libmesh_assert_true).
    rewrite (run_spmd_bind
               (fun i site => Parallel.verify (lm i) MPI_INT site.2)
               (fun i site verified => libmesh_assert (lm i) verified)
               (fun _ _ => verified2) sites Hrun2).
    destruct verified2; [|apply run_all_halt].
    rewrite <- imap_const_replicate. by apply run_spmd_ret.
  - rewrite andb_true_iff, Hiff1, Hiff2. split.
    + intros [H1 H2]. right. by apply identical_pairs.
    + intros [|H]; [done|]. split; by apply identical_fmap.
Qed.

Lemma parallel_only_on_world_witness :
  exists passes : bool,
    run (spmd false (fun lm site => parallel_only lm site.1 site.2)
           [(["a"; "b"]%char, 7); (["a"; "b"]%char, 8)])
    = (if passes then Some (replicate 2 tt) else None)
    /\ (passes = true
        <-> false = true
            \/ identical [(["a"; "b"]%char, 7); (["a"; "b"]%char, 8)]).
Proof.
  apply (parallel_only_on_world false
           [(["a"; "b"]%char, 7); (["a"; "b"]%char, 8)] 2).
  - done.
  - repeat constructor.
  - reflexivity.
Defined.
